(** * Rating normalisation and table materialisation of [beer_process.py]

    A shallow embedding of [rescale] and [process_dataset] from
    [src/common/data/beer_process.py], together with the pieces of the Python
    runtime the script calls ([str.strip], [str.split], [float], [json.loads],
    dictionaries, float arithmetic), and the properties of the pipeline that
    the specification states.  After them come the prompting loop of
    [src/llms_baseline/prompting.py] and further properties of both scripts.

    Conventions.
    - Python [float] is binary64: Rocq's primitive [float], whose operations
      round to nearest-even exactly as CPython's do.
    - Python [str] is modelled as [string], read as the UTF-8 bytes of the
      text; a lone surrogate, which a [str] can hold and UTF-8 cannot encode,
      is carried as the three bytes the encoding scheme would give it.  The
      white space [str.strip] removes and the digits [float] reads are those
      of Unicode, recognised through their encodings.
    - An exception is a value of [exn]; code that may raise returns a
      [result]. *)

From Stdlib Require Import ZArith List String Ascii Bool Lia Floats.
From Stdlib Require Import DecimalString Reals Lra Psatz.
Import ListNotations.

Set Warnings "-register-all".

Local Open Scope string_scope.
Local Open Scope Z_scope.

(** ** Exceptions and results *)

Inductive exn : Type :=
| JSONDecodeError
| KeyError
| TypeError
| AttributeError
| IndexError
| ValueError
| ZeroDivisionError
| RecursionError
| FileNotFoundError
| UnicodeEncodeError.

Inductive result (A : Type) : Type :=
| Ok (a : A)
| Raise (e : exn).

Arguments Ok {A} a.
Arguments Raise {A} e.

Definition bind {A B : Type} (r : result A) (k : A -> result B) : result B :=
  match r with
  | Ok a => k a
  | Raise e => Raise e
  end.

Notation "x <- r ;; k" := (bind r (fun x => k))
  (at level 61, r at next level, right associativity).
Notation "' p <- r ;; k" := (bind r (fun p => k))
  (at level 61, p pattern, r at next level, right associativity).

Definition raises {A : Type} (r : result A) : Prop := exists e, r = Raise e.

(** ** Python values

    The values [json.loads] can produce.  A [dict] keeps its keys in insertion
    order and holds each key once. *)

Inductive value : Type :=
| VNone
| VBool (b : bool)
| VInt (z : Z)
| VFloat (f : float)
| VStr (s : string)
| VList (l : list value)
| VDict (d : list (string * value)).

Definition dict : Type := list (string * value).

Fixpoint dict_get {V : Type} (k : string) (d : list (string * V)) : option V :=
  match d with
  | [] => None
  | (k', v) :: d' => if String.eqb k k' then Some v else dict_get k d'
  end.

(** [d[k] = v]: overwrite in place when the key is present, append otherwise. *)
Fixpoint dict_set {V : Type} (k : string) (v : V) (d : list (string * V))
  : list (string * V) :=
  match d with
  | [] => [(k, v)]
  | (k', v') :: d' =>
      if String.eqb k k' then (k', v) :: d' else (k', v') :: dict_set k v d'
  end.

(** [bool(x)] *)
Definition truthy (x : value) : bool :=
  match x with
  | VNone => false
  | VBool b => b
  | VInt z => negb (z =? 0)
  | VFloat f => negb (PrimFloat.eqb f 0%float)
  | VStr s => negb (String.eqb s "")
  | VList l => match l with [] => false | _ => true end
  | VDict d => match d with [] => false | _ => true end
  end.

(** [x[k]] for a string key [k] *)
Definition getitem (x : value) (k : string) : result value :=
  match x with
  | VDict d => match dict_get k d with Some v => Ok v | None => Raise KeyError end
  | _ => Raise TypeError
  end.

(** [l[i]] on a Python list of strings *)
Definition index {A : Type} (l : list A) (i : nat) : result A :=
  match nth_error l i with
  | Some a => Ok a
  | None => Raise IndexError
  end.

(** ** Strings *)

Definition chr (n : nat) : string := String (ascii_of_nat n) EmptyString.

Definition code (c : ascii) : N := N_of_ascii c.

Definition in_range (lo hi : N) (c : ascii) : bool :=
  ((lo <=? code c) && (code c <=? hi))%N.

(** [str.isspace] on the ASCII range: TAB..CR, FS..US and the space. *)
Definition isspace (c : ascii) : bool := in_range 9 13 c || in_range 28 32 c.

(** C's [isspace], which [float] uses to trim its argument. *)
Definition c_isspace (c : ascii) : bool := in_range 9 13 c || in_range 32 32 c.

Definition isdigit (c : ascii) : bool := in_range 48 57 c.

Definition digit_val (c : ascii) : Z := Z.of_N (code c) - 48.

Fixpoint lstrip_with (sp : ascii -> bool) (s : string) : string :=
  match s with
  | String c s' => if sp c then lstrip_with sp s' else s
  | EmptyString => EmptyString
  end.

Fixpoint string_rev_onto (s acc : string) : string :=
  match s with
  | String c s' => string_rev_onto s' (String c acc)
  | EmptyString => acc
  end.

Definition string_rev (s : string) : string := string_rev_onto s EmptyString.

Definition strip_with (sp : ascii -> bool) (s : string) : string :=
  string_rev (lstrip_with sp (string_rev (lstrip_with sp s))).

(** The white space of Unicode beyond ASCII, by its UTF-8 bytes: U+0085 and
    U+00A0 on two bytes; U+1680, U+2000 to U+200A, U+2028, U+2029, U+202F,
    U+205F and U+3000 on three. *)
Definition space2 (a b : ascii) : bool :=
  (code a =? 194)%N && ((code b =? 133)%N || (code b =? 160)%N).

Definition space3 (a b c : ascii) : bool :=
  (code a =? 225)%N && (code b =? 154)%N && (code c =? 128)%N
  || (code a =? 226)%N && (code b =? 128)%N
     && (in_range 128 138 c || in_range 168 169 c || (code c =? 175)%N)
  || (code a =? 226)%N && (code b =? 129)%N && (code c =? 159)%N
  || (code a =? 227)%N && (code b =? 128)%N && (code c =? 128)%N.

(** [s.lstrip()]: the white space characters at the head are dropped. *)
Fixpoint lstrip (s : string) : string :=
  match s with
  | String a r1 =>
      if isspace a then lstrip r1
      else
        match r1 with
        | String b r2 =>
            if space2 a b then lstrip r2
            else
              match r2 with
              | String c r3 => if space3 a b c then lstrip r3 else s
              | EmptyString => s
              end
        | EmptyString => s
        end
  | EmptyString => EmptyString
  end.

(** The same on a text whose bytes are in reverse order. *)
Fixpoint lstrip_rev (s : string) : string :=
  match s with
  | String c r1 =>
      if isspace c then lstrip_rev r1
      else
        match r1 with
        | String b r2 =>
            if space2 b c then lstrip_rev r2
            else
              match r2 with
              | String a r3 => if space3 a b c then lstrip_rev r3 else s
              | EmptyString => s
              end
        | EmptyString => s
        end
  | EmptyString => EmptyString
  end.

(** [s.rstrip()] *)
Definition rstrip (s : string) : string := string_rev (lstrip_rev (string_rev s)).

(** [s.strip()] *)
Definition strip (s : string) : string := rstrip (lstrip s).

(** [s.split(sep)] for a one-character separator: every occurrence cuts. *)
Fixpoint split (s : string) (sep : ascii) : list string :=
  match s with
  | EmptyString => [EmptyString]
  | String c s' =>
      if Ascii.eqb c sep then EmptyString :: split s' sep
      else match split s' sep with
           | p :: ps => String c p :: ps
           | [] => [String c EmptyString]
           end
  end.

(** [v.split("/")]: only [str] has the method. *)
Definition str_split (v : value) (sep : ascii) : result (list string) :=
  match v with
  | VStr s => Ok (split s sep)
  | _ => Raise AttributeError
  end.

Fixpoint contains (c : ascii) (s : string) : bool :=
  match s with
  | EmptyString => false
  | String a s' => Ascii.eqb a c || contains c s'
  end.

Definition lower (c : ascii) : ascii :=
  if in_range 65 90 c then ascii_of_N (code c + 32) else c.

Fixpoint lower_str (s : string) : string :=
  match s with
  | EmptyString => EmptyString
  | String c s' => String (lower c) (lower_str s')
  end.

(** ** Decimal text to binary64

    [float_of_decimal neg m e] is the binary64 nearest to [(-1)^neg * m * 10^e]
    (ties to even), computed on unbounded integers with the rounding of the
    Standard Library's specification of IEEE 754. *)

Definition round_ratio (neg : bool) (n d : Z) : spec_float :=
  let '(q, e, l) := SFdiv_core_binary prec emax n 0 d 0 in
  binary_round_aux prec emax neg q e l.

Definition float_of_decimal (neg : bool) (m e : Z) : float :=
  SF2Prim
    match m with
    | Zpos p =>
        if 0 <=? e then binary_round prec emax neg (Z.to_pos (Zpos p * 10 ^ e)) 0
        else round_ratio neg (Zpos p) (10 ^ (- e))
    | _ => S754_zero neg
    end.

(** *** The grammar of [float(str)]

    [[sign] (digits ["." [digits]] | "." digits) [("e"|"E") [sign] digits]],
    or a signed [inf], [infinity] or [nan] in any case; single underscores may
    separate digits; white space around the literal is dropped. *)

(** Underscores must stand between two digits; they are then removed. *)
Fixpoint drop_underscores (prev : ascii) (s : string) : option string :=
  match s with
  | EmptyString => if Ascii.eqb prev "_" then None else Some EmptyString
  | String c s' =>
      if Ascii.eqb c "_" then
        if isdigit prev then drop_underscores c s' else None
      else if Ascii.eqb prev "_" && negb (isdigit c) then None
      else option_map (String c) (drop_underscores c s')
  end.

(** Reads a run of digits: its value continued from [acc], how many digits
    were read, and the rest of the text. *)
Fixpoint read_digits (acc : Z) (n : Z) (s : string) : Z * Z * string :=
  match s with
  | String c s' =>
      if isdigit c then read_digits (10 * acc + digit_val c) (n + 1) s'
      else (acc, n, s)
  | EmptyString => (acc, n, s)
  end.

Definition read_sign (s : string) : bool * string :=
  match s with
  | String "-" s' => (true, s')
  | String "+" s' => (false, s')
  | _ => (false, s)
  end.

Definition parse_inf_or_nan (neg : bool) (s : string) : option float :=
  let l := lower_str s in
  if String.eqb l "inf" || String.eqb l "infinity" then
    Some (if neg then neg_infinity else infinity)
  else if String.eqb l "nan" then Some nan
  else None.

Definition parse_exponent (s : string) : option Z :=
  match s with
  | EmptyString => Some 0
  | String c s' =>
      if Ascii.eqb c "e" || Ascii.eqb c "E" then
        let '(eneg, s1) := read_sign s' in
        let '(ev, en, s2) := read_digits 0 0 s1 in
        if (0 <? en) && String.eqb s2 "" then Some (if eneg then - ev else ev)
        else None
      else None
  end.

Definition parse_decimal (neg : bool) (s : string) : option float :=
  let '(m1, n1, s1) := read_digits 0 0 s in
  let '(m2, n2, s2) :=
    match s1 with
    | String "." s1' => read_digits m1 0 s1'
    | _ => (m1, 0, s1)
    end in
  if n1 + n2 =? 0 then None
  else option_map (fun ev => float_of_decimal neg m2 (ev - n2)) (parse_exponent s2).

(** *** Digits and white space outside ASCII

    Before it parses, [float] turns every white space character of Unicode
    into a space and every decimal digit of Unicode into the ASCII digit of
    its value; a character that is neither ends the text with a [?], which no
    literal contains. *)

(** The code points of the zeros of the decimal digits of Unicode 14 beyond
    ASCII; the nine code points after each are its digits one to nine. *)
Definition decimal_zeros : list N :=
  [1632; 1776; 1984; 2406; 2534; 2662; 2790; 2918; 3046; 3174; 3302; 3430; 3558; 3664;
   3792; 3872; 4160; 4240; 6112; 6160; 6470; 6608; 6784; 6800; 6992; 7088; 7232; 7248;
   42528; 43216; 43264; 43472; 43504; 43600; 44016; 65296; 66720; 68912; 69734; 69872;
   69942; 70096; 70384; 70736; 70864; 71248; 71360; 71472; 71904; 72016; 72784; 73040;
   73120; 92768; 92864; 93008; 120782; 120792; 120802; 120812; 120822; 123200; 123632;
   125264; 130032]%N.

(** [Py_UNICODE_TODECIMAL] beyond ASCII *)
Definition to_decimal (cp : N) : option N :=
  option_map (fun z => cp - z)%N
    (find (fun z => (z <=? cp) && (cp <? z + 10))%N decimal_zeros).

(** [Py_UNICODE_ISSPACE] beyond ASCII *)
Definition unicode_isspace (cp : N) : bool :=
  ((cp =? 133) || (cp =? 160) || (cp =? 5760) || ((8192 <=? cp) && (cp <=? 8202))
   || (cp =? 8232) || (cp =? 8233) || (cp =? 8239) || (cp =? 8287) || (cp =? 12288))%N.

(** What a character beyond ASCII becomes, before the rest of the text. *)
Definition transformed (cp : N) (rest : string) : string :=
  if unicode_isspace cp then String " " rest
  else
    match to_decimal cp with
    | Some d => String (ascii_of_N (48 + d)) rest
    | None => "?"
    end.

(** The code point of a sequence of two, three or four bytes. *)
Definition cp2 (a b : ascii) : N := ((code a - 192) * 64 + (code b - 128))%N.

Definition cp3 (a b c : ascii) : N :=
  ((code a - 224) * 4096 + (code b - 128) * 64 + (code c - 128))%N.

Definition cp4 (a b c d : ascii) : N :=
  ((code a - 240) * 262144 + (code b - 128) * 4096 + (code c - 128) * 64
   + (code d - 128))%N.

(** [_PyUnicode_TransformDecimalAndSpaceToASCII]: the characters below 127
    stay as they are. *)
Fixpoint to_ascii (s : string) : string :=
  match s with
  | EmptyString => EmptyString
  | String a r1 =>
      if (code a <? 127)%N then String a (to_ascii r1)
      else if (code a <? 128)%N then "?"
      else
        match r1 with
        | String b r2 =>
            if (code a <? 224)%N then transformed (cp2 a b) (to_ascii r2)
            else
              match r2 with
              | String c r3 =>
                  if (code a <? 240)%N then transformed (cp3 a b c) (to_ascii r3)
                  else
                    match r3 with
                    | String d r4 => transformed (cp4 a b c d) (to_ascii r4)
                    | EmptyString => "?"
                    end
              | EmptyString => "?"
              end
        | EmptyString => "?"
        end
  end.

Definition float_of_string (s : string) : option float :=
  let t := strip_with c_isspace (to_ascii s) in
  match (if contains "_" t then drop_underscores "000" t else Some t) with
  | None => None
  | Some u =>
      let '(neg, body) := read_sign u in
      match parse_inf_or_nan neg body with
      | Some f => Some f
      | None => parse_decimal neg body
      end
  end.

(** [float(s)] *)
Definition float_ (s : string) : result float :=
  match float_of_string s with
  | Some f => Ok f
  | None => Raise ValueError
  end.

(** [x / y] on floats: a zero divisor raises. *)
Definition truediv (x y : float) : result float :=
  if PrimFloat.eqb y 0%float then Raise ZeroDivisionError else Ok (x / y)%float.

(** ** [json.loads]

    The decoder of Python's [json] module in its default configuration: the
    JSON grammar, plus the constants [NaN], [Infinity] and [-Infinity]; an
    object becomes a [dict] (a repeated key keeps its last value), an array a
    list, a number an [int] or, with a fraction or an exponent, a [float]. *)

Definition quote : ascii := "034"%char.
Definition backslash : ascii := "092"%char.

Definition json_ws (c : ascii) : bool :=
  Ascii.eqb c " " || in_range 9 10 c || in_range 13 13 c.

Definition skip_ws (s : string) : string := lstrip_with json_ws s.

Fixpoint strip_prefix (p s : string) : option string :=
  match p, s with
  | EmptyString, _ => Some s
  | String a p', String b s' => if Ascii.eqb a b then strip_prefix p' s' else None
  | String _ _, EmptyString => None
  end.

Definition hex_val (c : ascii) : option N :=
  if isdigit c then Some (code c - 48)%N
  else if in_range 97 102 c then Some (code c - 87)%N
  else if in_range 65 70 c then Some (code c - 55)%N
  else None.

Definition hex4 (a b c d : ascii) : option N :=
  match hex_val a, hex_val b, hex_val c, hex_val d with
  | Some x, Some y, Some z, Some w => Some (((x * 16 + y) * 16 + z) * 16 + w)%N
  | _, _, _, _ => None
  end.

Definition byte (n : N) : ascii := ascii_of_N n.

(** The UTF-8 bytes of a code point. *)
Definition utf8 (cp : N) : string :=
  (if cp <? 128 then String (byte cp) ""
   else if cp <? 2048 then
     String (byte (192 + cp / 64)) (String (byte (128 + cp mod 64)) "")
   else if cp <? 65536 then
     String (byte (224 + cp / 4096))
       (String (byte (128 + (cp / 64) mod 64)) (String (byte (128 + cp mod 64)) ""))
   else
     String (byte (240 + cp / 262144))
       (String (byte (128 + (cp / 4096) mod 64))
          (String (byte (128 + (cp / 64) mod 64))
             (String (byte (128 + cp mod 64)) ""))))%N.

Definition simple_escape (c : ascii) : option ascii :=
  if Ascii.eqb c quote then Some quote
  else if Ascii.eqb c backslash then Some backslash
  else if Ascii.eqb c "/" then Some "/"%char
  else if Ascii.eqb c "b" then Some "008"%char
  else if Ascii.eqb c "f" then Some "012"%char
  else if Ascii.eqb c "n" then Some "010"%char
  else if Ascii.eqb c "r" then Some "013"%char
  else if Ascii.eqb c "t" then Some "009"%char
  else None.

Definition is_high_surrogate (u : N) : bool := ((55296 <=? u) && (u <=? 56319))%N.
Definition is_low_surrogate (u : N) : bool := ((56320 <=? u) && (u <=? 57343))%N.

(** The low surrogate escape that may follow a high one. *)
Definition low_surrogate (s : string) : option (N * string) :=
  match s with
  | String b (String u (String g1 (String g2 (String g3 (String g4 r))))) =>
      if Ascii.eqb b backslash && Ascii.eqb u "u" then
        match hex4 g1 g2 g3 g4 with
        | Some v => if is_low_surrogate v then Some (v, r) else None
        | None => None
        end
      else None
  | _ => None
  end.

(** The text of a string literal, read from just after its opening quote,
    and what follows its closing quote. *)
Fixpoint scanstring (s : string) : option (string * string) :=
  match s with
  | EmptyString => None
  | String c s' =>
      if Ascii.eqb c quote then Some (EmptyString, s')
      else if Ascii.eqb c backslash then
        match s' with
        | String e s'' =>
            if Ascii.eqb e "u" then
              match s'' with
              | String h1 (String h2 (String h3 (String h4 r))) =>
                  match hex4 h1 h2 h3 h4 with
                  | Some u =>
                      match (if is_high_surrogate u then low_surrogate r else None) with
                      | Some (v, _) =>
                          (* the pair stands for one code point *)
                          match r with
                          | String _ (String _ (String _ (String _ (String _ (String _ r2))))) =>
                              option_map
                                (fun '(t, rest) =>
                                   (utf8 (65536 + (u - 55296) * 1024 + (v - 56320))%N ++ t, rest))
                                (scanstring r2)
                          | _ => None
                          end
                      | None =>
                          option_map (fun '(t, rest) => (utf8 u ++ t, rest)) (scanstring r)
                      end
                  | None => None
                  end
              | _ => None
              end
            else
              match simple_escape e with
              | Some a => option_map (fun '(t, rest) => (String a t, rest)) (scanstring s'')
              | None => None
              end
        | EmptyString => None
        end
      else if (code c <? 32)%N then None
      else option_map (fun '(t, rest) => (String c t, rest)) (scanstring s')
  end.

(** A number literal at the head of the text: an optional minus sign, then
    either a single [0] or a run of digits that does not start with [0], then
    optionally a dot with at least one digit, then optionally [e] or [E], an
    optional sign and at least one digit. *)
Definition scan_number (s : string) : option (value * string) :=
  let '(neg, s0) :=
    match s with String "-" r => (true, r) | _ => (false, s) end in
  let int_part :=
    match s0 with
    | String c r =>
        if Ascii.eqb c "0" then Some (0, r)
        else if isdigit c then
          let '(m, _, r') := read_digits 0 0 s0 in Some (m, r')
        else None
    | EmptyString => None
    end in
  match int_part with
  | None => None
  | Some (m1, s1) =>
      let '(m2, n2, s2) :=
        match s1 with
        | String "." r =>
            let '(m, n, r') := read_digits m1 0 r in
            if 0 <? n then (m, n, r') else (m1, 0, s1)
        | _ => (m1, 0, s1)
        end in
      let '(ev, has_exp, s3) :=
        match s2 with
        | String c r =>
            if Ascii.eqb c "e" || Ascii.eqb c "E" then
              let '(eneg, r1) := read_sign r in
              let '(v, n, r2) := read_digits 0 0 r1 in
              if 0 <? n then (if eneg then - v else v, true, r2) else (0, false, s2)
            else (0, false, s2)
        | EmptyString => (0, false, s2)
        end in
      if (0 <? n2) || has_exp then
        Some (VFloat (float_of_decimal neg m2 (ev - n2)), s3)
      else Some (VInt (if neg then - m1 else m1), s3)
  end.

Definition scan_constant (s : string) : option (value * string) :=
  match strip_prefix "null" s with
  | Some r => Some (VNone, r)
  | None =>
  match strip_prefix "true" s with
  | Some r => Some (VBool true, r)
  | None =>
  match strip_prefix "false" s with
  | Some r => Some (VBool false, r)
  | None =>
  match strip_prefix "NaN" s with
  | Some r => Some (VFloat nan, r)
  | None =>
  match strip_prefix "Infinity" s with
  | Some r => Some (VFloat infinity, r)
  | None =>
  match strip_prefix "-Infinity" s with
  | Some r => Some (VFloat neg_infinity, r)
  | None => scan_number s
  end end end end end end.

Definition of_option {A : Type} (e : exn) (o : option A) : result A :=
  match o with
  | Some a => Ok a
  | None => Raise e
  end.

(** [parse_int(integer)], which is [int]: it refuses a literal of more digits
    than the interpreter converts, 4300 unless it is told otherwise. *)
Definition parse_int (s : string) (z : Z) : result value :=
  let '(_, n, _) := read_digits 0 0 (match s with String "-" r => r | _ => s end) in
  if 4300 <? n then Raise ValueError else Ok (VInt z).

(** [scan_once] reads one value at the head of the text; [parse_object] and
    [parse_array] read the members that follow an opening brace or bracket.
    The recursion is bounded by [fuel]; [json_loads] gives more than twice
    the length of the text, which is never used up ([json_loads_fuel]).  The
    interpreter's own limit on the depth of nesting is not modelled. *)
Fixpoint scan_once (fuel : nat) (s : string) {struct fuel} : result (value * string) :=
  match fuel with
  | O => Raise RecursionError
  | S fuel' =>
      match s with
      | String c r =>
          if Ascii.eqb c quote then
            '(t, rest) <- of_option JSONDecodeError (scanstring r) ;; Ok (VStr t, rest)
          else if Ascii.eqb c "{" then
            match skip_ws r with
            | String "}" rest => Ok (VDict [], rest)
            | r' => parse_object fuel' [] r'
            end
          else if Ascii.eqb c "[" then
            match skip_ws r with
            | String "]" rest => Ok (VList [], rest)
            | r' => parse_array fuel' [] r'
            end
          else
            '(v, rest) <- of_option JSONDecodeError (scan_constant s) ;;
            match v with
            | VInt z => v' <- parse_int s z ;; Ok (v', rest)
            | _ => Ok (v, rest)
            end
      | EmptyString => Raise JSONDecodeError
      end
  end

with parse_object (fuel : nat) (acc : dict) (s : string) {struct fuel}
  : result (value * string) :=
  match fuel with
  | O => Raise RecursionError
  | S fuel' =>
      match s with
      | String c r =>
          if Ascii.eqb c quote then
            '(key, r1) <- of_option JSONDecodeError (scanstring r) ;;
            match skip_ws r1 with
            | String ":" r2 =>
                '(v, r3) <- scan_once fuel' (skip_ws r2) ;;
                let acc' := dict_set key v acc in
                match skip_ws r3 with
                | String "}" rest => Ok (VDict acc', rest)
                | String "," r4 => parse_object fuel' acc' (skip_ws r4)
                | _ => Raise JSONDecodeError
                end
            | _ => Raise JSONDecodeError
            end
          else Raise JSONDecodeError
      | EmptyString => Raise JSONDecodeError
      end
  end

with parse_array (fuel : nat) (acc : list value) (s : string) {struct fuel}
  : result (value * string) :=
  match fuel with
  | O => Raise RecursionError
  | S fuel' =>
      '(v, r1) <- scan_once fuel' s ;;
      match skip_ws r1 with
      | String "]" rest => Ok (VList (acc ++ [v])%list, rest)
      | String "," r2 => parse_array fuel' (acc ++ [v])%list (skip_ws r2)
      | _ => Raise JSONDecodeError
      end
  end.

(** [json.loads(s)] *)
Definition json_loads (s : string) : result value :=
  '(v, rest) <- scan_once (S (2 * String.length s)) (skip_ws s) ;;
  match skip_ws rest with
  | EmptyString => Ok v
  | _ => Raise JSONDecodeError
  end.

(** ** The script

    [rescale], then [process_dataset] up to and including the three [to_csv]
    calls.  What the script does after them (the samples it prints when
    [verbose] is set, the statistics it plots) reads the tables and changes
    nothing in them; it is not modelled, and it can still raise.  The input
    file is given by the lines that reading it yields; the progress bar of
    [tqdm] shows the loop and takes no part in it.  The file system is
    taken to permit what the script asks of it, except where the request
    itself cannot be met: an empty path, a text that UTF-8 cannot encode. *)

(** [rescale(x, a, b, c, d)]: only the division can raise. *)
Definition rescale (x a b c d : float) : result float :=
  q <- truediv (x - a) (b - a) ;;
  Ok (c + (d - c) * q)%float.

(** The parsed command line. *)
Record Args : Type := {
  dataset_file : string;
  output_base_dir : string;
  dataset_name : string;
  n_lines : Z;
  min_rating : float;
  max_rating : float;
  aspect_min_rating : float;
  aspect_max_rating : float;
  verbose : bool
}.

Definition columns : list (string * string) :=
  [ ("user_id", "beer/brewerId");
    ("user_name", "review/profileName");
    ("item_id", "beer/beerId");
    ("item_name", "beer/name");
    ("ABV", "beer/ABV");
    ("style", "beer/style");
    ("review", "review/text");
    ("timestamp", "review/time");
    ("rating", "review/overall");
    ("appearance", "review/appearance");
    ("aroma", "review/aroma");
    ("palate", "review/palate");
    ("taste", "review/taste") ].

(** [columns[k]] for the keys the script uses, all present. *)
Definition col (k : string) : string :=
  match dict_get k columns with
  | Some c => c
  | None => ""
  end.

Definition aspects : list string := ["appearance"; "aroma"; "palate"; "taste"].

(** What the script does to the file system, in order: the directory it
    creates, the tables it writes in full, and the file a failed [to_csv]
    has opened for writing and leaves with part of its table at most. *)
Inductive effect : Type :=
| Makedirs (path : string)
| ToCsv (path : string) (table : list dict)
| Partial (path : string).

(** [os.makedirs(path, exist_ok=True)]: there is no directory of the empty
    name. *)
Definition makedirs (path : string) : result unit :=
  if String.eqb path "" then Raise FileNotFoundError else Ok tt.

(** A text UTF-8 can encode: it holds no surrogate, whose three bytes would
    be 237 and then a byte from 160 up. *)
Fixpoint encodable (s : string) : bool :=
  match s with
  | String a r =>
      match r with
      | String b _ => negb ((code a =? 237)%N && (160 <=? code b)%N) && encodable r
      | EmptyString => true
      end
  | EmptyString => true
  end.

(** A cell the CSV writer can write: a [str] is written as it is, any other
    value through its [str()], which escapes what it cannot print. *)
Definition cell_ok (v : value) : bool :=
  match v with
  | VStr s => encodable s
  | _ => true
  end.

Definition table_ok (table : list dict) : bool :=
  forallb (fun row : dict => forallb (fun kv => cell_ok (snd kv)) row) table.

(** [pd.DataFrame(table).to_csv(path)]: the cells are written in UTF-8, and
    the call is taken to fail only when a text cell cannot be encoded. *)
Definition to_csv (path : string) (table : list dict) : result unit :=
  if table_ok table then Ok tt else Raise UnicodeEncodeError.

(** The three lists the loop appends to. *)
Record tables : Type := {
  data : list dict;
  users : list dict;
  items : list dict
}.

(** [os.path.join(a, b)] on POSIX *)
Definition join (a b : string) : string :=
  match b with
  | String "/" _ => b
  | _ =>
      match string_rev a with
      | EmptyString => b
      | String "/" _ => a ++ b
      | _ => a ++ "/" ++ b
      end
  end.

Definition decimal (z : Z) : string := NilZero.string_of_int (Z.to_int z).

Section Script.

(** What an f-string prints for a float or a container ([repr]).  The script
    only passes it on; nothing below depends on what it prints. *)
Variable repr : value -> string.

(** [f'{v}'] *)
Definition format (v : value) : string :=
  match v with
  | VStr s => s
  | VNone => "None"
  | VBool true => "True"
  | VBool false => "False"
  | VInt z => decimal z
  | _ => repr v
  end.

(** [rescale(float(row[key].split("/")[0]), 0,
            float(row[key].split("/")[1]), lo, hi)],
    the arguments evaluated from left to right. *)
Definition rescaled (row : value) (key : string) (lo hi : float) : result float :=
  v0 <- getitem row key ;;
  parts0 <- str_split v0 "/" ;;
  p0 <- index parts0 0 ;;
  x <- float_ p0 ;;
  v1 <- getitem row key ;;
  parts1 <- str_split v1 "/" ;;
  p1 <- index parts1 1 ;;
  b <- float_ p1 ;;
  rescale x 0 b lo hi.

(** [for aspect in aspects: sample[aspect] = rescale(...)] *)
Fixpoint set_aspects (args : Args) (row : value) (l : list string) (sample : dict)
  : result dict :=
  match l with
  | [] => Ok sample
  | aspect :: l' =>
      r <- rescaled row (col aspect) (aspect_min_rating args) (aspect_max_rating args) ;;
      set_aspects args row l' (dict_set aspect (VFloat r) sample)
  end.

(** One turn of the loop over the lines of the file. *)
Definition process_line (args : Args) (line : string) (t : tables) : result tables :=
  row <- json_loads (strip line) ;;
  if negb (truthy row) then Ok t
  else
    user_id <- getitem row (col "user_id") ;;
    user_name <- getitem row (col "user_name") ;;
    let users' :=
      (users t ++ [[("user_id", user_id); ("user_name", user_name)]])%list in
    item_id <- getitem row (col "item_id") ;;
    name <- getitem row (col "item_name") ;;
    style <- getitem row (col "style") ;;
    abv <- getitem row (col "ABV") ;;
    name' <- getitem row (col "item_name") ;;
    style' <- getitem row (col "style") ;;
    abv' <- getitem row (col "ABV") ;;
    let description :=
      (format name' ++ " ; ") ++ ("Style: " ++ format style' ++ " ")
      ++ ("ABV: " ++ format abv') in
    let items' :=
      (items t ++ [[("item_id", item_id); ("name", name); ("style", style);
                    ("abv", abv); ("description", VStr description)]])%list in
    user_id' <- getitem row (col "user_id") ;;
    item_id' <- getitem row (col "item_id") ;;
    timestamp <- getitem row (col "timestamp") ;;
    review <- getitem row (col "review") ;;
    let sample := [("user_id", user_id'); ("item_id", item_id');
                   ("timestamp", timestamp); ("review", review)] in
    r <- rescaled row (col "rating") (min_rating args) (max_rating args) ;;
    let sample := dict_set "rating" (VFloat r) sample in
    sample <- set_aspects args row aspects sample ;;
    Ok {| data := (data t ++ [sample])%list; users := users'; items := items' |}.

(** [for line in fp: ...] *)
Fixpoint loop (args : Args) (fp : list string) (t : tables) : result tables :=
  match fp with
  | [] => Ok t
  | line :: fp' => t' <- process_line args line t ;; loop args fp' t'
  end.

(** [process_dataset(args)] on a file whose lines are [fp], up to its third
    [to_csv]: the effects on the file system, and either the exception that
    ends the run or the tables with which the script goes on. *)
Definition process_dataset (args : Args) (fp : list string)
  : list effect * result tables :=
  let output_dir := join (output_base_dir args) (dataset_name args) in
  let data_df_path := join output_dir "data.csv" in
  let users_df_path := join output_dir "users.csv" in
  let items_df_path := join output_dir "items.csv" in
  match makedirs output_dir with
  | Raise e => ([], Raise e)
  | Ok _ =>
  match loop args fp {| data := []; users := []; items := [] |} with
  | Raise e => ([Makedirs output_dir], Raise e)
  | Ok t =>
  match to_csv data_df_path (data t) with
  | Raise e => ([Makedirs output_dir; Partial data_df_path], Raise e)
  | Ok _ =>
  match to_csv users_df_path (users t) with
  | Raise e =>
      ([Makedirs output_dir; ToCsv data_df_path (data t); Partial users_df_path],
       Raise e)
  | Ok _ =>
  match to_csv items_df_path (items t) with
  | Raise e =>
      ([Makedirs output_dir; ToCsv data_df_path (data t);
        ToCsv users_df_path (users t); Partial items_df_path],
       Raise e)
  | Ok _ =>
      ([Makedirs output_dir;
        ToCsv data_df_path (data t);
        ToCsv users_df_path (users t);
        ToCsv items_df_path (items t)],
       Ok t)
  end end end end end.

End Script.

(** ** Vocabulary of the properties *)

(** A rating string the rescaling step accepts: a numerator and a denominator
    around the first ["/"], both read by [float], the denominator not zero.
    Further ["/"]-separated parts are not looked at. *)
Definition well_formed (s : string) : Prop :=
  exists p0 p1 rest x b,
    split s "/" = p0 :: p1 :: rest /\
    float_of_string p0 = Some x /\
    float_of_string p1 = Some b /\
    PrimFloat.eqb b 0%float = false.

(** The specification's formula, on binary64. *)
Definition formula (value source_min source_max target_min target_max : float) : float :=
  (target_min
   + (target_max - target_min) * ((value - source_min) / (source_max - source_min)))%float.

(** The rows the loop keeps: the decoded lines that are not falsy. *)
Definition rows_of (fp : list string) : list value :=
  flat_map
    (fun line =>
       match json_loads (strip line) with
       | Ok row => if truthy row then [row] else []
       | Raise _ => []
       end)
    fp.

(** A line the specification calls empty: nothing is left after trimming, or
    it decodes to an empty (falsy) structure. *)
Definition empty_line (line : string) : bool :=
  String.eqb (strip line) ""
  || match json_loads (strip line) with
     | Ok row => negb (truthy row)
     | Raise _ => false
     end.

Definition non_empty_lines (fp : list string) : nat :=
  List.length (filter (fun line => negb (empty_line line)) fp).

Definition rating_columns : list string :=
  ["rating"; "appearance"; "aroma"; "palate"; "taste"].

(** The target interval of a canonical rating column. *)
Definition target (args : Args) (k : string) : float * float :=
  if String.eqb k "rating" then (min_rating args, max_rating args)
  else (aspect_min_rating args, aspect_max_rating args).

(** The three fatal conditions of a line, as the specification names them.
    [ParseError]: the trimmed line does not decode. *)
Definition parse_error (line : string) : Prop :=
  raises (json_loads (strip line)).

(** [MissingFieldError]: the line decodes to a non-empty object that lacks
    one of the thirteen source fields. *)
Definition missing_field (line : string) : Prop :=
  exists d k,
    json_loads (strip line) = Ok (VDict d) /\ d <> [] /\
    In k (map snd columns) /\ dict_get k d = None.

(** [FormatError]: one of the five rating fields is a string that the
    rescaling step does not accept. *)
Definition format_error (line : string) : Prop :=
  exists row k s,
    json_loads (strip line) = Ok row /\ In k rating_columns /\
    getitem row (col k) = Ok (VStr s) /\ ~ well_formed s.

Definition is_to_csv (e : effect) : bool :=
  match e with
  | ToCsv _ _ | Partial _ => true
  | Makedirs _ => false
  end.

Definition no_table_written (effs : list effect) : Prop :=
  filter is_to_csv effs = [].

Definition init : tables := {| data := []; users := []; items := [] |}.

(** The command line's defaults, with placeholder paths. *)
Definition default_args : Args :=
  {| dataset_file := "ratebeer.json";
     output_base_dir := "out";
     dataset_name := "RateBeer";
     n_lines := 0;
     min_rating := 1;
     max_rating := 5;
     aspect_min_rating := 1;
     aspect_max_rating := 5;
     verbose := true |}.

(** The defaults with the given bounds for the rating and for the aspects. *)
Definition with_bounds (lo hi : float) : Args :=
  {| dataset_file := dataset_file default_args;
     output_base_dir := output_base_dir default_args;
     dataset_name := dataset_name default_args;
     n_lines := n_lines default_args;
     min_rating := lo;
     max_rating := hi;
     aspect_min_rating := lo;
     aspect_max_rating := hi;
     verbose := verbose default_args |}.

(** A line of the input file: a JSON object with the given string fields. *)
Fixpoint json_fields (l : list (string * string)) : string :=
  match l with
  | [] => ""
  | (k, v) :: l' =>
      String quote (k ++ String quote (": " ++ String quote (v ++ String quote
        match l' with
        | [] => ""
        | _ => ", " ++ json_fields l'
        end)))
  end.

Definition json_line (l : list (string * string)) : string :=
  "{" ++ json_fields l ++ "}" ++ chr 10.

(** A review with the given overall rating string. *)
Definition review_line (overall : string) : string :=
  json_line
    [ ("beer/brewerId", "b1"); ("review/profileName", "ann");
      ("beer/beerId", "7"); ("beer/name", "Lager X"); ("beer/ABV", "5.0");
      ("beer/style", "Pale"); ("review/text", "good"); ("review/time", "123");
      ("review/overall", overall); ("review/appearance", "3/5");
      ("review/aroma", "6/10"); ("review/palate", "2/5");
      ("review/taste", "7/10") ].

(** A review whose profile name is the escape of a lone surrogate. *)
Definition surrogate_line : string :=
  json_line
    [ ("beer/brewerId", "b1"); ("review/profileName", "\ud800");
      ("beer/beerId", "7"); ("beer/name", "Lager X"); ("beer/ABV", "5.0");
      ("beer/style", "Pale"); ("review/text", "good"); ("review/time", "123");
      ("review/overall", "4/5"); ("review/appearance", "3/5");
      ("review/aroma", "6/10"); ("review/palate", "2/5");
      ("review/taste", "7/10") ].

(** A printer for the examples, whose fields are all strings. *)
Definition repr_none : value -> string := fun _ => "".

Section Vocabulary.

Variable repr : value -> string.

(** [u], [i] and [s] are the user, item and interaction rows the loop builds
    from the decoded line [row]. *)
Definition built_from (args : Args) (row : value) (u i s : dict) : Prop :=
  exists user_id user_name item_id name style abv timestamp review r a1 a2 a3 a4,
    getitem row (col "user_id") = Ok user_id /\
    getitem row (col "user_name") = Ok user_name /\
    getitem row (col "item_id") = Ok item_id /\
    getitem row (col "item_name") = Ok name /\
    getitem row (col "style") = Ok style /\
    getitem row (col "ABV") = Ok abv /\
    getitem row (col "timestamp") = Ok timestamp /\
    getitem row (col "review") = Ok review /\
    rescaled row (col "rating") (min_rating args) (max_rating args) = Ok r /\
    rescaled row (col "appearance") (aspect_min_rating args) (aspect_max_rating args) = Ok a1 /\
    rescaled row (col "aroma") (aspect_min_rating args) (aspect_max_rating args) = Ok a2 /\
    rescaled row (col "palate") (aspect_min_rating args) (aspect_max_rating args) = Ok a3 /\
    rescaled row (col "taste") (aspect_min_rating args) (aspect_max_rating args) = Ok a4 /\
    u = [("user_id", user_id); ("user_name", user_name)] /\
    i = [("item_id", item_id); ("name", name); ("style", style); ("abv", abv);
         ("description",
          VStr (format repr name ++ " ; Style: " ++ format repr style
                ++ " ABV: " ++ format repr abv))] /\
    s = [("user_id", user_id); ("item_id", item_id); ("timestamp", timestamp);
         ("review", review); ("rating", VFloat r); ("appearance", VFloat a1);
         ("aroma", VFloat a2); ("palate", VFloat a3); ("taste", VFloat a4)].

(** Row by row, the three tables come from the same kept lines. *)
Inductive aligned (args : Args) : list value -> list dict -> list dict -> list dict -> Prop :=
| aligned_nil : aligned args [] [] [] []
| aligned_cons row rows s ds u us i is_ :
    built_from args row u i s ->
    aligned args rows ds us is_ ->
    aligned args (row :: rows) (s :: ds) (u :: us) (i :: is_).

End Vocabulary.

(** The file of the examples: two reviews around a line that holds an empty
    object. *)
Definition example_file : list string :=
  [review_line "4/5"; "{}" ++ chr 10; review_line "3/5"].

Definition example_run : list effect * result tables :=
  Eval vm_compute in process_dataset repr_none default_args example_file.

Definition example_tables : tables :=
  match snd example_run with
  | Ok t => t
  | Raise _ => init
  end.

(** ** Further vocabulary of the data script *)

(** The tables of one part of a file followed by those of the next. *)
Definition tables_app (t1 t2 : tables) : tables :=
  {| data := (data t1 ++ data t2)%list;
     users := (users t1 ++ users t2)%list;
     items := (items t1 ++ items t2)%list |}.

(** The source fields that are copied as they are. *)
Definition plain_fields : list string :=
  map col ["user_id"; "user_name"; "item_id"; "item_name"; "style"; "ABV";
           "timestamp"; "review"].

(** Only white space: characters [str.isspace] holds of, one, two or three
    bytes long. *)
Fixpoint blank (s : string) : bool :=
  match s with
  | String a r1 =>
      if isspace a then blank r1
      else
        match r1 with
        | String b r2 =>
            if space2 a b then blank r2
            else
              match r2 with
              | String c r3 => space3 a b c && blank r3
              | EmptyString => false
              end
        | EmptyString => false
        end
  | EmptyString => true
  end.

(** A byte a white space character can begin with. *)
Definition starter (c : ascii) : bool :=
  isspace c || (code c =? 194)%N || in_range 225 227 c.

(** No-break space, U+00A0, and ideographic space, U+3000. *)
Definition nbsp : string := utf8 160.
Definition ideographic_space : string := utf8 12288.

(** Every text cell of the three tables can be written. *)
Definition writable (t : tables) : bool :=
  table_ok (data t) && table_ok (users t) && table_ok (items t).

(** The file or directory an effect is on. *)
Definition effect_path (e : effect) : string :=
  match e with
  | Makedirs p | ToCsv p _ | Partial p => p
  end.

(** Two runs end alike: with the same exception, or with related results. *)
Definition same_outcome {A : Type} (R : A -> A -> Prop) (r1 r2 : result A) : Prop :=
  match r1, r2 with
  | Ok a1, Ok a2 => R a1 a2
  | Raise e1, Raise e2 => e1 = e2
  | _, _ => False
  end.

(** Two interaction rows with the same columns, in the same order, that
    differ at most in the five rating columns, which hold floats. *)
Definition agree_off_ratings (s1 s2 : dict) : Prop :=
  Forall2 (fun kv1 kv2 : string * value =>
             fst kv1 = fst kv2 /\
             (In (fst kv1) rating_columns ->
              exists x1 x2, snd kv1 = VFloat x1 /\ snd kv2 = VFloat x2) /\
             (~ In (fst kv1) rating_columns -> snd kv1 = snd kv2))
    s1 s2.

Definition same_but_ratings (t1 t2 : tables) : Prop :=
  users t1 = users t2 /\ items t1 = items t2 /\
  Forall2 agree_off_ratings (data t1) (data t2).

(** A decoded line the loop makes rows of: an object that has the eight fields
    copied as they are, and whose five rating fields are strings the rescaling
    step accepts. *)
Definition acceptable (row : value) : Prop :=
  exists d,
    row = VDict d /\
    (forall k, In k plain_fields -> dict_get k d <> None) /\
    (forall k, In k rating_columns ->
       exists s, dict_get (col k) d = Some (VStr s) /\ well_formed s).

(** A line the run gets past: it decodes, to a falsy value or to an acceptable
    row. *)
Definition passable (line : string) : Prop :=
  exists row, json_loads (strip line) = Ok row /\ (truthy row = false \/ acceptable row).

(** ** The prompting script

    [llms_baseline/prompting.py]: the choice of the model class, what the
    GPT-2 wrapper returns for a batch, the loop of [prompting] and the paths
    [main] derives from the command line.  The language models, the data
    loader, [TargetFormer.get_review_rating] and [evaluate_fn] are parameters:
    they are called, in the order of the script, and what they return is
    passed on.  A data loader is the list of its batches; [print] and the
    writes to the log file are taken to succeed; paths are POSIX paths. *)

Module Prompting.

(** The fields of the parsed command line that the script reads, and the two
    paths [main] adds to it. *)
Record Args : Type := {
  base_dir : string;
  dataset_name : string;
  dataset_dir : string;
  dataset_path : string;
  users_path : string;
  items_path : string;
  verbose : bool;
  exp_name : string;
  batch_size : Z;
  evaluate_every : Z;
  sampling_method : Z;
  n_reviews : Z;
  n_samples : Z;
  user_description_flag : bool;
  item_description_flag : bool;
  target_review_flag : bool;
  target_rating_flag : bool;
  max_source_length : Z;
  max_target_length : Z;
  model_name_or_path : string;
  tokenizer_name_or_path : string;
  log_file_path : string;
  res_file_path : string
}.

(** What the script prints and writes, in order. *)
Inductive io : Type :=
| Print (text : string)
| Append (path : string) (text : string).

(** A computation that prints and writes and may raise: what it emitted, and
    how it ended. *)
Definition io_result (A : Type) : Type := (list io * result A)%type.

Definition io_ret {A : Type} (a : A) : io_result A := ([], Ok a).

Definition io_bind {A B : Type} (m : io_result A) (k : A -> io_result B) : io_result B :=
  match m with
  | (out, Ok a) => let '(out', r) := k a in ((out ++ out')%list, r)
  | (out, Raise e) => (out, Raise e)
  end.

Definition lift {A : Type} (r : result A) : io_result A := ([], r).

Definition emit (e : io) : io_result unit := ([e], Ok tt).

Notation "x <~ m ;; k" := (io_bind m (fun x => k))
  (at level 61, m at next level, right associativity).

(** A batch of the data loader: named columns. *)
Definition batch (V : Type) : Type := list (string * list V).

(** [batch[k]] *)
Definition batch_get {V : Type} (b : batch V) (k : string) : result (list V) :=
  match dict_get k b with
  | Some l => Ok l
  | None => Raise KeyError
  end.

Definition nl : string := chr 10.

(** [s * n] *)
Fixpoint times (n : nat) (s : string) : string :=
  match n with
  | O => ""
  | S n' => s ++ times n' s
  end.

(** [p in s] *)
Fixpoint startswith (p s : string) : bool :=
  match p, s with
  | EmptyString, _ => true
  | String a p', String b s' => Ascii.eqb a b && startswith p' s'
  | String _ _, EmptyString => false
  end.

Fixpoint str_in (p s : string) : bool :=
  startswith p s ||
  match s with
  | EmptyString => false
  | String _ s' => str_in p s'
  end.

(** [s.replace(old, new)] for one-character [old] and [new] *)
Fixpoint replace (old new : ascii) (s : string) : string :=
  match s with
  | EmptyString => EmptyString
  | String c s' => String (if Ascii.eqb c old then new else c) (replace old new s')
  end.

(** *** [get_prompt_model] *)

Inductive prompt_model_class : Type := GPT2PromptModel | T5PromptModel.

(** The wrapper [get_prompt_model] builds: its class, and the names its model
    and its tokenizer are loaded from. *)
Record prompt_model : Type := {
  class : prompt_model_class;
  model_from : string;
  tokenizer_from : string
}.

Definition get_prompt_model (args : Args) : option prompt_model :=
  if str_in "gpt2" (model_name_or_path args) then
    Some {| class := GPT2PromptModel;
            model_from := model_name_or_path args;
            tokenizer_from := tokenizer_name_or_path args |}
  else if str_in "t5" (model_name_or_path args) then
    Some {| class := T5PromptModel;
            model_from := model_name_or_path args;
            tokenizer_from := tokenizer_name_or_path args |}
  else None.

(** *** [GPT2PromptModel.process_batch] *)

Section GPT2.

(** Texts are sequences of code points. *)
Variable C : Type.

(** The generated token sequences, and the tokenizer and the model together:
    from the prompts, [max_length] and [max_new_tokens] to one sequence per
    prompt. *)
Variable ids : Type.
Variable generate : list (list C) -> Z -> Z -> list ids.
Variable decode : ids -> list C.

(** [for i, out in enumerate(output_ids): ...] *)
Fixpoint strip_prompts (source_text : list (list C)) (i : nat) (output_ids : list ids)
  : result (list (list C)) :=
  match output_ids with
  | [] => Ok []
  | out :: rest =>
      let output := decode out in
      source <- index source_text i ;;
      let output := skipn (List.length source) output in
      outputs <- strip_prompts source_text (S i) rest ;;
      Ok (output :: outputs)
  end.

Definition GPT2_process_batch (args : Args) (b : batch (list C)) : result (list (list C)) :=
  source_text <- batch_get b "source_text" ;;
  let output_ids :=
    generate source_text (max_source_length args + max_target_length args)
      (max_target_length args) in
  strip_prompts source_text 0 output_ids.

End GPT2.

(** *** [prompting] *)

Section Loop.

(** What the columns of a batch hold and what the model returns. *)
Variable V : Type.
Variable Scores : Type.

(** [f'{v}'] and [str(scores)] *)
Variable str_ : V -> string.
Variable str_scores : Scores -> string.

Variable get_review_rating : V -> result (V * V).
Variable evaluate_fn : list V -> list V -> list V -> list V -> Args -> result Scores.

(** The four lists the loop extends. *)
Record lists : Type := {
  reviews_predictions : list V;
  reviews_references : list V;
  ratings_predictions : list V;
  ratings_references : list V
}.

(** The text one example adds to the log. *)
Definition example_entry (b : batch V) (outputs : list V) (i : nat) : result string :=
  sources <- batch_get b "source_text" ;;
  source <- index sources i ;;
  targets <- batch_get b "target_text" ;;
  target <- index targets i ;;
  output <- index outputs i ;;
  Ok ((nl ++ "Input: " ++ str_ source ++ nl ++ nl)
      ++ ("Target: " ++ str_ target ++ nl ++ nl)
      ++ ("Output: " ++ str_ output ++ nl ++ nl)
      ++ (times 80 "=" ++ nl ++ nl)).

(** [for i in range(len(outputs)): log += ...] *)
Fixpoint examples (b : batch V) (outputs : list V) (range : list nat) (log : string)
  : result string :=
  match range with
  | [] => Ok log
  | i :: range' =>
      entry <- example_entry b outputs i ;;
      examples b outputs range' (log ++ entry)
  end.

(** The value of [i] after [for i in range(len(outputs))]: the loop rebinds the
    index of the batch. *)
Definition after_range (i : Z) (outputs : list V) : Z :=
  match outputs with
  | [] => i
  | _ => Z.of_nat (List.length outputs) - 1
  end.

(** [if args.verbose and i == 0: ...], returning the value [i] has afterwards. *)
Definition log_examples (args : Args) (i : Z) (b : batch V) (outputs : list V)
  : io_result Z :=
  if verbose args && (i =? 0) then
    log <~ lift (examples b outputs (seq 0 (List.length outputs))
                   (nl ++ nl ++ "Examples:" ++ nl)) ;;
    _ <~ emit (Print log) ;;
    _ <~ emit (Append (log_file_path args) log) ;;
    io_ret (after_range i outputs)
  else io_ret i.

(** [for output in outputs: review, rating = TargetFormer.get_review_rating(output); ...] *)
Fixpoint review_ratings (outputs : list V) : result (list V * list V) :=
  match outputs with
  | [] => Ok ([], [])
  | output :: rest =>
      '(review, rating) <- get_review_rating output ;;
      '(reviews, ratings) <- review_ratings rest ;;
      Ok (review :: reviews, rating :: ratings)
  end.

(** The [if]/[elif] on the two target flags. *)
Definition accumulate (args : Args) (b : batch V) (outputs : list V) (st : lists)
  : result lists :=
  if target_review_flag args && target_rating_flag args then
    '(outputs_reviews, outputs_ratings) <- review_ratings outputs ;;
    reviews <- batch_get b "review" ;;
    ratings <- batch_get b "rating" ;;
    Ok {| reviews_predictions := (reviews_predictions st ++ outputs_reviews)%list;
          reviews_references := (reviews_references st ++ reviews)%list;
          ratings_predictions := (ratings_predictions st ++ outputs_ratings)%list;
          ratings_references := (ratings_references st ++ ratings)%list |}
  else if target_review_flag args then
    reviews <- batch_get b "review" ;;
    Ok {| reviews_predictions := (reviews_predictions st ++ outputs)%list;
          reviews_references := (reviews_references st ++ reviews)%list;
          ratings_predictions := ratings_predictions st;
          ratings_references := ratings_references st |}
  else if target_rating_flag args then
    ratings <- batch_get b "rating" ;;
    Ok {| reviews_predictions := reviews_predictions st;
          reviews_references := reviews_references st;
          ratings_predictions := (ratings_predictions st ++ outputs)%list;
          ratings_references := (ratings_references st ++ ratings)%list |}
  else Ok st.

(** [if args.verbose and i % args.evaluate_every == 0: ...] *)
Definition periodic (args : Args) (i : Z) (st : lists) : io_result unit :=
  if verbose args then
    if evaluate_every args =? 0 then lift (Raise ZeroDivisionError)
    else if i mod evaluate_every args =? 0 then
      scores <~ lift (evaluate_fn (reviews_predictions st) (reviews_references st)
                        (ratings_predictions st) (ratings_references st) args) ;;
      emit (Append (log_file_path args)
              (nl ++ nl ++ decimal (batch_size args * i) ++ " samples:" ++ nl
               ++ str_scores scores))
    else io_ret tt
  else io_ret tt.

(** One turn of [for i, batch in enumerate(dataloader)]. *)
Definition turn (process_batch : batch V -> result (list V)) (args : Args)
    (i : Z) (b : batch V) (st : lists) : io_result lists :=
  outputs <~ lift (process_batch b) ;;
  i' <~ log_examples args i b outputs ;;
  st' <~ lift (accumulate args b outputs st) ;;
  _ <~ periodic args i' st' ;;
  io_ret st'.

Fixpoint turns (process_batch : batch V -> result (list V)) (args : Args)
    (i : Z) (dataloader : list (batch V)) (st : lists) : io_result lists :=
  match dataloader with
  | [] => io_ret st
  | b :: rest =>
      st' <~ turn process_batch args i b st ;;
      turns process_batch args (i + 1) rest st'
  end.

(** [prompting(prompt_model, dataloader, device, args)] *)
Definition prompting (process_batch : batch V -> result (list V))
    (dataloader : list (batch V)) (args : Args) : io_result Scores :=
  st <~ turns process_batch args 0 dataloader
          {| reviews_predictions := []; reviews_references := [];
             ratings_predictions := []; ratings_references := [] |} ;;
  scores <~ lift (evaluate_fn (reviews_predictions st) (reviews_references st)
                    (ratings_predictions st) (ratings_references st) args) ;;
  _ <~ (if verbose args
        then emit (Append (log_file_path args) (nl ++ nl ++ "Results: " ++ str_scores scores))
        else io_ret tt) ;;
  io_ret scores.

End Loop.

(** *** The paths of [main] *)

(** The name [main] gives an experiment that has none; [now] is
    [int(time.time())]. *)
Definition default_exp_name (args : Args) (now : Z) : string :=
  (model_name_or_path args ++ "_prompting_")
  ++ (decimal (n_samples args) ++ "_shot_" ++ decimal (n_reviews args) ++ "_reviews_")
  ++ (decimal (sampling_method args) ++ "_sampling_" ++ decimal now).

(** The command line after the assignments [main] makes to it. *)
Definition main_args (now : Z) (args : Args) : Args :=
  let dataset_dir' :=
    if String.eqb (dataset_dir args) "" then join (base_dir args) (dataset_name args)
    else dataset_dir args in
  let dataset_path' :=
    if String.eqb (dataset_path args) "" then join dataset_dir' "data.csv"
    else dataset_path args in
  let users_path' :=
    if user_description_flag args && String.eqb (users_path args) ""
    then join dataset_dir' "users.csv" else users_path args in
  let items_path' :=
    if item_description_flag args && String.eqb (items_path args) ""
    then join dataset_dir' "items.csv" else items_path args in
  let exp_name0 :=
    if String.eqb (exp_name args) "" then default_exp_name args now else exp_name args in
  let exp_name' := replace "/" "_" (replace " " "_" exp_name0) in
  let exps_base_dir := join dataset_dir' "exps" in
  let exp_dir := join exps_base_dir exp_name' in
  {| base_dir := base_dir args;
     dataset_name := dataset_name args;
     dataset_dir := dataset_dir';
     dataset_path := dataset_path';
     users_path := users_path';
     items_path := items_path';
     verbose := verbose args;
     exp_name := exp_name';
     batch_size := batch_size args;
     evaluate_every := evaluate_every args;
     sampling_method := sampling_method args;
     n_reviews := n_reviews args;
     n_samples := n_samples args;
     user_description_flag := user_description_flag args;
     item_description_flag := item_description_flag args;
     target_review_flag := target_review_flag args;
     target_rating_flag := target_rating_flag args;
     max_source_length := max_source_length args;
     max_target_length := max_target_length args;
     model_name_or_path := model_name_or_path args;
     tokenizer_name_or_path := tokenizer_name_or_path args;
     log_file_path := join exp_dir "log.txt";
     res_file_path := join exp_dir "res.json" |}.

(** The defaults of the command line; the two paths of [main] are not set. *)
Definition default_args : Args :=
  {| base_dir := "";
     dataset_name := "";
     dataset_dir := "";
     dataset_path := "";
     users_path := "";
     items_path := "";
     verbose := true;
     exp_name := "";
     batch_size := 16;
     evaluate_every := 10;
     sampling_method := 0;
     n_reviews := 4;
     n_samples := 0;
     user_description_flag := false;
     item_description_flag := true;
     target_review_flag := true;
     target_rating_flag := false;
     max_source_length := 1024;
     max_target_length := 128;
     model_name_or_path := "google/flan-t5-base";
     tokenizer_name_or_path := "google/flan-t5-base";
     log_file_path := "";
     res_file_path := "" |}.

End Prompting.

(** ** Vocabulary of the prompting script *)

(** [p] occurs in [s]. *)
Definition occurs_in (p s : string) : Prop := exists pre post, s = pre ++ p ++ post.

(** The column [k] of all the batches, one after the other. *)
Definition column {V : Type} (k : string) (dataloader : list (Prompting.batch V)) : list V :=
  flat_map (fun b => match dict_get k b with Some l => l | None => [] end) dataloader.

(** A model for the examples: it repeats each prompt and adds two code
    points. *)
Definition echo_model (prompts : list (list nat)) (max_length max_new_tokens : Z)
  : list (list nat) :=
  map (fun p => (p ++ [7; 8])%list%nat) prompts.

Section LoopVocabulary.

Variable V : Type.
Variable get_review_rating : V -> result (V * V).

(** What a completed loop has put in the four lists, by the two target flags;
    [outs] are the outputs of the model for the batches, in order. *)
Definition collected (args : Prompting.Args) (dataloader : list (Prompting.batch V))
    (outs : list (list V)) (rp rr tp tr : list V) : Prop :=
  if Prompting.target_review_flag args && Prompting.target_rating_flag args then
    exists pairs,
      Forall2 (fun o p => get_review_rating o = Ok p) (List.concat outs) pairs /\
      rp = map fst pairs /\ rr = column "review" dataloader /\
      tp = map snd pairs /\ tr = column "rating" dataloader
  else if Prompting.target_review_flag args then
    rp = List.concat outs /\ rr = column "review" dataloader /\ tp = [] /\ tr = []
  else if Prompting.target_rating_flag args then
    rp = [] /\ rr = [] /\ tp = List.concat outs /\ tr = column "rating" dataloader
  else rp = [] /\ rr = [] /\ tp = [] /\ tr = [].

End LoopVocabulary.

(** The defaults with the given verbosity, period and target flags, and a log
    file. *)
Definition with_options (verbose : bool) (evaluate_every : Z) (review rating : bool)
  : Prompting.Args :=
  {| Prompting.base_dir := Prompting.base_dir Prompting.default_args;
     Prompting.dataset_name := Prompting.dataset_name Prompting.default_args;
     Prompting.dataset_dir := Prompting.dataset_dir Prompting.default_args;
     Prompting.dataset_path := Prompting.dataset_path Prompting.default_args;
     Prompting.users_path := Prompting.users_path Prompting.default_args;
     Prompting.items_path := Prompting.items_path Prompting.default_args;
     Prompting.verbose := verbose;
     Prompting.exp_name := Prompting.exp_name Prompting.default_args;
     Prompting.batch_size := Prompting.batch_size Prompting.default_args;
     Prompting.evaluate_every := evaluate_every;
     Prompting.sampling_method := Prompting.sampling_method Prompting.default_args;
     Prompting.n_reviews := Prompting.n_reviews Prompting.default_args;
     Prompting.n_samples := Prompting.n_samples Prompting.default_args;
     Prompting.user_description_flag :=
       Prompting.user_description_flag Prompting.default_args;
     Prompting.item_description_flag :=
       Prompting.item_description_flag Prompting.default_args;
     Prompting.target_review_flag := review;
     Prompting.target_rating_flag := rating;
     Prompting.max_source_length := Prompting.max_source_length Prompting.default_args;
     Prompting.max_target_length := Prompting.max_target_length Prompting.default_args;
     Prompting.model_name_or_path := Prompting.model_name_or_path Prompting.default_args;
     Prompting.tokenizer_name_or_path :=
       Prompting.tokenizer_name_or_path Prompting.default_args;
     Prompting.log_file_path := "log.txt";
     Prompting.res_file_path := "res.json" |}.

(** The defaults for the dataset [dataset_name] under [base_dir]. *)
Definition with_dataset (base_dir dataset_name : string) : Prompting.Args :=
  {| Prompting.base_dir := base_dir;
     Prompting.dataset_name := dataset_name;
     Prompting.dataset_dir := Prompting.dataset_dir Prompting.default_args;
     Prompting.dataset_path := Prompting.dataset_path Prompting.default_args;
     Prompting.users_path := Prompting.users_path Prompting.default_args;
     Prompting.items_path := Prompting.items_path Prompting.default_args;
     Prompting.verbose := Prompting.verbose Prompting.default_args;
     Prompting.exp_name := Prompting.exp_name Prompting.default_args;
     Prompting.batch_size := Prompting.batch_size Prompting.default_args;
     Prompting.evaluate_every := Prompting.evaluate_every Prompting.default_args;
     Prompting.sampling_method := Prompting.sampling_method Prompting.default_args;
     Prompting.n_reviews := Prompting.n_reviews Prompting.default_args;
     Prompting.n_samples := Prompting.n_samples Prompting.default_args;
     Prompting.user_description_flag :=
       Prompting.user_description_flag Prompting.default_args;
     Prompting.item_description_flag :=
       Prompting.item_description_flag Prompting.default_args;
     Prompting.target_review_flag := Prompting.target_review_flag Prompting.default_args;
     Prompting.target_rating_flag := Prompting.target_rating_flag Prompting.default_args;
     Prompting.max_source_length := Prompting.max_source_length Prompting.default_args;
     Prompting.max_target_length := Prompting.max_target_length Prompting.default_args;
     Prompting.model_name_or_path := Prompting.model_name_or_path Prompting.default_args;
     Prompting.tokenizer_name_or_path :=
       Prompting.tokenizer_name_or_path Prompting.default_args;
     Prompting.log_file_path := Prompting.log_file_path Prompting.default_args;
     Prompting.res_file_path := Prompting.res_file_path Prompting.default_args |}.

(** A batch of two examples, a model that answers each prompt with a fixed
    text, and stand-ins for the two helpers. *)
Definition example_batch : Prompting.batch string :=
  [("source_text", ["p1"; "p2"]); ("target_text", ["t1"; "t2"]);
   ("review", ["r1"; "r2"]); ("rating", ["4"; "5"])].

Definition example_process_batch (b : Prompting.batch string) : result (list string) :=
  sources <- Prompting.batch_get b "source_text" ;;
  Ok (map (fun _ => "good") sources).

Definition example_evaluate (rp rr tp tr : list string) (args : Prompting.Args)
  : result nat :=
  Ok (List.length rp + List.length tp)%nat.

Definition example_split (output : string) : result (string * string) :=
  Ok (output, "5").

Definition example_prompting (dataloader : list (Prompting.batch string))
    (args : Prompting.Args) : Prompting.io_result nat :=
  Prompting.prompting string nat (fun s => s) (fun n => decimal (Z.of_nat n))
    example_split example_evaluate example_process_batch dataloader args.

(** An effect that leaves every file but [path] alone. *)
Definition touches_only (path : string) (e : Prompting.io) : Prop :=
  match e with
  | Prompting.Print _ => True
  | Prompting.Append p _ => p = path
  end.

(** ** Binary64 as real numbers

    The value of a float, the location of a real between two consecutive
    multiples of a power of two, and what it means for a float to be the
    rounding of a real.  These are the notions the rounding of the Standard
    Library's [SpecFloat] is proved against below. *)

Section Values.

Local Open Scope R_scope.

Definition bpow (e : Z) : R := powerRZ 2 e.

Definition F2R (m e : Z) : R := IZR m * bpow e.

Definition SF2R (f : spec_float) : R :=
  match f with
  | S754_finite s m e => F2R (cond_Zopp s (Zpos m)) e
  | _ => 0
  end.

(** Where a real stands, from [lo] up to [lo + step], for a rounding location. *)
Definition loc_ok (l : location) (x lo step : R) : Prop :=
  match l with
  | loc_Exact => x = lo
  | loc_Inexact Lt => lo < x < lo + step / 2
  | loc_Inexact Eq => x = lo + step / 2
  | loc_Inexact Gt => lo + step / 2 < x < lo + step
  end.

Definition inbetween (m e : Z) (l : location) (x : R) : Prop :=
  loc_ok l x (F2R m e) (bpow e).

Definition rec_ok (mrs : shr_record) (e : Z) (x : R) : Prop :=
  inbetween (shr_m mrs) e (loc_of_shr_record mrs) x.

Definition fexp64 (e : Z) : Z := Z.max (e - 53) (-1074).

(** The float [binary_round_aux] returns, from the rounded mantissa [m2] at
    the exponent [e1] of the first shift. *)
Definition pack (s : bool) (m2 e1 : Z) : spec_float :=
  match m2 with
  | Z0 => S754_zero s
  | Zpos p =>
      if (m2 =? 2 ^ 53)%Z then
        if (e1 + 1 <=? 971)%Z then S754_finite s (2 ^ 52)%positive (e1 + 1)
        else S754_infinity s
      else if (e1 <=? 971)%Z then S754_finite s p e1 else S754_infinity s
  | Zneg _ => S754_nan
  end.

Definition finite_SF (f : spec_float) : bool :=
  match f with
  | S754_zero _ | S754_finite _ _ _ => true
  | _ => false
  end.

(** Half-way between the largest finite binary64 and [2^1024]. *)
Definition omega : R := F2R (2 ^ 54 - 1) 970.

Definition sgn (s : bool) (x : R) : R := if s then - x else x.

(** [f] is a binary64 nearest to [x], or the infinity past [omega]. *)
Definition rounds_to (x : R) (f : spec_float) : Prop :=
  valid_binary f = true /\
  match f with
  | S754_nan => False
  | S754_infinity s => if s then x <= - omega else omega <= x
  | _ =>
      Rabs x <= omega /\
      forall g, valid_binary g = true -> finite_SF g = true ->
                Rabs (x - SF2R f) <= Rabs (x - SF2R g)
  end.

Definition Rcmp (c : comparison) (x y : R) : Prop :=
  match c with
  | Lt => x < y
  | Eq => x = y
  | Gt => y < x
  end.

Definition B2R (x : float) : R := SF2R (Prim2SF x).

End Values.

(** * Properties *)

Set Warnings "-inexact-float".

(** ** The error monad *)

Lemma bind_ok {A B : Type} (r : result A) (k : A -> result B) (b : B) :
  bind r k = Ok b -> exists a, r = Ok a /\ k a = Ok b.
Proof. destruct r as [a|e]; simpl; intros H; [eauto | discriminate]. Qed.

Lemma bind_raise {A B : Type} (r : result A) (k : A -> result B) (e : exn) :
  bind r k = Raise e -> r = Raise e \/ exists a, r = Ok a /\ k a = Raise e.
Proof. destruct r as [a|e']; simpl; intros H; [eauto | left; congruence]. Qed.

Lemma ok_or_raises {A : Type} (r : result A) : (exists a, r = Ok a) \/ raises r.
Proof. destruct r; [left | right; red]; eauto. Qed.

Lemma raises_not_ok {A : Type} (r : result A) (a : A) : raises r -> r <> Ok a.
Proof. intros [e ->]; discriminate. Qed.

Lemma append_assoc (a b c : string) : (a ++ b) ++ c = a ++ (b ++ c).
Proof. induction a as [|x a IH]; simpl; [reflexivity | now rewrite IH]. Qed.

Ltac inv_bind H :=
  let a := fresh "a" in
  let Ha := fresh "E" in
  apply bind_ok in H; destruct H as (a & Ha & H).

Ltac inv_binds :=
  repeat match goal with
         | H : bind _ _ = Ok _ |- _ => inv_bind H
         end.

Section Lines.
Variable repr : value -> string.

Lemma process_line_skip args line t row :
  json_loads (strip line) = Ok row -> truthy row = false ->
  process_line repr args line t = Ok t.
Proof. intros E F. unfold process_line. rewrite E. simpl. rewrite F. reflexivity. Qed.

Lemma process_line_inv args line t t' :
  process_line repr args line t = Ok t' ->
  exists row, json_loads (strip line) = Ok row /\
    ((truthy row = false /\ t' = t) \/
     (truthy row = true /\ exists u i s,
        built_from repr args row u i s /\
        t' = {| data := (data t ++ [s])%list; users := (users t ++ [u])%list;
                items := (items t ++ [i])%list |})).
Proof.
  unfold process_line. intros H.
  inv_bind H. exists a. split; [assumption|].
  destruct (truthy a) eqn:T; cbn [negb] in H.
  2:{ left. split; congruence. }
  right. split; [reflexivity|].
  inv_binds. unfold aspects in *. cbn [set_aspects] in *. inv_binds.
  repeat match goal with
         | H1 : ?x = Ok ?u, H2 : ?x = Ok ?v |- _ =>
             assert (u = v) by congruence; subst v; clear H2
         end.
  repeat match goal with
         | H1 : Ok _ = Ok _ |- _ => injection H1 as <-
         end.
  do 3 eexists. split; [|reflexivity].
  red. do 13 eexists.
  repeat (split; [eassumption|]).
  repeat split; try reflexivity.
  rewrite !append_assoc. reflexivity.
Qed.
End Lines.

(** ** Rounding in binary64

    Each of [+], [-], [*] and [/] on finite floats returns a float nearest to
    the exact result, or an infinity when that result is past [omega]; hence
    each is monotone. *)

Section Rounding.

Local Open Scope R_scope.

Lemma bpow_gt_0 e : 0 < bpow e.
Proof. apply powerRZ_lt. lra. Qed.

Lemma bpow_plus a b : bpow (a + b) = bpow a * bpow b.
Proof. apply powerRZ_add. lra. Qed.

Lemma bpow_0 : bpow 0 = 1.
Proof. reflexivity. Qed.

Lemma bpow_1 : bpow 1 = 2.
Proof. unfold bpow. simpl. lra. Qed.

Lemma bpow_succ e : bpow (e + 1) = 2 * bpow e.
Proof. rewrite bpow_plus, bpow_1. lra. Qed.

Lemma IZR_pow2 n : (0 <= n)%Z -> IZR (2 ^ n) = bpow n.
Proof.
  intros H. unfold bpow. rewrite <- (Z2Nat.id n H) at 1.
  rewrite <- pow_IZR. rewrite pow_powerRZ. rewrite Z2Nat.id by exact H. reflexivity.
Qed.

Lemma bpow_ge_1 n : (0 <= n)%Z -> 1 <= bpow n.
Proof.
  intros H. rewrite <- (IZR_pow2 n H). apply IZR_le.
  assert (0 < 2 ^ n)%Z by (apply Z.pow_pos_nonneg; lia). lia.
Qed.

Lemma bpow_le a b : (a <= b)%Z -> bpow a <= bpow b.
Proof.
  intros H. replace b with (a + (b - a))%Z by lia. rewrite bpow_plus.
  pose proof (bpow_gt_0 a). pose proof (bpow_ge_1 (b - a) ltac:(lia)). nra.
Qed.

Lemma bpow_lt a b : (a < b)%Z -> bpow a < bpow b.
Proof.
  intros H. pose proof (bpow_le (a + 1) b ltac:(lia)) as L.
  rewrite bpow_succ in L. pose proof (bpow_gt_0 a). lra.
Qed.

Lemma F2R_shift m e k : (0 <= k)%Z -> F2R m e = F2R (m * 2 ^ k) (e - k).
Proof.
  intros H. unfold F2R. rewrite mult_IZR, (IZR_pow2 k H), Rmult_assoc, <- bpow_plus.
  f_equal. f_equal. lia.
Qed.

(** ** Shifting right keeps the location *)

Lemma shr_1_ok mrs e x :
  (0 <= shr_m mrs)%Z -> rec_ok mrs e x ->
  rec_ok (shr_1 mrs) (e + 1) x /\ shr_m (shr_1 mrs) = (shr_m mrs / 2)%Z.
Proof.
  destruct mrs as [m r s]. unfold rec_ok, inbetween, F2R. simpl shr_m.
  intros Hm. rewrite bpow_succ. pose proof (bpow_gt_0 e) as B.
  destruct m as [|p|p]; [| |lia].
  - destruct r, s; simpl; intros H; split; try reflexivity; lra.
  - destruct p as [p|p|].
    + assert (E : IZR (Z.pos p~1) = 2 * IZR (Z.pos p) + 1) by (rewrite IZR_POS_xI; lra).
      assert (D : (Z.pos p~1 / 2 = Z.pos p)%Z) by (rewrite Pos2Z.inj_xI; rewrite Z.mul_comm, Z.div_add_l by lia; reflexivity).
      destruct r, s; simpl; rewrite ?plus_IZR, ?E; intros H; (split; [nra | symmetry; exact D]).
    + assert (E : IZR (Z.pos p~0) = 2 * IZR (Z.pos p)) by (rewrite IZR_POS_xO; lra).
      assert (D : (Z.pos p~0 / 2 = Z.pos p)%Z) by (rewrite Pos2Z.inj_xO; rewrite Z.mul_comm, Z.div_mul by lia; reflexivity).
      destruct r, s; simpl; rewrite ?plus_IZR, ?E; intros H; (split; [nra | symmetry; exact D]).
    + destruct r, s; simpl; rewrite ?plus_IZR; intros H; (split; [nra | reflexivity]).
Qed.

Lemma iter_shr_ok p : forall mrs e x,
  (0 <= shr_m mrs)%Z -> rec_ok mrs e x ->
  rec_ok (SpecFloat.iter_pos shr_1 p mrs) (e + Z.pos p) x /\
  shr_m (SpecFloat.iter_pos shr_1 p mrs) = (shr_m mrs / 2 ^ Z.pos p)%Z.
Proof.
  assert (N : forall m k, (0 <= m)%Z -> (0 <= m / 2 ^ Z.pos k)%Z).
  { intros. apply Z.div_pos; [assumption | apply Z.pow_pos_nonneg; lia]. }
  assert (D : forall m a b, (m / 2 ^ Z.pos a / 2 ^ Z.pos b = m / 2 ^ (Z.pos a + Z.pos b))%Z).
  { intros. rewrite Z.div_div, <- Z.pow_add_r by (try apply Z.pow_pos_nonneg; lia).
    reflexivity. }
  induction p as [p IH|p IH|]; intros mrs e x Hm H; simpl SpecFloat.iter_pos.
  - destruct (shr_1_ok mrs e x Hm H) as [H1 E1].
    assert (Hm1 : (0 <= shr_m (shr_1 mrs))%Z) by (rewrite E1; apply Z.div_pos; lia).
    destruct (IH _ _ _ Hm1 H1) as [H2 E2].
    assert (Hm2 : (0 <= shr_m (SpecFloat.iter_pos shr_1 p (shr_1 mrs)))%Z) by (rewrite E2; auto).
    destruct (IH _ _ _ Hm2 H2) as [H3 E3].
    split.
    + replace (e + Z.pos p~1)%Z with (e + 1 + Z.pos p + Z.pos p)%Z by lia. exact H3.
    + rewrite E3, E2, E1, D. change 2%Z with (2 ^ 1)%Z at 1.
      rewrite Z.div_div, <- Z.pow_add_r by (try apply Z.pow_pos_nonneg; lia).
      f_equal. f_equal. lia.
  - destruct (IH _ _ _ Hm H) as [H2 E2].
    assert (Hm2 : (0 <= shr_m (SpecFloat.iter_pos shr_1 p mrs))%Z) by (rewrite E2; auto).
    destruct (IH _ _ _ Hm2 H2) as [H3 E3].
    split.
    + replace (e + Z.pos p~0)%Z with (e + Z.pos p + Z.pos p)%Z by lia. exact H3.
    + rewrite E3, E2, D. f_equal. f_equal. lia.
  - destruct (shr_1_ok mrs e x Hm H) as [H1 E1]. split; [exact H1 | exact E1].
Qed.

(** ** The number of binary digits *)

Lemma digits2_size p : digits2_pos p = Pos.size p.
Proof. induction p; simpl; congruence. Qed.

Lemma Zdigits2_bounds m :
  (0 < m)%Z -> (2 ^ (Zdigits2 m - 1) <= m < 2 ^ Zdigits2 m)%Z.
Proof.
  destruct m as [|p|p]; try lia. intros _.
  change (Zdigits2 (Z.pos p)) with (Z.pos (digits2_pos p)). rewrite digits2_size.
  pose proof (Pos.size_gt p) as G. pose proof (Pos.size_le p) as L.
  apply Pos2Z.pos_lt_pos in G. apply Pos2Z.pos_le_pos in L.
  rewrite Pos2Z.inj_pow in G, L. change (Z.pos p~0) with (2 * Z.pos p)%Z in L.
  split; [|exact G].
  assert (E : (2 ^ Z.pos (Pos.size p) = 2 * 2 ^ (Z.pos (Pos.size p) - 1))%Z).
  { rewrite <- Z.pow_succ_r by lia. f_equal. lia. }
  lia.
Qed.

Lemma Zdigits2_nonneg m : (0 <= Zdigits2 m)%Z.
Proof. destruct m; simpl; lia. Qed.

Lemma Zdigits2_le m n : (0 <= m)%Z -> (0 <= n)%Z -> (m < 2 ^ n)%Z -> (Zdigits2 m <= n)%Z.
Proof.
  intros Hm Hn H. destruct (Z.eq_dec m 0) as [->|Z]; [simpl; lia|].
  pose proof (Zdigits2_bounds m ltac:(lia)) as [L _].
  pose proof (Zdigits2_nonneg m).
  destruct (Z_le_gt_dec (Zdigits2 m) n) as [|G]; [assumption|exfalso].
  assert (2 ^ n <= 2 ^ (Zdigits2 m - 1))%Z by (apply Z.pow_le_mono_r; lia). lia.
Qed.

Lemma Zdigits2_gt m n : (0 <= n)%Z -> (2 ^ n <= m)%Z -> (n < Zdigits2 m)%Z.
Proof.
  intros Hn H. assert (0 < 2 ^ n)%Z by (apply Z.pow_pos_nonneg; lia).
  pose proof (Zdigits2_bounds m ltac:(lia)) as [_ U].
  pose proof (Zdigits2_nonneg m).
  destruct (Z_lt_le_dec n (Zdigits2 m)) as [|G]; [assumption|exfalso].
  assert (2 ^ Zdigits2 m <= 2 ^ n)%Z by (apply Z.pow_le_mono_r; lia). lia.
Qed.

(** ** The exponent function of binary64 *)

Lemma fexp_is e : fexp prec emax e = fexp64 e.
Proof. reflexivity. Qed.

Lemma loc_of_record_of_loc m l :
  loc_of_shr_record (shr_record_of_loc m l) = l /\ shr_m (shr_record_of_loc m l) = m.
Proof. destruct l as [|[| |]]; split; reflexivity. Qed.

Lemma shr_fexp_ok m e l x :
  (0 <= m)%Z -> inbetween m e l x -> (e <= fexp64 (Zdigits2 m + e))%Z ->
  exists mrs,
    shr_fexp prec emax m e l = (mrs, fexp64 (Zdigits2 m + e)) /\
    rec_ok mrs (fexp64 (Zdigits2 m + e)) x /\
    shr_m mrs = (m / 2 ^ (fexp64 (Zdigits2 m + e) - e))%Z.
Proof.
  intros Hm H P. unfold shr_fexp. rewrite fexp_is.
  set (e1 := fexp64 (Zdigits2 m + e)) in *.
  destruct (loc_of_record_of_loc m l) as [L M].
  assert (R0 : rec_ok (shr_record_of_loc m l) e x) by (unfold rec_ok; rewrite L, M; exact H).
  unfold shr. destruct (e1 - e)%Z as [|p|p] eqn:K; [| |lia].
  - exists (shr_record_of_loc m l). replace e1 with e by lia.
    rewrite M, Z.div_1_r. auto.
  - destruct (iter_shr_ok p _ e x ltac:(rewrite M; exact Hm) R0) as [R1 E1].
    exists (SpecFloat.iter_pos shr_1 p (shr_record_of_loc m l)).
    replace (e + Z.pos p)%Z with e1 in * by lia. rewrite M in E1. auto.
Qed.

Lemma first_shift_bounds m e :
  (0 <= m)%Z -> (e <= fexp64 (Zdigits2 m + e))%Z ->
  let e1 := fexp64 (Zdigits2 m + e) in
  let m1 := (m / 2 ^ (e1 - e))%Z in
  (0 <= m1 < 2 ^ 53)%Z /\ (-1074 <= e1)%Z /\ (e1 = -1074 \/ 2 ^ 52 <= m1)%Z.
Proof.
  intros Hm P. cbv zeta. unfold fexp64 in *.
  remember (Zdigits2 m) as d eqn:Ed.
  remember (Z.max (d + e - 53) (-1074)) as e1 eqn:Ee1.
  remember (e1 - e)%Z as k eqn:Ek.
  assert (Hk : (0 <= k)%Z) by lia.
  assert (P2 : (0 < 2 ^ k)%Z) by (apply Z.pow_pos_nonneg; lia).
  assert (N : (0 <= m / 2 ^ k)%Z) by (apply Z.div_pos; lia).
  destruct (Z.eq_dec m 0) as [Z|NZ].
  - subst m. rewrite Z.div_0_l by lia. simpl in Ed.
    split; [lia|]. split; lia.
  - pose proof (Zdigits2_bounds m ltac:(lia)) as [L U]. rewrite <- Ed in L, U.
    pose proof (Zdigits2_nonneg m) as D0. rewrite <- Ed in D0.
    assert (Hd : (1 <= d)%Z).
    { destruct (Z_le_gt_dec 1 d); [assumption|]. assert (d = 0)%Z by lia.
      rewrite H in U. simpl in U. lia. }
    split; [split; [exact N|] | split; [lia|]].
    + destruct (Z_le_gt_dec d k) as [G|G].
      * assert (2 ^ d <= 2 ^ k)%Z by (apply Z.pow_le_mono_r; lia).
        rewrite Z.div_small by lia. lia.
      * assert (m / 2 ^ k < 2 ^ (d - k))%Z.
        { apply Z.div_lt_upper_bound; [exact P2|].
          rewrite <- Z.pow_add_r by lia. replace (k + (d - k))%Z with d by lia. exact U. }
        assert (2 ^ (d - k) <= 2 ^ 53)%Z by (apply Z.pow_le_mono_r; lia).
        lia.
    + destruct (Z_le_gt_dec (d + e - 53) (-1074)) as [G|G].
      * left. lia.
      * right. assert (K : k = (d - 53)%Z) by lia.
        apply Z.div_le_lower_bound; [exact P2|].
        rewrite <- Z.pow_add_r by lia. replace (k + 52)%Z with (d - 1)%Z by lia. exact L.
Qed.

Lemma Rabs_le_cases (a b : R) : (a <= b /\ - a <= b) -> Rabs a <= b.
Proof. intros [H1 H2]. unfold Rabs. destruct (Rcase_abs a); lra. Qed.

Lemma Rabs_le_inv (a b : R) : Rabs a <= b -> - b <= a <= b.
Proof. unfold Rabs. destruct (Rcase_abs a); lra. Qed.

Lemma rne_nearest mrs e x :
  (0 <= shr_m mrs)%Z -> rec_ok mrs e x ->
  let m1 := shr_m mrs in
  let m2 := round_nearest_even m1 (loc_of_shr_record mrs) in
  (m2 = m1 \/ m2 = m1 + 1)%Z /\
  F2R m1 e <= x < F2R (m1 + 1) e /\
  forall k : Z, Rabs (x - F2R m2 e) <= Rabs (x - F2R k e).
Proof.
  intros Hm H m1 m2. unfold rec_ok, inbetween in H. fold m1 in H.
  pose proof (bpow_gt_0 e) as B.
  assert (S1 : F2R (m1 + 1) e = F2R m1 e + bpow e) by (unfold F2R; rewrite plus_IZR; lra).
  assert (Near : forall k : Z, x - F2R m1 e <= Rabs (x - F2R k e) \/
                               F2R (m1 + 1) e - x <= Rabs (x - F2R k e)).
  { intros k. destruct (Z_le_gt_dec k m1) as [L|G].
    - left. apply IZR_le in L. unfold F2R. unfold Rabs.
      destruct (Rcase_abs _); nra.
    - right. assert (L : (m1 + 1 <= k)%Z) by lia. apply IZR_le in L.
      unfold F2R in *. unfold Rabs. destruct (Rcase_abs _); nra. }
  assert (Near2 : forall k : Z, F2R m1 e <= x < F2R (m1 + 1) e ->
            (x - F2R m1 e <= F2R (m1 + 1) e - x -> Rabs (x - F2R m1 e) <= Rabs (x - F2R k e)) /\
            (F2R (m1 + 1) e - x <= x - F2R m1 e -> Rabs (x - F2R (m1 + 1) e) <= Rabs (x - F2R k e))).
  { intros k I. destruct (Near k) as [N|N]; split; intros C;
      apply Rabs_le_cases; lra. }
  unfold m2. destruct (loc_of_shr_record mrs) as [|[| |]]; simpl in H |- *.
  - split; [auto|]. split; [lra|]. intros k. apply Near2; lra.
  - destruct (Z.even m1); (split; [auto|]); (split; [lra|]); intros k; apply Near2; lra.
  - split; [auto|]. split; [lra|]. intros k. apply Near2; lra.
  - split; [auto|]. split; [lra|]. intros k. apply Near2; lra.
Qed.

Lemma round_aux_shape s m e l x :
  (0 <= m)%Z -> inbetween m e l x -> (e <= fexp64 (Zdigits2 m + e))%Z ->
  exists m1 e1 m2,
    binary_round_aux prec emax s m e l = pack s m2 e1 /\
    (0 <= m1 < 2 ^ 53)%Z /\ (-1074 <= e1)%Z /\ (e1 = -1074 \/ 2 ^ 52 <= m1)%Z /\
    (m2 = m1 \/ m2 = m1 + 1)%Z /\
    F2R m1 e1 <= x < F2R (m1 + 1) e1 /\
    forall k : Z, Rabs (x - F2R m2 e1) <= Rabs (x - F2R k e1).
Proof.
  intros Hm H P.
  destruct (shr_fexp_ok m e l x Hm H P) as (mrs & E & R & M).
  destruct (first_shift_bounds m e Hm P) as (B1 & B2 & B3).
  remember (fexp64 (Zdigits2 m + e)) as e1 eqn:Ee1.
  rewrite <- M in B1, B3.
  destruct (rne_nearest mrs e1 x ltac:(lia) R) as (C & I & N).
  remember (shr_m mrs) as m1 eqn:Em1.
  remember (round_nearest_even m1 (loc_of_shr_record mrs)) as m2 eqn:Em2.
  exists m1, e1, m2.
  split; [|repeat split; try assumption; try lia; apply I].
  unfold binary_round_aux. rewrite E. rewrite <- Em1, <- Em2.
  unfold shr_fexp. rewrite fexp_is. change (shr_record_of_loc m2 loc_Exact)
    with {| shr_m := m2; shr_r := false; shr_s := false |}.
  change (emax - prec)%Z with 971%Z.
  destruct (Z.eq_dec m2 (2 ^ 53)) as [C2|C2].
  - rewrite C2. change (Zdigits2 (2 ^ 53)) with 54%Z.
    replace (fexp64 (54 + e1) - e1)%Z with 1%Z by (unfold fexp64; lia).
    reflexivity.
  - assert (D2 : (Zdigits2 m2 <= 53)%Z) by (apply Zdigits2_le; lia).
    unfold shr.
    destruct (fexp64 (Zdigits2 m2 + e1) - e1)%Z as [|p|p] eqn:K;
      [| unfold fexp64 in K; lia |].
    + simpl shr_m. unfold pack. destruct m2 as [|p|p]; try reflexivity.
      destruct (Z.eqb_spec (Z.pos p) (2 ^ 53)); [contradiction | reflexivity].
    + simpl shr_m. unfold pack. destruct m2 as [|q|q]; try reflexivity.
      destruct (Z.eqb_spec (Z.pos q) (2 ^ 53)); [contradiction | reflexivity].
Qed.

(** ** What it means to be the rounding of a real *)

Lemma bounded_inv m e :
  SpecFloat.bounded prec emax m e = true ->
  (-1074 <= e <= 971)%Z /\ (Z.pos m < 2 ^ 53)%Z /\ (e = -1074 \/ 2 ^ 52 <= Z.pos m)%Z.
Proof.
  unfold SpecFloat.bounded, canonical_mantissa. rewrite fexp_is. change (emax - prec)%Z with 971%Z.
  intros H. apply andb_true_iff in H as [C E]. apply Z.eqb_eq in C. apply Z.leb_le in E.
  change (Z.pos (digits2_pos m)) with (Zdigits2 (Z.pos m)) in C.
  pose proof (Zdigits2_bounds (Z.pos m) ltac:(lia)) as [L U].
  remember (Zdigits2 (Z.pos m)) as d. unfold fexp64 in C.
  assert (D : (d <= 53)%Z) by lia.
  assert (2 ^ d <= 2 ^ 53)%Z by (apply Z.pow_le_mono_r; lia).
  split; [lia|]. split; [lia|].
  destruct (Z.eq_dec e (-1074)); [left; assumption | right].
  assert (d = 53)%Z by lia. subst d. rewrite H0 in L. exact L.
Qed.

Lemma bounded_intro m e :
  (0 < m < 2 ^ 53)%Z -> (-1074 <= e <= 971)%Z -> (e = -1074 \/ 2 ^ 52 <= m)%Z ->
  exists p, m = Z.pos p /\ SpecFloat.bounded prec emax p e = true.
Proof.
  intros Hm He C. destruct m as [|p|p]; try lia. exists p. split; [reflexivity|].
  unfold SpecFloat.bounded, canonical_mantissa. rewrite fexp_is. change (emax - prec)%Z with 971%Z.
  apply andb_true_iff. split; [apply Z.eqb_eq | apply Z.leb_le; lia].
  change (Z.pos (digits2_pos p)) with (Zdigits2 (Z.pos p)).
  assert (D : (Zdigits2 (Z.pos p) <= 53)%Z) by (apply Zdigits2_le; lia).
  pose proof (Zdigits2_nonneg (Z.pos p)).
  unfold fexp64. destruct C as [C|C]; [lia|].
  assert (52 < Zdigits2 (Z.pos p))%Z by (apply Zdigits2_gt; lia). lia.
Qed.

Lemma F2R_0 e : F2R 0 e = 0.
Proof. unfold F2R. lra. Qed.

Lemma F2R_ge_0 m e : (0 <= m)%Z -> 0 <= F2R m e.
Proof.
  intros H. unfold F2R. apply IZR_le in H. pose proof (bpow_gt_0 e). nra.
Qed.

Lemma F2R_le m1 m2 e : (m1 <= m2)%Z -> F2R m1 e <= F2R m2 e.
Proof.
  intros H. unfold F2R. apply IZR_le in H. pose proof (bpow_gt_0 e). nra.
Qed.

Lemma F2R_lt m1 m2 e : (m1 < m2)%Z -> F2R m1 e < F2R m2 e.
Proof.
  intros H. unfold F2R. apply IZR_lt in H. pose proof (bpow_gt_0 e). nra.
Qed.

Lemma F2R_exp_le m e1 e2 : (0 <= m)%Z -> (e1 <= e2)%Z -> F2R m e1 <= F2R m e2.
Proof.
  intros Hm H. unfold F2R. apply IZR_le in Hm. pose proof (bpow_le _ _ H).
  pose proof (bpow_gt_0 e1). nra.
Qed.

Lemma F2R_double m e : F2R (2 * m) e = F2R m (e + 1).
Proof. unfold F2R. rewrite mult_IZR, bpow_succ. lra. Qed.

Lemma SF2R_finite s m e : SF2R (S754_finite s m e) = sgn s (F2R (Z.pos m) e).
Proof. destruct s; simpl; unfold F2R; [rewrite IZR_NEG|]; lra. Qed.

(** A positive float below the exponent [e1] of a normal mantissa [m1] is
    below it. *)
Lemma small_float_below mg eg m1 e1 :
  (Z.pos mg < 2 ^ 53)%Z -> (eg < e1)%Z -> (2 ^ 52 <= m1)%Z ->
  F2R (Z.pos mg) eg <= F2R m1 e1.
Proof.
  intros Hg He Hm.
  apply Rle_trans with (F2R (2 ^ 53) eg); [apply F2R_le; lia|].
  apply Rle_trans with (F2R (2 ^ 53) (e1 - 1)); [apply F2R_exp_le; lia|].
  change (2 ^ 53)%Z with (2 * 2 ^ 52)%Z. rewrite F2R_double.
  replace (e1 - 1 + 1)%Z with e1 by lia. apply F2R_le. exact Hm.
Qed.

Section Nearest.

Variables (x : R) (m1 e1 m2 : Z).
Hypothesis B1 : (0 <= m1 < 2 ^ 53)%Z.
Hypothesis B2 : (-1074 <= e1)%Z.
Hypothesis B3 : (e1 = -1074 \/ 2 ^ 52 <= m1)%Z.
Hypothesis C : (m2 = m1 \/ m2 = m1 + 1)%Z.
Hypothesis I : F2R m1 e1 <= x < F2R (m1 + 1) e1.
Hypothesis N : forall k : Z, Rabs (x - F2R m2 e1) <= Rabs (x - F2R k e1).

Lemma nearest_x_ge_0 : 0 <= x.
Proof. pose proof (F2R_ge_0 m1 e1 ltac:(lia)). lra. Qed.

Lemma nearest_below_m1 (G : R) : G <= F2R m1 e1 -> Rabs (x - F2R m2 e1) <= Rabs (x - G).
Proof.
  intros H. apply Rle_trans with (1 := N m1).
  rewrite !Rabs_pos_eq by lra. lra.
Qed.

Lemma nearest_float g :
  valid_binary g = true -> finite_SF g = true ->
  Rabs (x - F2R m2 e1) <= Rabs (x - SF2R g).
Proof.
  intros V Fg. pose proof nearest_x_ge_0 as X0.
  pose proof (F2R_ge_0 m1 e1 ltac:(lia)) as M0.
  destruct g as [sg|sg| |sg mg eg]; try discriminate.
  - simpl. rewrite <- (F2R_0 e1). apply N.
  - simpl in V. destruct (bounded_inv _ _ V) as (E & Mg & Cg).
    rewrite SF2R_finite. destruct sg; simpl.
    + apply nearest_below_m1. pose proof (F2R_ge_0 (Z.pos mg) eg ltac:(lia)). lra.
    + destruct (Z_lt_le_dec eg e1) as [L|L].
      * apply nearest_below_m1. apply small_float_below; lia.
      * rewrite (F2R_shift (Z.pos mg) eg (eg - e1)) by lia.
        replace (eg - (eg - e1))%Z with e1 by lia. apply N.
Qed.

Lemma nearest_half : Rabs (x - F2R m2 e1) <= bpow e1 / 2.
Proof.
  pose proof (N m1) as N1. pose proof (N (m1 + 1)%Z) as N2.
  assert (S1 : F2R (m1 + 1) e1 = F2R m1 e1 + bpow e1) by (unfold F2R; rewrite plus_IZR; lra).
  rewrite (Rabs_pos_eq (x - F2R m1 e1)) in N1 by lra.
  rewrite (Rabs_left1 (x - F2R (m1 + 1) e1)) in N2 by lra. lra.
Qed.

Lemma pack_cases s :
  (m2 = 0%Z /\ m1 = 0%Z /\ e1 = (-1074)%Z /\ pack s m2 e1 = S754_zero s) \/
  (exists p, (0 < m2 < 2 ^ 53)%Z /\ (e1 <= 971)%Z /\ m2 = Z.pos p /\
             SpecFloat.bounded prec emax p e1 = true /\
             pack s m2 e1 = S754_finite s p e1) \/
  (m2 = (2 ^ 53)%Z /\ (e1 + 1 <= 971)%Z /\
   pack s m2 e1 = S754_finite s (2 ^ 52)%positive (e1 + 1)) \/
  ((0 < m2 < 2 ^ 53)%Z /\ (971 < e1)%Z /\ pack s m2 e1 = S754_infinity s) \/
  (m2 = (2 ^ 53)%Z /\ (971 <= e1)%Z /\ pack s m2 e1 = S754_infinity s).
Proof.
  destruct (Z.eq_dec m2 0) as [Z|NZ].
  - left. subst m2. repeat split; try lia.
  - right. destruct (Z.eq_dec m2 (2 ^ 53)) as [T|NT].
    + right. rewrite T. unfold pack. simpl Z.eqb.
      destruct (Z.leb_spec (e1 + 1) 971); [left | right; right]; repeat split; lia.
    + assert (R : (0 < m2 < 2 ^ 53)%Z) by lia.
      assert (B3' : (e1 = -1074 \/ 2 ^ 52 <= m2)%Z) by lia.
      unfold pack. destruct m2 as [|p|p] eqn:E; try lia.
      destruct (Z.eqb_spec (Z.pos p) (2 ^ 53)); [contradiction|].
      destruct (Z.leb_spec e1 971).
      * left. exists p. repeat split; try lia.
        destruct (bounded_intro (Z.pos p) e1 R ltac:(lia) B3') as (q & Q & Bq).
        injection Q as <-. exact Bq.
      * right. right. left. repeat split; lia.
Qed.

Lemma pack_rounds s : rounds_to (sgn s x) (pack s m2 e1).
Proof.
  pose proof nearest_x_ge_0 as X0. pose proof nearest_half as H.
  pose proof (bpow_gt_0 e1) as Be.
  assert (A : Rabs (sgn s x) = x) by (destruct s; simpl; [rewrite Rabs_Ropp|]; apply Rabs_pos_eq; lra).
  assert (D : forall r y, Rabs (sgn s x - sgn s r) = Rabs (x - r) /\
                          Rabs (sgn s x - y) = Rabs (x - sgn s y)).
  { intros r y. destruct s; simpl; split; try reflexivity.
    - replace (- x - - r) with (- (x - r)) by lra. apply Rabs_Ropp.
    - replace (- x - y) with (- (x - - y)) by lra. apply Rabs_Ropp. }
  assert (G : forall g, valid_binary g = true -> finite_SF g = true ->
                        Rabs (sgn s x - sgn s (F2R m2 e1)) <= Rabs (sgn s x - SF2R g)).
  { intros g V Fg. destruct (D (F2R m2 e1) (SF2R g)) as [-> ->].
    destruct s; simpl; [|now apply nearest_float].
    replace (- SF2R g) with (SF2R (SFopp g)) by (destruct g as [| | |[|] ? ?]; simpl; unfold F2R; rewrite ?IZR_NEG; lra).
    apply nearest_float; destruct g; assumption. }
  assert (O : omega = IZR 18014398509481983 * bpow 970) by reflexivity.
  assert (P971 : bpow 971 = 2 * bpow 970) by (rewrite <- bpow_succ; reflexivity).
  pose proof (bpow_gt_0 970) as B970.
  destruct (pack_cases s) as [(Z2 & Z1 & Ze & ->) | [(p & R & E & Mp & Bp & ->) |
    [(T & E & ->) | [(R & E & ->) | (T & E & ->)]]]].
  - split; [reflexivity|]. split.
    + rewrite A. subst m2 e1. rewrite F2R_0 in H. rewrite Rminus_0_r, Rabs_pos_eq in H by lra.
      pose proof (bpow_le (-1074) 970 ltac:(lia)). lra.
    + intros g V Fg. specialize (G g V Fg). rewrite Z2, F2R_0 in G.
      simpl SF2R. destruct s; simpl in G |- *; rewrite ?Ropp_0 in G; exact G.
  - split; [exact Bp|]. split.
    + rewrite A. apply Rabs_le_inv in H as [_ H].
      pose proof (F2R_le m2 (2 ^ 53 - 1) e1 ltac:(lia)) as L1.
      pose proof (F2R_exp_le (2 ^ 53 - 1) e1 971 ltac:(lia) E) as L2.
      pose proof (bpow_le e1 971 E) as L3.
      unfold F2R in L2 at 2. change (2 ^ 53 - 1)%Z with 9007199254740991%Z in L1, L2. lra.
    + intros g V Fg. rewrite SF2R_finite, <- Mp. now apply G.
  - split.
    { destruct (bounded_intro (2 ^ 52) (e1 + 1) ltac:(lia) ltac:(lia) ltac:(lia))
        as (q & Q & Bq).
      change (2 ^ 52)%Z with (Z.pos (2 ^ 52)) in Q. injection Q as <-. exact Bq. }
    assert (V : F2R (Z.pos (2 ^ 52)) (e1 + 1) = F2R m2 e1).
    { rewrite T. change (2 ^ 53)%Z with (2 * 2 ^ 52)%Z. rewrite F2R_double. reflexivity. }
    split.
    + rewrite A. apply Rabs_le_inv in H as [_ H].
      pose proof (F2R_exp_le m2 e1 970 ltac:(lia) ltac:(lia)) as L2.
      pose proof (bpow_le e1 970 ltac:(lia)) as L3.
      rewrite T in L2, H. unfold F2R in L2 at 2.
      change (2 ^ 53)%Z with 9007199254740992%Z in L2, H. lra.
    + intros g Vg Fg. rewrite SF2R_finite, V. now apply G.
  - split; [reflexivity|].
    assert (X : omega <= x).
    { assert (M : (2 ^ 52 <= m1)%Z) by lia.
      pose proof (F2R_le (2 ^ 52) m1 e1 M) as L1.
      pose proof (F2R_exp_le (2 ^ 52) 972 e1 ltac:(lia) ltac:(lia)) as L2.
      unfold F2R in L2 at 1. change (2 ^ 52)%Z with 4503599627370496%Z in L1, L2.
      replace (bpow 972) with (4 * bpow 970) in L2
        by (change 972%Z with (970 + 1 + 1)%Z; rewrite !bpow_succ; lra).
      lra. }
    destruct s; simpl; lra.
  - split; [reflexivity|].
    assert (X : omega <= x).
    { apply Rabs_le_inv in H as [H _].
      pose proof (bpow_le 971 e1 E) as L3.
      pose proof (F2R_exp_le (2 ^ 53) 971 e1 ltac:(lia) E) as L2.
      unfold F2R in L2 at 1. change (2 ^ 53)%Z with 9007199254740992%Z in L2.
      rewrite T in H.
      assert (F2R (2 ^ 53) e1 - bpow e1 / 2 >= IZR 9007199254740992 * bpow 971 - bpow 971 / 2).
      { unfold F2R. change (2 ^ 53)%Z with 9007199254740992%Z. nra. }
      lra. }
    destruct s; simpl; lra.
Qed.

End Nearest.

Theorem round_aux_rounds s m e l x :
  (0 <= m)%Z -> inbetween m e l x -> (e <= fexp64 (Zdigits2 m + e))%Z ->
  rounds_to (sgn s x) (binary_round_aux prec emax s m e l).
Proof.
  intros Hm H P.
  destruct (round_aux_shape s m e l x Hm H P) as (m1 & e1 & m2 & -> & B1 & B2 & B3 & C & I & N).
  now apply pack_rounds with (m1 := m1).
Qed.

(** ** Rounding an integer mantissa *)

Lemma iter_xO m d : Z.pos (Pos.iter xO m d) = (Z.pos m * 2 ^ Z.pos d)%Z.
Proof.
  induction d as [|d IH] using Pos.peano_ind.
  - simpl. lia.
  - rewrite Pos.iter_succ, Pos2Z.inj_xO, IH, Pos2Z.inj_succ, Z.pow_succ_r by lia. lia.
Qed.

Lemma Zdigits2_unique n d :
  (0 < n)%Z -> (2 ^ (d - 1) <= n < 2 ^ d)%Z -> (1 <= d)%Z -> Zdigits2 n = d.
Proof.
  intros Hn [L U] Hd.
  assert (Zdigits2 n <= d)%Z by (apply Zdigits2_le; lia).
  assert (d - 1 < Zdigits2 n)%Z by (apply Zdigits2_gt; lia). lia.
Qed.

Lemma Zdigits2_ge_1 n : (0 < n)%Z -> (1 <= Zdigits2 n)%Z.
Proof. destruct n; simpl; lia. Qed.

Lemma Zdigits2_shift m k :
  (0 < m)%Z -> (0 <= k)%Z -> Zdigits2 (m * 2 ^ k) = (Zdigits2 m + k)%Z.
Proof.
  intros Hm Hk. pose proof (Zdigits2_bounds m Hm) as [L U].
  pose proof (Zdigits2_ge_1 m Hm) as D.
  assert (P : (0 < 2 ^ k)%Z) by (apply Z.pow_pos_nonneg; lia).
  apply Zdigits2_unique; [nia | | lia].
  replace (Zdigits2 m + k - 1)%Z with (Zdigits2 m - 1 + k)%Z by lia.
  rewrite !Z.pow_add_r by lia. nia.
Qed.

Lemma shl_align_ok mx ex ex' :
  exists mz ez,
    shl_align mx ex ex' = (mz, ez) /\ ez = Z.min ex ex' /\
    Z.pos mz = (Z.pos mx * 2 ^ (ex - ez))%Z /\
    F2R (Z.pos mz) ez = F2R (Z.pos mx) ex.
Proof.
  unfold shl_align. destruct (ex' - ex)%Z as [|d|d] eqn:K.
  - exists mx, ex. replace (ex - ex)%Z with 0%Z by lia. repeat split; lia.
  - exists mx, ex. replace (ex - ex)%Z with 0%Z by lia. repeat split; lia.
  - exists (Pos.iter xO mx d), ex'.
    assert (E : (ex - ex' = Z.pos d)%Z) by lia.
    split; [reflexivity|]. split; [lia|]. rewrite E. split; [apply iter_xO|].
    rewrite iter_xO, (F2R_shift (Z.pos mx) ex (Z.pos d)) by lia.
    f_equal. lia.
Qed.

Theorem binary_round_rounds s mx ex :
  rounds_to (sgn s (F2R (Z.pos mx) ex)) (binary_round prec emax s mx ex).
Proof.
  unfold binary_round. rewrite fexp_is.
  change (Z.pos (digits2_pos mx)) with (Zdigits2 (Z.pos mx)).
  destruct (shl_align_ok mx ex (fexp64 (Zdigits2 (Z.pos mx) + ex)))
    as (mz & ez & -> & Ez & Mz & V).
  rewrite <- V. apply round_aux_rounds; [lia | reflexivity |].
  rewrite Mz. pose proof (Zdigits2_nonneg (Z.pos mx)).
  rewrite Zdigits2_shift by lia.
  replace (Zdigits2 (Z.pos mx) + (ex - ez) + ez)%Z with (Zdigits2 (Z.pos mx) + ex)%Z by lia.
  lia.
Qed.

Lemma rounds_to_zero s : rounds_to 0 (S754_zero s).
Proof.
  split; [reflexivity|]. split.
  - rewrite Rabs_R0. unfold omega. apply F2R_ge_0. lia.
  - intros g _ _. simpl. rewrite Rminus_0_r, Rabs_R0. apply Rabs_pos.
Qed.

Theorem binary_normalize_rounds m e :
  rounds_to (F2R m e) (binary_normalize prec emax m e false).
Proof.
  destruct m as [|p|p]; simpl.
  - rewrite F2R_0. apply rounds_to_zero.
  - apply (binary_round_rounds false).
  - replace (F2R (Z.neg p) e) with (sgn true (F2R (Z.pos p) e))
      by (simpl; unfold F2R; rewrite IZR_NEG; lra).
    apply binary_round_rounds.
Qed.

(** A finite float is its own rounding. *)
Lemma rounds_to_exact f :
  valid_binary f = true -> finite_SF f = true -> rounds_to (SF2R f) f.
Proof.
  intros V Ff. destruct f as [s|s| |s m e]; try discriminate.
  - apply rounds_to_zero.
  - split; [exact V|]. split.
    + simpl in V. destruct (bounded_inv _ _ V) as (E & M & _).
      rewrite SF2R_finite.
      assert (A : Rabs (sgn s (F2R (Z.pos m) e)) = F2R (Z.pos m) e).
      { pose proof (F2R_ge_0 (Z.pos m) e ltac:(lia)).
        destruct s; simpl; [rewrite Rabs_Ropp|]; apply Rabs_pos_eq; lra. }
      rewrite A.
      pose proof (F2R_le (Z.pos m) (2 ^ 53 - 1) e ltac:(lia)) as L1.
      pose proof (F2R_exp_le (2 ^ 53 - 1) e 971 ltac:(lia) ltac:(lia)) as L2.
      assert (O : omega = IZR 18014398509481983 * bpow 970) by reflexivity.
      assert (P971 : bpow 971 = 2 * bpow 970) by (rewrite <- bpow_succ; reflexivity).
      pose proof (bpow_gt_0 970).
      unfold F2R in L2 at 2. change (2 ^ 53 - 1)%Z with 9007199254740991%Z in L1, L2. lra.
    + intros g _ _. rewrite Rminus_diag, Rabs_R0. apply Rabs_pos.
Qed.

(** ** The four operations round their exact result *)

Lemma F2R_plus a b e : F2R (a + b) e = F2R a e + F2R b e.
Proof. unfold F2R. rewrite plus_IZR. lra. Qed.

Lemma F2R_minus a b e : F2R (a - b) e = F2R a e - F2R b e.
Proof. unfold F2R. rewrite minus_IZR. lra. Qed.

Lemma F2R_cond_Zopp s m e : F2R (cond_Zopp s m) e = sgn s (F2R m e).
Proof. destruct s; simpl; unfold F2R; [rewrite opp_IZR|]; lra. Qed.

Lemma aligned_value s m e ez :
  (ez <= e)%Z ->
  F2R (cond_Zopp s (Z.pos (fst (shl_align m e ez)))) ez = SF2R (S754_finite s m e).
Proof.
  intros H. destruct (shl_align_ok m e ez) as (mz & ez' & E & Ez & _ & V).
  rewrite E. simpl fst. rewrite F2R_cond_Zopp, SF2R_finite.
  replace ez' with ez in V by lia. now rewrite V.
Qed.

Theorem SFadd_rounds a b :
  valid_binary a = true -> valid_binary b = true ->
  finite_SF a = true -> finite_SF b = true ->
  rounds_to (SF2R a + SF2R b) (SFadd prec emax a b).
Proof.
  intros Va Vb Fa Fb.
  destruct a as [sa|sa| |sa ma ea]; try discriminate;
    destruct b as [sb|sb| |sb mb eb]; try discriminate.
  - simpl SF2R. rewrite Rplus_0_r.
    destruct sa, sb; apply rounds_to_zero.
  - simpl (SF2R (S754_zero sa)). rewrite Rplus_0_l. now apply rounds_to_exact.
  - simpl (SF2R (S754_zero sb)). rewrite Rplus_0_r. now apply rounds_to_exact.
  - unfold SFadd.
    rewrite <- (aligned_value sa ma ea (Z.min ea eb)) by lia.
    rewrite <- (aligned_value sb mb eb (Z.min ea eb)) by lia.
    rewrite <- F2R_plus. apply binary_normalize_rounds.
Qed.

Theorem SFsub_rounds a b :
  valid_binary a = true -> valid_binary b = true ->
  finite_SF a = true -> finite_SF b = true ->
  rounds_to (SF2R a - SF2R b) (SFsub prec emax a b).
Proof.
  intros Va Vb Fa Fb.
  destruct a as [sa|sa| |sa ma ea]; try discriminate;
    destruct b as [sb|sb| |sb mb eb]; try discriminate.
  - simpl SF2R. rewrite Rminus_0_r.
    destruct sa, sb; apply rounds_to_zero.
  - simpl (SF2R (S754_zero sa)). unfold SFsub.
    replace (0 - SF2R (S754_finite sb mb eb)) with (SF2R (S754_finite (negb sb) mb eb))
      by (rewrite !SF2R_finite; destruct sb; simpl; lra).
    now apply rounds_to_exact.
  - simpl (SF2R (S754_zero sb)). rewrite Rminus_0_r. now apply rounds_to_exact.
  - unfold SFsub.
    rewrite <- (aligned_value sa ma ea (Z.min ea eb)) by lia.
    rewrite <- (aligned_value sb mb eb (Z.min ea eb)) by lia.
    rewrite <- F2R_minus. apply binary_normalize_rounds.
Qed.

Lemma sgn_mult sa sb x y : sgn sa x * sgn sb y = sgn (xorb sa sb) (x * y).
Proof. destruct sa, sb; simpl; lra. Qed.

Lemma F2R_mult a b ea eb : F2R a ea * F2R b eb = F2R (a * b) (ea + eb).
Proof. unfold F2R. rewrite mult_IZR, bpow_plus. lra. Qed.

Theorem SFmul_rounds a b :
  valid_binary a = true -> valid_binary b = true ->
  finite_SF a = true -> finite_SF b = true ->
  rounds_to (SF2R a * SF2R b) (SFmul prec emax a b).
Proof.
  intros Va Vb Fa Fb.
  destruct a as [sa|sa| |sa ma ea]; try discriminate;
    destruct b as [sb|sb| |sb mb eb]; try discriminate;
    try (simpl SF2R; rewrite ?Rmult_0_l, ?Rmult_0_r; apply rounds_to_zero).
  unfold SFmul. rewrite !SF2R_finite, sgn_mult, F2R_mult.
  simpl in Va, Vb.
  destruct (bounded_inv _ _ Va) as (Ea & Ma & Ca).
  destruct (bounded_inv _ _ Vb) as (Eb & Mb & Cb).
  change (Z.pos ma * Z.pos mb)%Z with (Z.pos (ma * mb)).
  apply round_aux_rounds; [lia | reflexivity |].
  unfold fexp64.
  destruct (Z_le_gt_dec (ea + eb) (-1074)) as [L|G]; [lia|].
  assert (N : (2 ^ 52 <= Z.pos ma \/ 2 ^ 52 <= Z.pos mb)%Z) by lia.
  assert (D : (52 < Zdigits2 (Z.pos (ma * mb)))%Z).
  { apply Zdigits2_gt; [lia|]. rewrite Pos2Z.inj_mul. destruct N; nia. }
  lia.
Qed.

Lemma new_location_ok nb k (x lo step : R) :
  (0 < nb)%Z -> (0 <= k < nb)%Z -> 0 < step ->
  x = lo + IZR k / IZR nb * step ->
  loc_ok (new_location nb k) x lo step.
Proof.
  intros Hnb Hk Hs ->.
  assert (NB : 0 < IZR nb) by (apply IZR_lt; lia).
  set (rho := IZR k / IZR nb).
  assert (E : rho * IZR nb = IZR k) by (unfold rho; field; lra).
  assert (K0 : k = 0%Z -> rho = 0) by (intros ->; unfold rho; lra).
  assert (Kp : (0 < k)%Z -> 0 < rho).
  { intros H. apply IZR_lt in H. unfold rho. apply Rdiv_lt_0_compat; lra. }
  clearbody rho.
  assert (C : forall c : Z, (2 * k < c)%Z -> 2 * rho * IZR nb < IZR c).
  { intros c H. apply IZR_lt in H. rewrite mult_IZR in H. nra. }
  assert (C' : forall c : Z, (c < 2 * k)%Z -> IZR c < 2 * rho * IZR nb).
  { intros c H. apply IZR_lt in H. rewrite mult_IZR in H. nra. }
  assert (U : rho < 1).
  { assert (IZR k < IZR nb) by (apply IZR_lt; lia). nra. }
  unfold new_location.
  destruct (Z.even nb) eqn:Ev; [unfold new_location_even | unfold new_location_odd];
    (destruct (Z.eqb_spec k 0) as [Z|NZ]; [rewrite (K0 Z); simpl; lra|]);
    specialize (Kp ltac:(lia)).
  - destruct (Z.compare_spec (2 * k) nb) as [Q|Q|Q]; simpl.
    + assert (2 * rho * IZR nb = IZR nb) by (rewrite <- Q at 2; rewrite mult_IZR; nra).
      assert (rho = 1 / 2) by (apply Rmult_eq_reg_r with (IZR nb); [nra | lra]). subst rho. lra.
    + specialize (C nb Q). assert (rho < 1 / 2) by nra. nra.
    + specialize (C' nb Q). assert (1 / 2 < rho) by nra. nra.
  - assert (Odd : (2 * k <> nb)%Z).
    { intros Q. rewrite <- Q, Z.even_mul in Ev. discriminate. }
    destruct (Z.compare_spec (2 * k + 1) nb) as [Q|Q|Q]; simpl.
    + specialize (C nb ltac:(lia)). assert (rho < 1 / 2) by nra. nra.
    + specialize (C nb ltac:(lia)). assert (rho < 1 / 2) by nra. nra.
    + specialize (C' nb ltac:(lia)). assert (1 / 2 < rho) by nra. nra.
Qed.

Lemma fexp64_mono a b : (a <= b)%Z -> (fexp64 a <= fexp64 b)%Z.
Proof. unfold fexp64. lia. Qed.

Lemma div_core_ok m1 e1 m2 e2 :
  (0 < m1)%Z -> (0 < m2)%Z ->
  exists q e' l,
    SFdiv_core_binary prec emax m1 e1 m2 e2 = (q, e', l) /\
    (0 <= q)%Z /\ inbetween q e' l (F2R m1 e1 / F2R m2 e2) /\
    (e' <= fexp64 (Zdigits2 q + e'))%Z.
Proof.
  intros H1 H2. unfold SFdiv_core_binary. rewrite fexp_is.
  remember (Zdigits2 m1) as d1 eqn:Ed1. remember (Zdigits2 m2) as d2 eqn:Ed2.
  remember (Z.min (fexp64 (d1 + e1 - (d2 + e2))) (e1 - e2)) as e' eqn:Ee'.
  remember (e1 - e2 - e')%Z as s eqn:Es.
  assert (Hs : (0 <= s)%Z) by lia.
  assert (P : (0 < 2 ^ s)%Z) by (apply Z.pow_pos_nonneg; lia).
  assert (M : match s with
              | Z.pos _ => Z.shiftl m1 s
              | 0%Z => m1
              | Z.neg _ => 0%Z
              end = (m1 * 2 ^ s)%Z).
  { destruct s as [|p|p]; [lia | apply Z.shiftl_mul_pow2; lia | lia]. }
  rewrite M. clear M.
  pose proof (Z_div_mod (m1 * 2 ^ s) m2 ltac:(lia)) as DM.
  destruct (Z.div_eucl (m1 * 2 ^ s) m2) as [q r]. destruct DM as [DM R].
  assert (Q0 : (0 <= q)%Z) by nia.
  exists q, e', (new_location m2 r). split; [reflexivity|]. split; [exact Q0|]. split.
  - unfold inbetween. apply new_location_ok; [lia | lia | apply bpow_gt_0 |].
    assert (NB : 0 < IZR m2) by (apply IZR_lt; lia).
    pose proof (bpow_gt_0 e2) as B2. pose proof (bpow_gt_0 e') as B'.
    assert (E1 : bpow e1 = IZR (2 ^ s) * bpow e' * bpow e2).
    { rewrite (IZR_pow2 s Hs), <- !bpow_plus. f_equal. lia. }
    assert (E2 : IZR m1 * IZR (2 ^ s) = IZR m2 * IZR q + IZR r).
    { rewrite <- !mult_IZR, <- plus_IZR. f_equal. exact DM. }
    unfold F2R. rewrite E1. field_simplify_eq; [|lra].
    nra.
  - pose proof (Zdigits2_bounds m1 H1) as [L1 U1]. rewrite <- Ed1 in L1, U1.
    pose proof (Zdigits2_bounds m2 H2) as [L2 U2]. rewrite <- Ed2 in L2, U2.
    pose proof (Zdigits2_ge_1 m1 H1) as G1. rewrite <- Ed1 in G1.
    pose proof (Zdigits2_ge_1 m2 H2) as G2. rewrite <- Ed2 in G2.
    pose proof (Zdigits2_nonneg q) as Dq.
    assert (K : (d1 + e1 - (d2 + e2) <= Zdigits2 q + e')%Z).
    { destruct (Z_le_gt_dec 0 (d1 - 1 + s - d2)) as [G|G]; [|lia].
      assert (2 ^ (d1 - 1 + s - d2) <= q)%Z.
      { assert (T : (2 ^ (d1 - 1 + s - d2) * 2 ^ d2 = 2 ^ (d1 - 1) * 2 ^ s)%Z).
        { rewrite <- !Z.pow_add_r by lia. f_equal. lia. }
        assert (0 < 2 ^ (d1 - 1 + s - d2))%Z by (apply Z.pow_pos_nonneg; lia).
        destruct (Z_le_gt_dec (2 ^ (d1 - 1 + s - d2)) q); [assumption | exfalso]. nia. }
      assert (d1 - 1 + s - d2 < Zdigits2 q)%Z by (apply Zdigits2_gt; lia). lia. }
    apply fexp64_mono in K. lia.
Qed.

Theorem SFdiv_rounds a b :
  valid_binary a = true -> valid_binary b = true ->
  finite_SF a = true -> finite_SF b = true -> SF2R b <> 0 ->
  rounds_to (SF2R a / SF2R b) (SFdiv prec emax a b).
Proof.
  intros Va Vb Fa Fb NZ.
  destruct b as [sb|sb| |sb mb eb]; try discriminate; [simpl in NZ; lra|].
  destruct a as [sa|sa| |sa ma ea]; try discriminate.
  - simpl (SF2R (S754_zero sa)). unfold Rdiv. rewrite Rmult_0_l. apply rounds_to_zero.
  - unfold SFdiv.
    destruct (div_core_ok (Z.pos ma) ea (Z.pos mb) eb ltac:(lia) ltac:(lia))
      as (q & e' & l & -> & Q0 & I & P).
    rewrite !SF2R_finite.
    assert (Y : 0 < F2R (Z.pos mb) eb).
    { unfold F2R. pose proof (bpow_gt_0 eb). assert (0 < IZR (Z.pos mb)) by (apply IZR_lt; lia). nra. }
    replace (sgn sa (F2R (Z.pos ma) ea) / sgn sb (F2R (Z.pos mb) eb))
      with (sgn (xorb sa sb) (F2R (Z.pos ma) ea / F2R (Z.pos mb) eb))
      by (destruct sa, sb; simpl; field; lra).
    now apply round_aux_rounds.
Qed.

(** ** The order of floats is the order of their values *)

Lemma F2R_pos_gt_0 m e : 0 < F2R (Z.pos m) e.
Proof.
  unfold F2R. pose proof (bpow_gt_0 e).
  assert (0 < IZR (Z.pos m)) by (apply IZR_lt; lia). nra.
Qed.

Lemma small_float_lt m1 e1 m2 e2 :
  (Z.pos m1 < 2 ^ 53)%Z -> (e1 < e2)%Z -> (2 ^ 52 <= Z.pos m2)%Z ->
  F2R (Z.pos m1) e1 < F2R (Z.pos m2) e2.
Proof.
  intros H1 He H2.
  apply Rlt_le_trans with (F2R (2 ^ 53) e1); [apply F2R_lt; lia|].
  apply Rle_trans with (F2R (2 ^ 53) (e2 - 1)); [apply F2R_exp_le; lia|].
  change (2 ^ 53)%Z with (2 * 2 ^ 52)%Z. rewrite F2R_double.
  replace (e2 - 1 + 1)%Z with e2 by lia. apply F2R_le. exact H2.
Qed.

Lemma pos_compare_ok m1 e1 m2 e2 :
  SpecFloat.bounded prec emax m1 e1 = true -> SpecFloat.bounded prec emax m2 e2 = true ->
  Rcmp match Z.compare e1 e2 with
       | Lt => Lt
       | Gt => Gt
       | Eq => Pos.compare_cont Eq m1 m2
       end (F2R (Z.pos m1) e1) (F2R (Z.pos m2) e2).
Proof.
  intros V1 V2.
  destruct (bounded_inv _ _ V1) as (E1 & M1 & C1).
  destruct (bounded_inv _ _ V2) as (E2 & M2 & C2).
  destruct (Z.compare_spec e1 e2) as [Q|Q|Q]; simpl.
  - subst e2. change (Pos.compare_cont Eq m1 m2) with (Pos.compare m1 m2).
    destruct (Pos.compare_spec m1 m2) as [P|P|P]; simpl.
    + now subst.
    + apply F2R_lt. lia.
    + apply F2R_lt. lia.
  - apply small_float_lt; lia.
  - apply small_float_lt; lia.
Qed.

Lemma SFcompare_ok a b :
  valid_binary a = true -> valid_binary b = true ->
  finite_SF a = true -> finite_SF b = true ->
  exists c, SFcompare a b = Some c /\ Rcmp c (SF2R a) (SF2R b).
Proof.
  intros Va Vb Fa Fb.
  destruct a as [sa|sa| |sa ma ea]; try discriminate;
    destruct b as [sb|sb| |sb mb eb]; try discriminate; simpl SFcompare.
  - exists Eq. split; [reflexivity | simpl; reflexivity].
  - eexists. split; [reflexivity|]. rewrite SF2R_finite.
    pose proof (F2R_pos_gt_0 mb eb). destruct sb; simpl; lra.
  - eexists. split; [reflexivity|]. rewrite SF2R_finite.
    pose proof (F2R_pos_gt_0 ma ea). destruct sa; simpl; lra.
  - eexists. split; [reflexivity|]. rewrite !SF2R_finite.
    pose proof (F2R_pos_gt_0 ma ea). pose proof (F2R_pos_gt_0 mb eb).
    simpl in Va, Vb. pose proof (pos_compare_ok _ _ _ _ Va Vb) as P.
    destruct sa, sb; simpl; try lra.
    + destruct (Z.compare ea eb); simpl in P |- *; try lra.
      destruct (Pos.compare_cont Eq ma mb); simpl in P |- *; lra.
    + exact P.
Qed.

Lemma SFleb_iff a b :
  valid_binary a = true -> valid_binary b = true ->
  finite_SF a = true -> finite_SF b = true ->
  (SFleb a b = true <-> SF2R a <= SF2R b).
Proof.
  intros Va Vb Fa Fb. destruct (SFcompare_ok a b Va Vb Fa Fb) as (c & E & R).
  unfold SFleb. rewrite E. destruct c; simpl in R; split; intros H;
    try reflexivity; try discriminate; lra.
Qed.

Lemma SFltb_iff a b :
  valid_binary a = true -> valid_binary b = true ->
  finite_SF a = true -> finite_SF b = true ->
  (SFltb a b = true <-> SF2R a < SF2R b).
Proof.
  intros Va Vb Fa Fb. destruct (SFcompare_ok a b Va Vb Fa Fb) as (c & E & R).
  unfold SFltb. rewrite E. destruct c; simpl in R; split; intros H;
    try reflexivity; try discriminate; lra.
Qed.

(** Two finite floats with the same value are the same float, or two zeros. *)
Lemma SF2R_inj a b :
  valid_binary a = true -> valid_binary b = true ->
  finite_SF a = true -> finite_SF b = true ->
  SF2R a = SF2R b ->
  a = b \/ (exists sa sb, a = S754_zero sa /\ b = S754_zero sb).
Proof.
  intros Va Vb Fa Fb E.
  destruct a as [sa|sa| |sa ma ea]; try discriminate;
    destruct b as [sb|sb| |sb mb eb]; try discriminate.
  - right. eauto.
  - exfalso. rewrite SF2R_finite in E. pose proof (F2R_pos_gt_0 mb eb).
    simpl in E. destruct sb; simpl in E; lra.
  - exfalso. rewrite SF2R_finite in E. pose proof (F2R_pos_gt_0 ma ea).
    simpl in E. destruct sa; simpl in E; lra.
  - left. rewrite !SF2R_finite in E.
    pose proof (F2R_pos_gt_0 ma ea). pose proof (F2R_pos_gt_0 mb eb).
    simpl in Va, Vb. pose proof (pos_compare_ok _ _ _ _ Va Vb) as P.
    assert (S : sa = sb) by (destruct sa, sb; simpl in E; try reflexivity; lra).
    subst sb. assert (E' : F2R (Z.pos ma) ea = F2R (Z.pos mb) eb) by (destruct sa; simpl in E; lra).
    destruct (Z.compare_spec ea eb) as [Q|Q|Q]; simpl in P; try lra.
    subst eb. change (Pos.compare_cont Eq ma mb) with (Pos.compare ma mb) in P.
    destruct (Pos.compare_spec ma mb) as [Q|Q|Q]; simpl in P; try lra.
    now subst.
Qed.

(** ** Rounding is monotone *)

Lemma finite_lt_omega g :
  valid_binary g = true -> finite_SF g = true -> Rabs (SF2R g) < omega.
Proof.
  intros V Fg. assert (O : omega = IZR 18014398509481983 * bpow 970) by reflexivity.
  pose proof (bpow_gt_0 970).
  destruct g as [s|s| |s m e]; try discriminate.
  - simpl. rewrite Rabs_R0. lra.
  - simpl in V. destruct (bounded_inv _ _ V) as (E & M & _).
    rewrite SF2R_finite.
    assert (A : Rabs (sgn s (F2R (Z.pos m) e)) = F2R (Z.pos m) e).
    { pose proof (F2R_ge_0 (Z.pos m) e ltac:(lia)).
      destruct s; simpl; [rewrite Rabs_Ropp|]; apply Rabs_pos_eq; lra. }
    rewrite A.
    pose proof (F2R_le (Z.pos m) (2 ^ 53 - 1) e ltac:(lia)) as L1.
    pose proof (F2R_exp_le (2 ^ 53 - 1) e 971 ltac:(lia) ltac:(lia)) as L2.
    assert (P971 : bpow 971 = 2 * bpow 970) by (rewrite <- bpow_succ; reflexivity).
    unfold F2R in L2 at 2. change (2 ^ 53 - 1)%Z with 9007199254740991%Z in L1, L2. lra.
Qed.

Lemma rounds_to_valid x f : rounds_to x f -> valid_binary f = true.
Proof. now intros [V _]. Qed.

Lemma rounds_to_not_nan x f : rounds_to x f -> f <> S754_nan.
Proof. intros [_ H] ->. exact H. Qed.

Lemma omega_gt_0 : 0 < omega.
Proof.
  pose proof (finite_lt_omega (S754_zero false) eq_refl eq_refl) as O.
  simpl in O. rewrite Rabs_R0 in O. exact O.
Qed.

Lemma rounds_to_finite x f :
  rounds_to x f -> finite_SF f = true ->
  Rabs x <= omega /\
  forall g, valid_binary g = true -> finite_SF g = true ->
            Rabs (x - SF2R f) <= Rabs (x - SF2R g).
Proof. intros [_ R] Ff. destruct f; try discriminate; exact R. Qed.

Lemma rounds_to_infinite x f :
  rounds_to x f -> finite_SF f = false ->
  (f = S754_infinity true /\ x <= - omega) \/ (f = S754_infinity false /\ omega <= x).
Proof.
  intros [_ R] Ff. destruct f as [s|s| |s m e]; try discriminate; try contradiction.
  destruct s; auto.
Qed.

Lemma SFleb_neg_infinity f : f <> S754_nan -> SFleb (S754_infinity true) f = true.
Proof. destruct f as [s|s| |s m e]; try congruence; destruct s; reflexivity. Qed.

Lemma SFleb_infinity f : f <> S754_nan -> SFleb f (S754_infinity false) = true.
Proof. destruct f as [s|s| |s m e]; try congruence; destruct s; reflexivity. Qed.

Lemma nearest_order (x1 x2 a b : R) :
  x1 < x2 -> Rabs (x1 - a) <= Rabs (x1 - b) -> Rabs (x2 - b) <= Rabs (x2 - a) -> a <= b.
Proof.
  intros L N1 N2. unfold Rabs in N1, N2.
  destruct (Rcase_abs (x1 - a)), (Rcase_abs (x1 - b)),
    (Rcase_abs (x2 - b)), (Rcase_abs (x2 - a)); lra.
Qed.

Theorem rounds_to_lt x1 x2 f1 f2 :
  rounds_to x1 f1 -> rounds_to x2 f2 -> x1 < x2 -> SFleb f1 f2 = true.
Proof.
  intros R1 R2 L. pose proof omega_gt_0 as O.
  pose proof (rounds_to_valid _ _ R1) as V1. pose proof (rounds_to_valid _ _ R2) as V2.
  destruct (finite_SF f1) eqn:F1; destruct (finite_SF f2) eqn:F2.
  - destruct (rounds_to_finite _ _ R1 F1) as [_ N1].
    destruct (rounds_to_finite _ _ R2 F2) as [_ N2].
    apply SFleb_iff; try assumption.
    apply (nearest_order x1 x2); auto.
  - destruct (rounds_to_finite _ _ R1 F1) as [B1 _]. apply Rabs_le_inv in B1.
    destruct (rounds_to_infinite _ _ R2 F2) as [[-> B2] | [-> B2]]; [lra|].
    apply SFleb_infinity. eapply rounds_to_not_nan; eauto.
  - destruct (rounds_to_finite _ _ R2 F2) as [B2 _]. apply Rabs_le_inv in B2.
    destruct (rounds_to_infinite _ _ R1 F1) as [[-> B1] | [-> B1]]; [|lra].
    apply SFleb_neg_infinity. eapply rounds_to_not_nan; eauto.
  - destruct (rounds_to_infinite _ _ R1 F1) as [[-> B1] | [-> B1]];
      destruct (rounds_to_infinite _ _ R2 F2) as [[-> B2] | [-> B2]];
      try reflexivity; lra.
Qed.

Theorem rounds_ge_float g x f :
  valid_binary g = true -> finite_SF g = true -> rounds_to x f ->
  SF2R g <= x -> SFleb g f = true.
Proof.
  intros V Fg R [L|E].
  - exact (rounds_to_lt _ _ _ _ (rounds_to_exact g V Fg) R L).
  - pose proof (finite_lt_omega g V Fg) as O. destruct R as [Vf R].
    rewrite E in O. apply Rabs_def2 in O.
    destruct f as [s|s| |s m e]; try contradiction; try (destruct s; lra).
    + apply SFleb_iff; try assumption; try reflexivity.
      destruct R as [_ N]. specialize (N g V Fg). rewrite <- E in N.
      rewrite Rminus_diag, Rabs_R0 in N. pose proof (Rabs_pos (SF2R g - SF2R (S754_zero s))).
      assert (Z : Rabs (SF2R g - SF2R (S754_zero s)) = 0) by lra.
      revert Z. unfold Rabs. destruct (Rcase_abs _); lra.
    + apply SFleb_iff; try assumption; try reflexivity.
      destruct R as [_ N]. specialize (N g V Fg). rewrite <- E in N.
      rewrite Rminus_diag, Rabs_R0 in N.
      pose proof (Rabs_pos (SF2R g - SF2R (S754_finite s m e))).
      assert (Z : Rabs (SF2R g - SF2R (S754_finite s m e)) = 0) by lra.
      revert Z. unfold Rabs. destruct (Rcase_abs _); lra.
Qed.

Theorem rounds_le_float g x f :
  valid_binary g = true -> finite_SF g = true -> rounds_to x f ->
  x <= SF2R g -> SFleb f g = true.
Proof.
  intros V Fg R [L|E].
  - exact (rounds_to_lt _ _ _ _ R (rounds_to_exact g V Fg) L).
  - pose proof (finite_lt_omega g V Fg) as O. destruct R as [Vf R].
    rewrite <- E in O. apply Rabs_def2 in O.
    destruct f as [s|s| |s m e]; try contradiction; try (destruct s; lra).
    + apply SFleb_iff; try assumption; try reflexivity.
      destruct R as [_ N]. specialize (N g V Fg). rewrite E in N.
      rewrite Rminus_diag, Rabs_R0 in N. pose proof (Rabs_pos (SF2R g - SF2R (S754_zero s))).
      assert (Z : Rabs (SF2R g - SF2R (S754_zero s)) = 0) by lra.
      revert Z. unfold Rabs. destruct (Rcase_abs _); lra.
    + apply SFleb_iff; try assumption; try reflexivity.
      destruct R as [_ N]. specialize (N g V Fg). rewrite E in N.
      rewrite Rminus_diag, Rabs_R0 in N.
      pose proof (Rabs_pos (SF2R g - SF2R (S754_finite s m e))).
      assert (Z : Rabs (SF2R g - SF2R (S754_finite s m e)) = 0) by lra.
      revert Z. unfold Rabs. destruct (Rcase_abs _); lra.
Qed.

Lemma SFleb_refl f : valid_binary f = true -> f <> S754_nan -> SFleb f f = true.
Proof.
  intros V N. destruct f as [s|s| |s m e]; try congruence; try (destruct s; reflexivity).
  apply SFleb_iff; try assumption; try reflexivity; lra.
Qed.

Lemma SFleb_zeros s1 s2 : SFleb (S754_zero s1) (S754_zero s2) = true.
Proof. reflexivity. Qed.

(** Between two finite floats there are only finite floats. *)
Lemma SFleb_between a f b :
  finite_SF a = true -> finite_SF b = true ->
  SFleb a f = true -> SFleb f b = true -> finite_SF f = true.
Proof.
  intros Fa Fb L1 L2.
  destruct f as [s|s| |s m e]; try reflexivity.
  - destruct s.
    + destruct a as [[]|[]| |[] ? ?]; discriminate.
    + destruct b as [[]|[]| |[] ? ?]; discriminate.
  - destruct a; discriminate.
Qed.

Section Monotone.

Variables a b1 b2 : spec_float.
Hypothesis Va : valid_binary a = true.
Hypothesis V1 : valid_binary b1 = true.
Hypothesis V2 : valid_binary b2 = true.
Hypothesis Fa : finite_SF a = true.
Hypothesis F1 : finite_SF b1 = true.
Hypothesis F2 : finite_SF b2 = true.
Hypothesis L : SF2R b1 <= SF2R b2.

Lemma same_value_cases :
  SF2R b1 = SF2R b2 ->
  b1 = b2 \/ exists s1 s2, b1 = S754_zero s1 /\ b2 = S754_zero s2.
Proof. now apply SF2R_inj. Qed.

Theorem SFadd_mono : SFleb (SFadd prec emax a b1) (SFadd prec emax a b2) = true.
Proof.
  pose proof (SFadd_rounds a b1 Va V1 Fa F1) as R1.
  pose proof (SFadd_rounds a b2 Va V2 Fa F2) as R2.
  destruct L as [Lt|E].
  - apply (rounds_to_lt _ _ _ _ R1 R2). lra.
  - destruct (same_value_cases E) as [<- | (s1 & s2 & -> & ->)].
    + apply SFleb_refl; [eapply rounds_to_valid | eapply rounds_to_not_nan]; eauto.
    + destruct a as [sa|sa| |sa ma ea]; try discriminate.
      * destruct sa, s1, s2; reflexivity.
      * simpl. apply SFleb_refl; [exact Va | discriminate].
Qed.

Theorem SFmul_mono :
  0 <= SF2R a -> SFleb (SFmul prec emax a b1) (SFmul prec emax a b2) = true.
Proof.
  intros A.
  pose proof (SFmul_rounds a b1 Va V1 Fa F1) as R1.
  pose proof (SFmul_rounds a b2 Va V2 Fa F2) as R2.
  destruct a as [sa|sa| |sa ma ea] eqn:Ea; try discriminate.
  - destruct b1 as [?|?| |? ? ?]; try discriminate;
      destruct b2 as [?|?| |? ? ?]; try discriminate; reflexivity.
  - destruct L as [Lt|E].
    + apply (rounds_to_lt _ _ _ _ R1 R2).
      assert (0 < SF2R (S754_finite sa ma ea)).
      { rewrite SF2R_finite in *. pose proof (F2R_pos_gt_0 ma ea).
        destruct sa; simpl in *; lra. }
      nra.
    + destruct (same_value_cases E) as [<- | (s1 & s2 & -> & ->)].
      * apply SFleb_refl; [eapply rounds_to_valid | eapply rounds_to_not_nan]; eauto.
      * reflexivity.
Qed.

End Monotone.

Theorem SFdiv_mono n1 n2 d :
  valid_binary n1 = true -> valid_binary n2 = true -> valid_binary d = true ->
  finite_SF n1 = true -> finite_SF n2 = true -> finite_SF d = true ->
  0 < SF2R d -> SF2R n1 <= SF2R n2 ->
  SFleb (SFdiv prec emax n1 d) (SFdiv prec emax n2 d) = true.
Proof.
  intros V1 V2 Vd F1 F2 Fd D L.
  pose proof (SFdiv_rounds n1 d V1 Vd F1 Fd ltac:(lra)) as R1.
  pose proof (SFdiv_rounds n2 d V2 Vd F2 Fd ltac:(lra)) as R2.
  destruct L as [Lt|E].
  - apply (rounds_to_lt _ _ _ _ R1 R2).
    unfold Rdiv. apply Rmult_lt_compat_r; [apply Rinv_0_lt_compat; lra | exact Lt].
  - destruct (SF2R_inj n1 n2 V1 V2 F1 F2 E) as [<- | (s1 & s2 & -> & ->)].
    + apply SFleb_refl; [eapply rounds_to_valid | eapply rounds_to_not_nan]; eauto.
    + destruct d as [sd|sd| |sd md ed]; try discriminate; [simpl in D; lra|].
      reflexivity.
Qed.

(** ** Primitive floats *)

Local Open Scope float_scope.

Lemma is_finite_SF x : is_finite x = finite_SF (Prim2SF x).
Proof.
  unfold is_finite, is_nan, is_infinity.
  rewrite !FloatAxioms.eqb_spec, abs_spec.
  pose proof (Prim2SF_valid x) as V.
  change (Prim2SF infinity) with (S754_infinity false).
  destruct (Prim2SF x) as [s|s| |s m e]; try (destruct s; reflexivity); try reflexivity.
  assert (E : SFeqb (S754_finite s m e) (S754_finite s m e) = true).
  { destruct (SFcompare_ok _ _ V V eq_refl eq_refl) as (c & C & R).
    unfold SFeqb. rewrite C. destruct c; simpl in R; try reflexivity; lra. }
  rewrite E. reflexivity.
Qed.

Lemma B2R_0 : B2R 0 = 0%R.
Proof. reflexivity. Qed.

Lemma B2R_1 : B2R 1 = 1%R.
Proof.
  unfold B2R. change (Prim2SF 1) with (S754_finite false (2 ^ 52) (-52)).
  rewrite SF2R_finite. simpl sgn.
  change (F2R (Z.pos (2 ^ 52)) (-52)) with (F2R (1 * 2 ^ 52) (0 - 52)).
  rewrite <- (F2R_shift 1 0 52) by lia.
  unfold F2R. rewrite bpow_0. lra.
Qed.

Section Prim.

Variables x y : float.
Hypothesis Fx : is_finite x = true.
Hypothesis Fy : is_finite y = true.

Lemma leb_le : (x <=? y) = true <-> (B2R x <= B2R y)%R.
Proof.
  rewrite leb_spec. rewrite is_finite_SF in Fx, Fy.
  apply SFleb_iff; auto using Prim2SF_valid.
Qed.

Lemma ltb_lt : (x <? y) = true <-> (B2R x < B2R y)%R.
Proof.
  rewrite ltb_spec. rewrite is_finite_SF in Fx, Fy.
  apply SFltb_iff; auto using Prim2SF_valid.
Qed.

Lemma add_rounds : rounds_to (B2R x + B2R y) (Prim2SF (x + y)).
Proof.
  rewrite add_spec. rewrite is_finite_SF in Fx, Fy.
  apply SFadd_rounds; auto using Prim2SF_valid.
Qed.

Lemma sub_rounds : rounds_to (B2R x - B2R y) (Prim2SF (x - y)).
Proof.
  rewrite sub_spec. rewrite is_finite_SF in Fx, Fy.
  apply SFsub_rounds; auto using Prim2SF_valid.
Qed.

Lemma mul_rounds : rounds_to (B2R x * B2R y) (Prim2SF (x * y)).
Proof.
  rewrite mul_spec. rewrite is_finite_SF in Fx, Fy.
  apply SFmul_rounds; auto using Prim2SF_valid.
Qed.

Lemma div_rounds : B2R y <> 0%R -> rounds_to (B2R x / B2R y) (Prim2SF (x / y)).
Proof.
  intros NZ. rewrite div_spec. rewrite is_finite_SF in Fx, Fy.
  apply SFdiv_rounds; auto using Prim2SF_valid.
Qed.

End Prim.

(** A float that a real rounds to lies above the finite floats below the
    real, and below those above it. *)
Lemma rounds_ge g x f :
  is_finite g = true -> rounds_to x (Prim2SF f) -> (B2R g <= x)%R -> (g <=? f) = true.
Proof.
  intros Fg R L. rewrite leb_spec. rewrite is_finite_SF in Fg.
  eapply rounds_ge_float; eauto using Prim2SF_valid.
Qed.

Lemma rounds_le g x f :
  is_finite g = true -> rounds_to x (Prim2SF f) -> (x <= B2R g)%R -> (f <=? g) = true.
Proof.
  intros Fg R L. rewrite leb_spec. rewrite is_finite_SF in Fg.
  eapply rounds_le_float; eauto using Prim2SF_valid.
Qed.

Lemma between_finite a f b :
  is_finite a = true -> is_finite b = true ->
  (a <=? f) = true -> (f <=? b) = true -> is_finite f = true.
Proof.
  rewrite !is_finite_SF, !leb_spec. apply SFleb_between.
Qed.

Lemma finite_0 : is_finite 0 = true.
Proof. reflexivity. Qed.

Lemma finite_1 : is_finite 1 = true.
Proof. reflexivity. Qed.

Theorem add_mono a b1 b2 :
  is_finite a = true -> is_finite b1 = true -> is_finite b2 = true ->
  (b1 <=? b2) = true -> (a + b1 <=? a + b2) = true.
Proof.
  intros Fa F1 F2 L. apply (leb_le _ _ F1 F2) in L.
  rewrite leb_spec, !add_spec. rewrite is_finite_SF in Fa, F1, F2.
  apply SFadd_mono; auto using Prim2SF_valid.
Qed.

Theorem mul_mono a b1 b2 :
  is_finite a = true -> is_finite b1 = true -> is_finite b2 = true ->
  (0 <=? a) = true -> (b1 <=? b2) = true -> (a * b1 <=? a * b2) = true.
Proof.
  intros Fa F1 F2 A L. apply (leb_le _ _ F1 F2) in L.
  apply (leb_le _ _ finite_0 Fa) in A. rewrite B2R_0 in A.
  rewrite leb_spec, !mul_spec. rewrite is_finite_SF in Fa, F1, F2.
  apply SFmul_mono; auto using Prim2SF_valid.
Qed.

Theorem div_mono n1 n2 d :
  is_finite n1 = true -> is_finite n2 = true -> is_finite d = true ->
  (0 <? d) = true -> (n1 <=? n2) = true -> (n1 / d <=? n2 / d) = true.
Proof.
  intros F1 F2 Fd D L. apply (leb_le _ _ F1 F2) in L.
  apply (ltb_lt _ _ finite_0 Fd) in D. rewrite B2R_0 in D.
  rewrite leb_spec, !div_spec. rewrite is_finite_SF in F1, F2, Fd.
  apply SFdiv_mono; auto using Prim2SF_valid.
Qed.

(** The quotient of [0 <= n <= d] lies in [[0, 1]]. *)
Theorem div_unit n d :
  is_finite n = true -> is_finite d = true ->
  (0 <=? n) = true -> (n <=? d) = true -> (0 <? d) = true ->
  (0 <=? n / d) = true /\ (n / d <=? 1) = true.
Proof.
  intros Fn Fd N0 Nd D.
  apply (leb_le _ _ finite_0 Fn) in N0. apply (leb_le _ _ Fn Fd) in Nd.
  apply (ltb_lt _ _ finite_0 Fd) in D. rewrite B2R_0 in *.
  pose proof (div_rounds n d Fn Fd ltac:(lra)) as R.
  assert (Q : (0 <= B2R n / B2R d <= 1)%R).
  { split.
    - apply Rmult_le_pos; [lra | left; apply Rinv_0_lt_compat; lra].
    - apply Rmult_le_reg_r with (B2R d); [lra|]. unfold Rdiv.
      rewrite Rmult_assoc, Rinv_l by lra. lra. }
  split.
  - eapply rounds_ge; eauto using finite_0. rewrite B2R_0. lra.
  - eapply rounds_le; eauto using finite_1. rewrite B2R_1. lra.
Qed.

(** The product of [0 <= w] and [q] in [[0, 1]] lies in [[0, w]]. *)
Theorem mul_unit w q :
  is_finite w = true -> (0 <=? w) = true ->
  (0 <=? q) = true -> (q <=? 1) = true ->
  (0 <=? w * q) = true /\ (w * q <=? w) = true.
Proof.
  intros Fw W0 Q0 Q1.
  pose proof (between_finite _ _ _ finite_0 finite_1 Q0 Q1) as Fq.
  apply (leb_le _ _ finite_0 Fw) in W0. apply (leb_le _ _ finite_0 Fq) in Q0.
  apply (leb_le _ _ Fq finite_1) in Q1. rewrite B2R_0, ?B2R_1 in *.
  pose proof (mul_rounds w q Fw Fq) as R.
  split.
  - eapply rounds_ge; eauto using finite_0. rewrite B2R_0. nra.
  - eapply rounds_le; eauto. nra.
Qed.

Theorem sub_nonneg lo hi :
  is_finite lo = true -> is_finite hi = true -> (lo <=? hi) = true ->
  (0 <=? hi - lo) = true.
Proof.
  intros Fl Fh L. apply (leb_le _ _ Fl Fh) in L.
  eapply rounds_ge; eauto using finite_0, sub_rounds. rewrite B2R_0. lra.
Qed.

Theorem add_nonneg lo p :
  is_finite lo = true -> is_finite p = true -> (0 <=? p) = true ->
  (lo <=? lo + p) = true.
Proof.
  intros Fl Fp P. apply (leb_le _ _ finite_0 Fp) in P. rewrite B2R_0 in P.
  eapply rounds_ge; eauto using add_rounds. lra.
Qed.

(** ** Exact cases: zero numerators, equal operands, the factor one *)

Lemma eqb_zero_inv z : (z =? 0) = true -> exists s, Prim2SF z = S754_zero s.
Proof.
  rewrite FloatAxioms.eqb_spec. change (Prim2SF 0) with (S754_zero false).
  destruct (Prim2SF z) as [s|s| |s m e]; try (destruct s; discriminate); try discriminate.
  eauto.
Qed.

Lemma eqb_zero_false d :
  is_finite d = true -> (d =? 0) = false ->
  exists s m e, Prim2SF d = S754_finite s m e.
Proof.
  rewrite is_finite_SF, FloatAxioms.eqb_spec. change (Prim2SF 0) with (S754_zero false).
  destruct (Prim2SF d) as [s|s| |s m e]; try discriminate; eauto.
Qed.

Lemma nonzero_value d :
  is_finite d = true -> (d =? 0) = false -> B2R d <> 0%R.
Proof.
  intros Fd NZ. destruct (eqb_zero_false d Fd NZ) as (s & m & e & E).
  unfold B2R. rewrite E, SF2R_finite. pose proof (F2R_pos_gt_0 m e).
  destruct s; simpl; lra.
Qed.

Lemma same_value_eq a b :
  is_finite a = true -> is_finite b = true -> B2R a = B2R b -> B2R b <> 0%R -> a = b.
Proof.
  intros Fa Fb E NZ. rewrite is_finite_SF in Fa, Fb. apply Prim2SF_inj.
  destruct (SF2R_inj _ _ (Prim2SF_valid a) (Prim2SF_valid b) Fa Fb E)
    as [H | (sa & sb & Ha & Hb)]; [exact H|].
  exfalso. apply NZ. unfold B2R. rewrite Hb. reflexivity.
Qed.

Theorem div_same d : is_finite d = true -> (d =? 0) = false -> d / d = 1.
Proof.
  intros Fd NZ. pose proof (nonzero_value d Fd NZ) as V.
  pose proof (div_rounds d d Fd Fd V) as R.
  replace (B2R d / B2R d)%R with 1%R in R by (field; exact V).
  assert (L1 : (1 <=? d / d) = true)
    by (eapply rounds_ge; eauto using finite_1; rewrite B2R_1; lra).
  assert (L2 : (d / d <=? 1) = true)
    by (eapply rounds_le; eauto using finite_1; rewrite B2R_1; lra).
  pose proof (between_finite _ _ _ finite_1 finite_1 L1 L2) as Fq.
  apply (leb_le _ _ finite_1 Fq) in L1. apply (leb_le _ _ Fq finite_1) in L2.
  apply same_value_eq; auto using finite_1; rewrite ?B2R_1 in *; lra.
Qed.

Theorem mul_one w : is_finite w = true -> w * 1 = w.
Proof.
  intros Fw. apply Prim2SF_inj. rewrite mul_spec.
  pose proof (Prim2SF_valid w) as V. pose proof Fw as Fw'. rewrite is_finite_SF in Fw'.
  destruct (Prim2SF w) as [s|s| |s m e] eqn:E; try discriminate.
  - change (Prim2SF 1) with (S754_finite false (2 ^ 52) (-52)). simpl. now destruct s.
  - pose proof (mul_rounds w 1 Fw finite_1) as R. rewrite mul_spec, E in R.
    rewrite B2R_1, Rmult_1_r in R. unfold B2R in R. rewrite E in R.
    assert (L1 : SFleb (S754_finite s m e) (SF64mul (S754_finite s m e) (Prim2SF 1)) = true)
      by (eapply rounds_ge_float; eauto; lra).
    assert (L2 : SFleb (SF64mul (S754_finite s m e) (Prim2SF 1)) (S754_finite s m e) = true)
      by (eapply rounds_le_float; eauto; lra).
    pose proof (SFleb_between (S754_finite s m e) _ (S754_finite s m e) eq_refl eq_refl L1 L2) as Fp.
    pose proof (rounds_to_valid _ _ R) as Vp.
    apply SFleb_iff in L1; auto. apply SFleb_iff in L2; auto.
    destruct (SF2R_inj _ _ Vp V Fp eq_refl ltac:(lra)) as [H | (sa & sb & _ & Hb)];
      [exact H | discriminate].
Qed.

(** With a zero numerator the result is the lower bound, up to the sign of a
    zero. *)
Theorem zero_numerator z d lo w :
  (z =? 0) = true -> is_finite d = true -> (d =? 0) = false ->
  is_finite lo = true -> is_finite w = true ->
  (lo + w * (z / d) =? lo) = true.
Proof.
  intros Z Fd NZ Fl Fw.
  destruct (eqb_zero_inv z Z) as (sz & Ez).
  destruct (eqb_zero_false d Fd NZ) as (sd & md & ed & Ed).
  rewrite is_finite_SF in Fl, Fw. pose proof (Prim2SF_valid lo) as Vl.
  rewrite FloatAxioms.eqb_spec, add_spec, mul_spec, div_spec, Ez, Ed.
  simpl SF64div.
  destruct (Prim2SF w) as [sw|sw| |sw mw ew]; try discriminate; simpl SF64mul;
    destruct (Prim2SF lo) as [sl|sl| |sl ml el]; try discriminate.
  1, 3: destruct sl, (xorb _ _); reflexivity.
  all: simpl SF64add;
    destruct (SFcompare_ok _ _ Vl Vl eq_refl eq_refl) as (c & C & R);
    unfold SFeqb; rewrite C; destruct c; simpl in R; try reflexivity; lra.
Qed.


End Rounding.

(** ** The decoder never runs out of fuel

    Each step of the decoder returns a text shorter than the one it was
    given, so the bound [json_loads] puts on the recursion is never reached. *)

Section Fuel.

Local Open Scope nat_scope.

Lemma lstrip_length sp s : String.length (lstrip_with sp s) <= String.length s.
Proof.
  induction s as [|c s IH]; simpl; [lia|].
  destruct (sp c); simpl; lia.
Qed.

Lemma strip_prefix_length p : forall s r,
  strip_prefix p s = Some r -> String.length r + String.length p = String.length s.
Proof.
  induction p as [|a p IH]; intros s r; simpl.
  - intros [= ->]. lia.
  - destruct s as [|b s]; [discriminate|].
    destruct (Ascii.eqb a b); [|discriminate].
    intros H. apply IH in H. simpl. lia.
Qed.

Lemma read_digits_length s : forall acc n a k r,
  read_digits acc n s = (a, k, r) ->
  String.length r <= String.length s /\ (k - n)%Z = Z.of_nat (String.length s - String.length r).
Proof.
  induction s as [|c s IH]; intros acc n a k r; cbn [read_digits].
  - intros [= <- <- <-]. split; [lia|]. rewrite Nat.sub_diag. lia.
  - destruct (isdigit c).
    + intros H. apply IH in H. destruct H as [H1 H2]. cbn [String.length].
      split; [lia|]. replace (S (String.length s) - String.length r) with (S (String.length s - String.length r)) by lia. lia.
    + intros [= <- <- <-]. split; [lia|]. rewrite Nat.sub_diag. lia.
Qed.

Lemma read_sign_length s b r : read_sign s = (b, r) -> String.length r <= String.length s.
Proof.
  unfold read_sign. destruct s as [|c s]; [intros [= <- <-]; lia|].
  destruct c as [[] [] [] [] [] [] [] []]; intros [= <- <-]; simpl; lia.
Qed.

Lemma scan_number_length s v r : scan_number s = Some (v, r) -> String.length r < String.length s.
Proof.
  unfold scan_number.
  destruct (match s with String "-" r0 => (true, r0) | _ => (false, s) end)
    as [neg s0] eqn:E0.
  assert (L0 : String.length s0 <= String.length s).
  { destruct s as [|c s']; [injection E0 as <- <-; lia|].
    destruct c as [[] [] [] [] [] [] [] []]; injection E0 as <- <-; simpl; lia. }
  destruct s0 as [|c r0]; [discriminate|].
  assert (I : exists m1 s1, (if Ascii.eqb c "0" then Some (0%Z, r0)
                             else if isdigit c
                                  then let '(m, _, r') := read_digits 0 0 (String c r0) in Some (m, r')
                                  else None) = Some (m1, s1) /\ String.length s1 <= String.length r0
              \/ (if Ascii.eqb c "0" then Some (0%Z, r0)
                  else if isdigit c
                       then let '(m, _, r') := read_digits 0 0 (String c r0) in Some (m, r')
                       else None) = None).
  { destruct (Ascii.eqb c "0").
    - exists 0%Z, r0. left. split; [reflexivity | lia].
    - destruct (isdigit c) eqn:D.
      + destruct (read_digits 0 0 (String c r0)) as [[m k] r'] eqn:R.
        exists m, r'. left. split; [reflexivity|].
        simpl in R. rewrite D in R. apply read_digits_length in R. lia.
      + exists 0%Z, r0. right. reflexivity. }
  destruct I as (m1 & s1 & [[-> L1] | ->]); [|discriminate].
  destruct (match s1 with
            | String "." r1 =>
                let '(m, n, r') := read_digits m1 0 r1 in
                if (0 <? n)%Z then (m, n, r') else (m1, 0%Z, s1)
            | _ => (m1, 0%Z, s1)
            end) as [[m2 n2] s2] eqn:E2.
  assert (L2 : String.length s2 <= String.length s1).
  { destruct s1 as [|c1 r1]; [injection E2 as <- <- <-; lia|].
    destruct c1 as [[] [] [] [] [] [] [] []]; try (injection E2 as <- <- <-; simpl; lia).
    destruct (read_digits m1 0 r1) as [[m n] r'] eqn:R.
    apply read_digits_length in R.
    destruct (0 <? n)%Z; injection E2 as <- <- <-; simpl; lia. }
  destruct (match s2 with
            | String c2 r2 =>
                if Ascii.eqb c2 "e" || Ascii.eqb c2 "E"
                then let '(eneg, r3) := read_sign r2 in
                     let '(v0, n, r4) := read_digits 0 0 r3 in
                     if (0 <? n)%Z then (if eneg then (- v0)%Z else v0, true, r4)
                     else (0%Z, false, s2)
                else (0%Z, false, s2)
            | EmptyString => (0%Z, false, s2)
            end) as [[ev has_exp] s3] eqn:E3.
  assert (L3 : String.length s3 <= String.length s2).
  { destruct s2 as [|c2 r2]; [injection E3 as <- <- <-; lia|].
    destruct (Ascii.eqb c2 "e" || Ascii.eqb c2 "E"); [|injection E3 as <- <- <-; lia].
    destruct (read_sign r2) as [eneg r3] eqn:S. apply read_sign_length in S.
    destruct (read_digits 0 0 r3) as [[v0 n] r4] eqn:R. apply read_digits_length in R.
    destruct (0 <? n)%Z; injection E3 as <- <- <-; simpl; lia. }
  destruct ((0 <? n2)%Z || has_exp); intros [= <- <-]; simpl in *; lia.
Qed.

Lemma scanstring_length_aux n : forall s t r,
  String.length s <= n -> scanstring s = Some (t, r) -> String.length r < String.length s.
Proof.
  assert (M : forall (f : string * string -> string * string) o t r (k : nat),
    (forall p, snd (f p) = snd p) ->
    (forall t' r', o = Some (t', r') -> String.length r' < k) ->
    option_map f o = Some (t, r) -> String.length r < k).
  { intros f o t r k Hf Ho. destruct o as [[t' r']|]; [|discriminate].
    simpl. intros [= E]. specialize (Hf (t', r')). rewrite E in Hf. simpl in Hf.
    subst r. eauto. }
  induction n as [|n IH]; intros s t r L; destruct s as [|c s']; simpl in L;
    try discriminate; try lia.
  cbn [scanstring].
  destruct (Ascii.eqb c quote); [intros [= <- <-]; simpl; lia|].
  destruct (Ascii.eqb c backslash).
  - destruct s' as [|e s'']; [discriminate|].
    destruct (Ascii.eqb e "u").
    + destruct s'' as [|h1 [|h2 [|h3 [|h4 r0]]]]; try discriminate.
      destruct (hex4 h1 h2 h3 h4) as [u|]; [|discriminate].
      destruct (if is_high_surrogate u then low_surrogate r0 else None) as [[v r']|].
      * destruct r0 as [|g1 [|g2 [|g3 [|g4 [|g5 [|g6 r2]]]]]]; try discriminate.
        apply M; [intros [? ?]; reflexivity|].
        intros t' r'' E. apply IH in E; simpl in *; lia.
      * apply M; [intros [? ?]; reflexivity|].
        intros t' r'' E. apply IH in E; simpl in *; lia.
    + destruct (simple_escape e); [|discriminate].
      apply M; [intros [? ?]; reflexivity|].
      intros t' r'' E. apply IH in E; simpl in *; lia.
  - destruct (code c <? 32)%N; [discriminate|].
    apply M; [intros [? ?]; reflexivity|].
    intros t' r'' E. apply IH in E; simpl in *; lia.
Qed.

Lemma scanstring_length s t r : scanstring s = Some (t, r) -> String.length r < String.length s.
Proof. apply (scanstring_length_aux (String.length s)). lia. Qed.

Lemma scan_constant_length s v r : scan_constant s = Some (v, r) -> String.length r < String.length s.
Proof.
  unfold scan_constant.
  repeat match goal with
  | |- context [strip_prefix ?p s] =>
      let E := fresh "E" in
      destruct (strip_prefix p s) eqn:E;
      [apply strip_prefix_length in E; simpl in E; intros [= <- <-]; lia|]
  end.
  apply scan_number_length.
Qed.

(** What a step returns is shorter than what it was given. *)
Lemma scan_length fuel :
  (forall s v r, scan_once fuel s = Ok (v, r) -> String.length r < String.length s) /\
  (forall acc s v r, parse_object fuel acc s = Ok (v, r) -> String.length r < String.length s) /\
  (forall acc s v r, parse_array fuel acc s = Ok (v, r) -> String.length r < String.length s).
Proof.
  induction fuel as [|f (IHs & IHo & IHa)]; [repeat split; discriminate|].
  repeat split.
  - intros s v r. cbn [scan_once]. destruct s as [|c r0]; [discriminate|].
    destruct (Ascii.eqb c quote).
    { destruct (scanstring r0) as [[t rest]|] eqn:E; [|discriminate].
      apply scanstring_length in E. simpl. intros [= <- <-]. lia. }
    pose proof (lstrip_length json_ws r0) as W. fold (skip_ws r0) in W.
    destruct (Ascii.eqb c "{").
    { destruct (skip_ws r0) as [|c1 r1] eqn:K.
      - intros H. apply IHo in H. simpl in *. lia.
      - assert (D : forall v r, parse_object f [] (String c1 r1) = Ok (v, r) ->
                      String.length r < S (String.length r0)).
        { intros v' r' H. apply IHo in H. simpl in *. lia. }
        destruct c1 as [[] [] [] [] [] [] [] []]; try apply D.
        intros [= <- <-]. simpl in *. lia. }
    destruct (Ascii.eqb c "[").
    { destruct (skip_ws r0) as [|c1 r1] eqn:K.
      - intros H. apply IHa in H. simpl in *. lia.
      - assert (D : forall v r, parse_array f [] (String c1 r1) = Ok (v, r) ->
                      String.length r < S (String.length r0)).
        { intros v' r' H. apply IHa in H. simpl in *. lia. }
        destruct c1 as [[] [] [] [] [] [] [] []]; try apply D.
        intros [= <- <-]. simpl in *. lia. }
    destruct (scan_constant (String c r0)) as [[v' r']|] eqn:E; [|discriminate].
    apply scan_constant_length in E. cbn [of_option bind]. simpl in E.
    destruct v'; try (intros [= <- <-]; simpl; lia).
    destruct (parse_int (String c r0) z); [|discriminate].
    cbn [bind]. intros [= <- <-]. simpl. lia.
  - intros acc s v r. cbn [parse_object]. destruct s as [|c r0]; [discriminate|].
    destruct (Ascii.eqb c quote); [|discriminate].
    destruct (scanstring r0) as [[key r1]|] eqn:E; [|discriminate].
    apply scanstring_length in E. cbn [of_option bind].
    pose proof (lstrip_length json_ws r1) as W1. fold (skip_ws r1) in W1.
    destruct (skip_ws r1) as [|c1 r2]; [discriminate|].
    destruct (Ascii.eqb c1 ":") eqn:C1;
      [apply Ascii.eqb_eq in C1; subst c1
      |destruct c1 as [[] [] [] [] [] [] [] []]; try discriminate C1; discriminate].
    pose proof (lstrip_length json_ws r2) as W2. fold (skip_ws r2) in W2.
    destruct (scan_once f (skip_ws r2)) as [[v3 r3]|e] eqn:E3; [|discriminate].
    apply IHs in E3. cbn [bind].
    pose proof (lstrip_length json_ws r3) as W3. fold (skip_ws r3) in W3.
    destruct (skip_ws r3) as [|c3 r4]; [discriminate|].
    pose proof (lstrip_length json_ws r4) as W4. fold (skip_ws r4) in W4.
    assert (D : forall v r, parse_object f (dict_set key v3 acc) (skip_ws r4) = Ok (v, r) ->
                  String.length r < S (String.length r0)).
    { intros v' r' H. apply IHo in H. simpl in *. lia. }
    destruct c3 as [[] [] [] [] [] [] [] []]; try discriminate; try apply D.
    intros [= <- <-]. simpl in *. lia.
  - intros acc s v r. cbn [parse_array].
    destruct (scan_once f s) as [[v1 r1]|e] eqn:E1; [|discriminate].
    apply IHs in E1. cbn [bind].
    pose proof (lstrip_length json_ws r1) as W1. fold (skip_ws r1) in W1.
    destruct (skip_ws r1) as [|c1 r2]; [discriminate|].
    pose proof (lstrip_length json_ws r2) as W2. fold (skip_ws r2) in W2.
    assert (D : forall v r, parse_array f (acc ++ [v1])%list (skip_ws r2) = Ok (v, r) ->
                  String.length r < String.length s).
    { intros v' r' H. apply IHa in H. simpl in *. lia. }
    destruct c1 as [[] [] [] [] [] [] [] []]; try discriminate; try apply D.
    intros [= <- <-]. simpl in *. lia.
Qed.

(** Fuel above twice the length of the text is never used up: a value costs
    one unit, and each element of an array one more. *)
Lemma scan_fuel fuel :
  (forall s, 2 * String.length s < fuel -> scan_once fuel s <> Raise RecursionError) /\
  (forall acc s, 2 * String.length s < fuel -> parse_object fuel acc s <> Raise RecursionError) /\
  (forall acc s, 2 * String.length s + 1 < fuel -> parse_array fuel acc s <> Raise RecursionError).
Proof.
  induction fuel as [|f (IHs & IHo & IHa)]; [repeat split; intros; lia|].
  repeat split.
  - intros s L. cbn [scan_once]. destruct s as [|c r0]; [discriminate|].
    simpl in L.
    destruct (Ascii.eqb c quote).
    { destruct (scanstring r0) as [[t rest]|]; discriminate. }
    pose proof (lstrip_length json_ws r0) as W. fold (skip_ws r0) in W.
    destruct (Ascii.eqb c "{").
    { assert (D : parse_object f [] (skip_ws r0) <> Raise RecursionError)
        by (apply IHo; lia).
      destruct (skip_ws r0) as [|c1 r1]; [exact D|].
      destruct c1 as [[] [] [] [] [] [] [] []]; try exact D. discriminate. }
    destruct (Ascii.eqb c "[").
    { assert (D : parse_array f [] (skip_ws r0) <> Raise RecursionError)
        by (apply IHa; lia).
      destruct (skip_ws r0) as [|c1 r1]; [exact D|].
      destruct c1 as [[] [] [] [] [] [] [] []]; try exact D. discriminate. }
    destruct (scan_constant (String c r0)) as [[v' r']|]; [|discriminate].
    cbn [of_option bind]. destruct v'; try discriminate.
    unfold parse_int.
    destruct (read_digits 0 0 _) as [[m n] r'']. destruct (4300 <? n)%Z; discriminate.
  - intros acc s L. cbn [parse_object]. destruct s as [|c r0]; [discriminate|].
    simpl in L.
    destruct (Ascii.eqb c quote); [|discriminate].
    destruct (scanstring r0) as [[key r1]|] eqn:E; [|discriminate].
    apply scanstring_length in E. cbn [of_option bind].
    pose proof (lstrip_length json_ws r1) as W1. fold (skip_ws r1) in W1.
    destruct (skip_ws r1) as [|c1 r2]; [discriminate|].
    destruct (Ascii.eqb c1 ":") eqn:C1;
      [apply Ascii.eqb_eq in C1; subst c1
      |destruct c1 as [[] [] [] [] [] [] [] []]; try discriminate C1; discriminate].
    pose proof (lstrip_length json_ws r2) as W2. fold (skip_ws r2) in W2.
    simpl in W1.
    assert (D3 : scan_once f (skip_ws r2) <> Raise RecursionError) by (apply IHs; lia).
    destruct (scan_once f (skip_ws r2)) as [[v3 r3]|e] eqn:E3;
      [|cbn [bind]; congruence].
    apply (proj1 (scan_length f)) in E3. cbn [bind].
    pose proof (lstrip_length json_ws r3) as W3. fold (skip_ws r3) in W3.
    destruct (skip_ws r3) as [|c3 r4]; [discriminate|].
    pose proof (lstrip_length json_ws r4) as W4. fold (skip_ws r4) in W4.
    simpl in W3.
    assert (D : parse_object f (dict_set key v3 acc) (skip_ws r4) <> Raise RecursionError)
      by (apply IHo; lia).
    destruct c3 as [[] [] [] [] [] [] [] []]; try discriminate; exact D.
  - intros acc s L. cbn [parse_array].
    assert (D1 : scan_once f s <> Raise RecursionError) by (apply IHs; lia).
    destruct (scan_once f s) as [[v1 r1]|e] eqn:E1; [|cbn [bind]; congruence].
    apply (proj1 (scan_length f)) in E1. cbn [bind].
    pose proof (lstrip_length json_ws r1) as W1. fold (skip_ws r1) in W1.
    destruct (skip_ws r1) as [|c1 r2]; [discriminate|].
    pose proof (lstrip_length json_ws r2) as W2. fold (skip_ws r2) in W2.
    simpl in W1.
    assert (D : parse_array f (acc ++ [v1])%list (skip_ws r2) <> Raise RecursionError)
      by (apply IHa; lia).
    destruct c1 as [[] [] [] [] [] [] [] []]; try discriminate; exact D.
Qed.

(** [json_loads] never stops for lack of fuel. *)
Theorem json_loads_fuel s : json_loads s <> Raise RecursionError.
Proof.
  unfold json_loads.
  pose proof (lstrip_length json_ws s) as W. fold (skip_ws s) in W.
  assert (D : scan_once (S (2 * String.length s)) (skip_ws s) <> Raise RecursionError)
    by (apply (proj1 (scan_fuel _)); lia).
  destruct (scan_once (S (2 * String.length s)) (skip_ws s)) as [[v r]|e];
    [|cbn [bind]; congruence].
  cbn [bind]. destruct (skip_ws r); discriminate.
Qed.

End Fuel.

(** ** Strings and the rescaling step *)

(** [str.strip] removes the white space of Unicode, and not the zero-width
    space, U+200B, which is none. *)
Example strip_unicode :
  strip (nbsp ++ "{}" ++ ideographic_space ++ chr 10) = "{}" /\
  strip (chr 28 ++ "{}" ++ utf8 133) = "{}" /\
  strip (utf8 8203 ++ "{}") = utf8 8203 ++ "{}".
Proof. repeat split; vm_compute; reflexivity. Qed.

(** [float] reads the decimal digits of Unicode (here the fullwidth four and
    the Arabic-Indic five) and trims its white space; a superscript two is no
    decimal digit. *)
Example float_unicode :
  float_of_string (utf8 65300 ++ "." ++ utf8 1637) = Some 4.5%float /\
  float_of_string (nbsp ++ "4" ++ ideographic_space) = Some 4%float /\
  float_of_string (utf8 178) = None.
Proof. repeat split; vm_compute; reflexivity. Qed.

(** [json.loads] leaves an integer literal of more than 4300 digits to [int],
    which refuses it. *)
Example long_integer_refused :
  json_loads (String "1" (Prompting.times 4300 "0")) = Raise ValueError /\
  json_loads (String "1" (Prompting.times 4299 "0")) = Ok (VInt (10 ^ 4299)).
Proof. split; vm_compute; reflexivity. Qed.

Lemma split_no_sep (c : ascii) (s : string) :
  contains c s = false -> split s c = [s].
Proof.
  induction s as [|a s IH]; simpl; [reflexivity|].
  intros H. apply orb_false_iff in H as [Ha Hs].
  rewrite Ha, (IH Hs). reflexivity.
Qed.

Lemma split_at_sep (c : ascii) (n d : string) :
  contains c n = false -> split (n ++ String c d) c = n :: split d c.
Proof.
  induction n as [|a n IH]; simpl.
  - intros _. rewrite Ascii.eqb_refl. reflexivity.
  - intros H. apply orb_false_iff in H as [Ha Hn].
    rewrite Ha, (IH Hn). reflexivity.
Qed.

Lemma split_one_slash (n d : string) :
  contains "/" n = false -> contains "/" d = false ->
  split (n ++ "/" ++ d) "/" = [n; d].
Proof.
  intros Hn Hd. simpl. rewrite (split_at_sep _ _ _ Hn), (split_no_sep _ _ Hd).
  reflexivity.
Qed.

Lemma split_cases (s : string) (c : ascii) :
  (exists p0, split s c = [p0]) \/ (exists p0 p1 rest, split s c = p0 :: p1 :: rest).
Proof.
  induction s as [|a s IH]; simpl.
  - left. eauto.
  - destruct (Ascii.eqb a c).
    + right. destruct IH as [[p0 ->] | (p0 & p1 & rest & ->)]; eauto.
    + destruct IH as [[p0 ->] | (p0 & p1 & rest & ->)]; [left | right]; eauto.
Qed.

Lemma float_ok (s : string) (x : float) : float_of_string s = Some x -> float_ s = Ok x.
Proof. unfold float_. now intros ->. Qed.

Lemma float_ok_inv (s : string) (x : float) : float_ s = Ok x -> float_of_string s = Some x.
Proof. unfold float_. destruct (float_of_string s); congruence. Qed.

Lemma sub_zero_r (x : float) : (x - 0)%float = x.
Proof.
  apply Prim2SF_inj. rewrite sub_spec.
  change (Prim2SF 0) with (S754_zero false).
  destruct (Prim2SF x) as [[|]| | |]; reflexivity.
Qed.

Lemma rescale_ok (x b lo hi : float) :
  PrimFloat.eqb b 0 = false -> rescale x 0 b lo hi = Ok (formula x 0 b lo hi).
Proof.
  intros H. unfold rescale, truediv, formula. rewrite (sub_zero_r b), H.
  reflexivity.
Qed.

Lemma rescale_zero (x b lo hi : float) :
  PrimFloat.eqb b 0 = true -> rescale x 0 b lo hi = Raise ZeroDivisionError.
Proof. intros H. unfold rescale, truediv. rewrite (sub_zero_r b), H. reflexivity. Qed.

Lemma rescaled_accepts row key lo hi s p0 p1 rest x b :
  getitem row key = Ok (VStr s) ->
  split s "/" = p0 :: p1 :: rest ->
  float_of_string p0 = Some x -> float_of_string p1 = Some b ->
  PrimFloat.eqb b 0 = false ->
  rescaled row key lo hi = Ok (formula x 0 b lo hi).
Proof.
  intros G S X B Z. unfold rescaled. rewrite G. simpl. rewrite S. simpl.
  rewrite (float_ok _ _ X), (float_ok _ _ B). simpl. now apply rescale_ok.
Qed.

Lemma rescaled_rejects row key lo hi s :
  getitem row key = Ok (VStr s) -> ~ well_formed s -> raises (rescaled row key lo hi).
Proof.
  intros G W. unfold rescaled. rewrite G. simpl.
  destruct (split_cases s "/") as [[p0 S] | (p0 & p1 & rest & S)]; rewrite S; simpl.
  - destruct (float_ p0); simpl; red; eauto.
  - destruct (float_ p0) as [x|e] eqn:X; simpl; [|red; eauto].
    destruct (float_ p1) as [b|e] eqn:B; simpl; [|red; eauto].
    destruct (PrimFloat.eqb b 0) eqn:Z.
    + rewrite (rescale_zero _ _ _ _ Z). red; eauto.
    + exfalso. apply W. exists p0, p1, rest, x, b.
      auto using float_ok_inv.
Qed.

Lemma rescaled_ok_inv row key lo hi r :
  rescaled row key lo hi = Ok r ->
  exists v, getitem row key = Ok v.
Proof. unfold rescaled. intros H. inv_bind H. eauto. Qed.

Lemma json_loads_blank : json_loads "" = Raise JSONDecodeError.
Proof. reflexivity. Qed.

Lemma getitem_truthy row k v : getitem row k = Ok v -> truthy row = true.
Proof.
  destruct row; simpl; try discriminate.
  destruct d; simpl; [discriminate | reflexivity].
Qed.

Section Runs.
Variable repr : value -> string.
Variable args : Args.

Lemma loop_app pre post t :
  loop repr args (pre ++ post) t = (t1 <- loop repr args pre t ;; loop repr args post t1).
Proof.
  revert t. induction pre as [|l pre IH]; intros t; simpl; [reflexivity|].
  destruct (process_line repr args l t); simpl; [apply IH | reflexivity].
Qed.

Lemma rows_of_cons line fp :
  rows_of (line :: fp) =
  (match json_loads (strip line) with
   | Ok row => if truthy row then [row] else []
   | Raise _ => []
   end ++ rows_of fp)%list.
Proof. reflexivity. Qed.

Lemma aligned_app rows1 ds1 us1 is1 rows2 ds2 us2 is2 :
  aligned repr args rows1 ds1 us1 is1 -> aligned repr args rows2 ds2 us2 is2 ->
  aligned repr args (rows1 ++ rows2) (ds1 ++ ds2) (us1 ++ us2) (is1 ++ is2).
Proof. induction 1; intros; simpl; [assumption | constructor; auto]. Qed.

Lemma loop_aligned fp : forall t t',
  loop repr args fp t = Ok t' ->
  exists ds us is_,
    aligned repr args (rows_of fp) ds us is_ /\
    data t' = (data t ++ ds)%list /\ users t' = (users t ++ us)%list /\
    items t' = (items t ++ is_)%list.
Proof.
  induction fp as [|line fp IH]; intros t t' H; simpl in H.
  - injection H as <-. exists [], [], []. rewrite !app_nil_r.
    repeat split; constructor.
  - inv_bind H. apply process_line_inv in E as (row & J & [[F ->] | (T & u & i & s & B & ->)]).
    + destruct (IH _ _ H) as (ds & us & is_ & A & D & U & I).
      exists ds, us, is_. rewrite rows_of_cons, J, F. auto.
    + destruct (IH _ _ H) as (ds & us & is_ & A & D & U & I). simpl in D, U, I.
      exists (s :: ds), (u :: us), (i :: is_). rewrite rows_of_cons, J, T.
      rewrite <- app_assoc in D, U, I.
      repeat split; try assumption. simpl. constructor; assumption.
Qed.

Lemma aligned_length rows ds us is_ :
  aligned repr args rows ds us is_ ->
  List.length ds = List.length rows /\ List.length us = List.length rows /\
  List.length is_ = List.length rows.
Proof. induction 1; simpl; [auto | intuition congruence]. Qed.

Lemma aligned_nth rows ds us is_ :
  aligned repr args rows ds us is_ ->
  forall n row, nth_error rows n = Some row ->
  exists s u i, nth_error ds n = Some s /\ nth_error us n = Some u /\
                nth_error is_ n = Some i /\ built_from repr args row u i s.
Proof.
  induction 1; intros n r Hn; destruct n; simpl in Hn; try discriminate.
  - injection Hn as <-. simpl. eauto 8.
  - simpl. eauto.
Qed.

(** On a run that completes, the kept rows are the non-empty lines. *)
Lemma loop_counts fp : forall t t',
  loop repr args fp t = Ok t' -> List.length (rows_of fp) = non_empty_lines fp.
Proof.
  unfold non_empty_lines.
  induction fp as [|line fp IH]; intros t t' H; simpl in H; [reflexivity|].
  inv_bind H. specialize (IH _ _ H).
  apply process_line_inv in E as (row & J & _).
  rewrite rows_of_cons, length_app, IH. simpl. unfold empty_line. rewrite J.
  assert (S : String.eqb (strip line) "" = false).
  { destruct (String.eqb_spec (strip line) ""); [|reflexivity].
    rewrite e, json_loads_blank in J. discriminate. }
  rewrite S. simpl. destruct (truthy row); reflexivity.
Qed.

Lemma process_dataset_ok fp effs t :
  process_dataset repr args fp = (effs, Ok t) ->
  loop repr args fp init = Ok t /\
  effs = [Makedirs (join (output_base_dir args) (dataset_name args));
          ToCsv (join (join (output_base_dir args) (dataset_name args)) "data.csv") (data t);
          ToCsv (join (join (output_base_dir args) (dataset_name args)) "users.csv") (users t);
          ToCsv (join (join (output_base_dir args) (dataset_name args)) "items.csv") (items t)].
Proof.
  unfold process_dataset. fold init.
  destruct (makedirs _); [|discriminate].
  destruct (loop repr args fp init); [|discriminate].
  repeat (destruct (to_csv _ _); [|discriminate]).
  intros H; inversion H; subst; auto.
Qed.

(** The run reads the file through the loop only. *)
Lemma process_dataset_loop fp1 fp2 :
  loop repr args fp1 init = loop repr args fp2 init ->
  process_dataset repr args fp1 = process_dataset repr args fp2.
Proof. unfold process_dataset. fold init. now intros ->. Qed.

(** When the loop fails, so does the run, and it writes no table. *)
Lemma process_dataset_raise fp e :
  loop repr args fp init = Raise e ->
  no_table_written (fst (process_dataset repr args fp)) /\
  raises (snd (process_dataset repr args fp)) /\
  (join (output_base_dir args) (dataset_name args) <> "" ->
   process_dataset repr args fp
   = ([Makedirs (join (output_base_dir args) (dataset_name args))], Raise e)).
Proof.
  intros L. unfold process_dataset, makedirs. fold init. rewrite L.
  destruct (String.eqb_spec (join (output_base_dir args) (dataset_name args)) "").
  - split; [|split]; [reflexivity | eexists; reflexivity | contradiction].
  - split; [|split]; [reflexivity | eexists; reflexivity | reflexivity].
Qed.

(** When the loop passes, the tables are written in their order, up to the
    first that cannot be, which is left incomplete; the run passes when all
    three are written. *)
Lemma process_dataset_writes fp t :
  loop repr args fp init = Ok t ->
  join (output_base_dir args) (dataset_name args) <> "" ->
  exists n,
    fst (process_dataset repr args fp)
    = (Makedirs (join (output_base_dir args) (dataset_name args))
       :: firstn n
            [ToCsv (join (join (output_base_dir args) (dataset_name args)) "data.csv") (data t);
             ToCsv (join (join (output_base_dir args) (dataset_name args)) "users.csv") (users t);
             ToCsv (join (join (output_base_dir args) (dataset_name args)) "items.csv") (items t)]
       ++ firstn 1 (skipn n
            [Partial (join (join (output_base_dir args) (dataset_name args)) "data.csv");
             Partial (join (join (output_base_dir args) (dataset_name args)) "users.csv");
             Partial (join (join (output_base_dir args) (dataset_name args)) "items.csv")]))%list /\
    (snd (process_dataset repr args fp) = Ok t <-> n = 3%nat).
Proof.
  intros L N. unfold process_dataset, makedirs. fold init. rewrite L.
  destruct (String.eqb_spec (join (output_base_dir args) (dataset_name args)) "");
    [contradiction|].
  destruct (to_csv _ (data t));
    [|exists 0%nat; split; [reflexivity | split; [discriminate | lia]]].
  destruct (to_csv _ (users t));
    [|exists 1%nat; split; [reflexivity | split; [discriminate | lia]]].
  destruct (to_csv _ (items t));
    [|exists 2%nat; split; [reflexivity | split; [discriminate | lia]]].
  exists 3%nat. split; [reflexivity | split; reflexivity].
Qed.

(** The run passes when the directory has a name, the loop passes and every
    text cell can be written. *)
Lemma process_dataset_ok_iff fp t :
  snd (process_dataset repr args fp) = Ok t <->
  join (output_base_dir args) (dataset_name args) <> "" /\
  loop repr args fp init = Ok t /\ writable t = true.
Proof.
  unfold process_dataset, makedirs, to_csv, writable. fold init.
  destruct (String.eqb_spec (join (output_base_dir args) (dataset_name args)) "") as [E|E].
  { split; [discriminate | tauto]. }
  destruct (loop repr args fp init) as [t'|e].
  2:{ split; [discriminate | intros (_ & H & _); discriminate H]. }
  destruct (table_ok (data t')) eqn:D; cbn [snd];
    [|split; [discriminate | intros (_ & [= ->] & W); rewrite D in W; discriminate W]].
  destruct (table_ok (users t')) eqn:U; cbn [snd];
    [|split; [discriminate | intros (_ & [= ->] & W); rewrite D, U in W; discriminate W]].
  destruct (table_ok (items t')) eqn:I; cbn [snd];
    [|split; [discriminate | intros (_ & [= ->] & W); rewrite D, U, I in W; discriminate W]].
  split.
  - intros [= ->]. rewrite D, U, I. auto.
  - intros (_ & [= ->] & _). reflexivity.
Qed.

Lemma process_dataset_aligned fp effs t :
  process_dataset repr args fp = (effs, Ok t) ->
  aligned repr args (rows_of fp) (data t) (users t) (items t).
Proof.
  intros H. apply process_dataset_ok in H as [L _].
  apply loop_aligned in L as (ds & us & is_ & A & -> & -> & ->). exact A.
Qed.

End Runs.

Lemma col_cases k :
  In k rating_columns ->
  k = "rating" \/ k = "appearance" \/ k = "aroma" \/ k = "palate" \/ k = "taste".
Proof. simpl. intuition. Qed.

Lemma built_from_rating repr args row u i s k :
  built_from repr args row u i s -> In k rating_columns ->
  exists r, rescaled row (col k) (fst (target args k)) (snd (target args k)) = Ok r /\
            dict_get k s = Some (VFloat r).
Proof.
  intros (uid & un & iid & nm & st & ab & ts & rv & r & a1 & a2 & a3 & a4 & B) K.
  destruct B as (_ & _ & _ & _ & _ & _ & _ & _ & R & A1 & A2 & A3 & A4 & _ & _ & ->).
  apply col_cases in K as [-> | [-> | [-> | [-> | ->]]]]; eexists; split; try eassumption; reflexivity.
Qed.

(** C1. A rating string "n/d" with numeric sides and a non-zero denominator is
    rescaled to [target_min + (target_max - target_min) * ((n - 0) / (d - 0))],
    and that number is what the interaction row holds, for the overall rating
    and for each aspect. *)
Theorem rating_formula repr args line t t' row k n d x b :
  In k rating_columns ->
  json_loads (strip line) = Ok row ->
  getitem row (col k) = Ok (VStr (n ++ "/" ++ d)) ->
  contains "/" n = false -> contains "/" d = false ->
  float_of_string n = Some x -> float_of_string d = Some b ->
  PrimFloat.eqb b 0 = false ->
  rescaled row (col k) (fst (target args k)) (snd (target args k))
  = Ok (formula x 0 b (fst (target args k)) (snd (target args k))) /\
  (process_line repr args line t = Ok t' ->
   exists s, data t' = (data t ++ [s])%list /\
             dict_get k s = Some (VFloat (formula x 0 b (fst (target args k)) (snd (target args k))))).
Proof.
  intros K J G Hn Hd X B Z.
  assert (R : rescaled row (col k) (fst (target args k)) (snd (target args k))
              = Ok (formula x 0 b (fst (target args k)) (snd (target args k)))).
  { eapply rescaled_accepts; eauto using split_one_slash. }
  split; [exact R|].
  intros P. apply process_line_inv in P as (row' & J' & [[F _] | (_ & u & i & s & Bf & ->)]).
  - rewrite J in J'. injection J' as <-.
    rewrite (getitem_truthy _ _ _ G) in F. discriminate.
  - rewrite J in J'. injection J' as <-.
    destruct (built_from_rating _ _ _ _ _ _ _ Bf K) as (r & R' & D).
    exists s. split; [reflexivity|]. congruence.
Qed.

Lemma rating_formula_witness :
  exists s t',
    process_line repr_none default_args (review_line "4/5") init = Ok t' /\
    data t' = [s] /\ dict_get "rating" s = Some (VFloat 4.2).
Proof.
  destruct (process_line repr_none default_args (review_line "4/5") init)
    as [t'|e] eqn:P; [|vm_compute in P; discriminate].
  assert (J : exists row, json_loads (strip (review_line "4/5")) = Ok row /\
                          getitem row (col "rating") = Ok (VStr ("4" ++ "/" ++ "5"))).
  { eexists. split; vm_compute; reflexivity. }
  destruct J as (row & J & G).
  destruct (rating_formula repr_none default_args (review_line "4/5") init t'
              row "rating" "4" "5" 4 5) as [_ W];
    try (vm_compute; reflexivity); try assumption.
  { simpl. auto. }
  destruct (W P) as (s & D & R).
  exists s, t'. split; [reflexivity|]. split; [exact D | exact R].
Defined.

(** C4 (as amended). The rescaling step raises exactly when the rating string
    is not [well_formed]: it has no ["/"], or the text before the first ["/"]
    or between the first and the second is not numeric, or the denominator is
    zero.  A well-formed string is rescaled from its first two parts, whatever
    follows a second ["/"]. *)
Theorem rescaling_fails_iff row key lo hi s :
  getitem row key = Ok (VStr s) ->
  (raises (rescaled row key lo hi) <-> ~ well_formed s) /\
  (forall p0 p1 rest x b,
     split s "/" = p0 :: p1 :: rest ->
     float_of_string p0 = Some x -> float_of_string p1 = Some b ->
     PrimFloat.eqb b 0 = false ->
     rescaled row key lo hi = Ok (formula x 0 b lo hi)).
Proof.
  intros G. split; [split|].
  - intros R (p0 & p1 & rest & x & b & S & X & B & Z).
    eapply raises_not_ok; [exact R|]. eapply rescaled_accepts; eauto.
  - now apply rescaled_rejects.
  - intros. eapply rescaled_accepts; eauto.
Qed.

Lemma rescaling_fails_iff_witness :
  raises (rescaled (VDict [("review/overall", VStr "4.5")]) "review/overall" 1 5)
  <-> ~ well_formed "4.5".
Proof.
  apply (rescaling_fails_iff (VDict [("review/overall", VStr "4.5")])
           "review/overall" 1 5 "4.5").
  reflexivity.
Defined.

(** C4 as stated fails: a string with two ["/"] is rescaled, not rejected. *)
Lemma extra_slash_accepted :
  exists t s,
    snd (process_dataset repr_none default_args [review_line "4/5/6"]) = Ok t /\
    data t = [s] /\ dict_get "rating" s = Some (VFloat 4.2).
Proof.
  do 2 eexists. split; [vm_compute; reflexivity|]. split; reflexivity.
Qed.

(** C5 (as amended). A line that decodes to an empty or falsy structure is
    skipped: the loop's tables are unchanged, and the run goes on as if the
    line were not in the file. *)
Theorem falsy_line_skipped repr args line row :
  json_loads (strip line) = Ok row -> truthy row = false ->
  (forall t, process_line repr args line t = Ok t) /\
  (forall pre post,
     process_dataset repr args (pre ++ line :: post)
     = process_dataset repr args (pre ++ post)).
Proof.
  intros J F.
  assert (S : forall t, process_line repr args line t = Ok t)
    by (intros; eapply process_line_skip; eauto).
  split; [exact S|].
  intros pre post. apply process_dataset_loop.
  rewrite !loop_app.
  destruct (loop repr args pre init) as [t1|e]; simpl; [|reflexivity].
  rewrite S. reflexivity.
Qed.

Lemma falsy_line_skipped_witness :
  process_dataset repr_none default_args
    ([review_line "4/5"] ++ ("{}" ++ chr 10) :: [review_line "3/5"])
  = process_dataset repr_none default_args ([review_line "4/5"] ++ [review_line "3/5"]).
Proof.
  apply (falsy_line_skipped repr_none default_args ("{}" ++ chr 10) (VDict []));
    reflexivity.
Defined.

(** C5 as stated fails: a line that is empty after trimming does not decode,
    and the run aborts. *)
Lemma blank_line_aborts :
  strip (chr 10) = "" /\
  process_dataset repr_none default_args [review_line "4/5"; chr 10; review_line "3/5"]
  = ([Makedirs "out/RateBeer"], Raise JSONDecodeError).
Proof. split; vm_compute; reflexivity. Qed.

(** C6. On a run that completes, each of the three tables has one row per
    non-empty input line. *)
Theorem row_counts repr args fp effs t :
  process_dataset repr args fp = (effs, Ok t) ->
  List.length (data t) = non_empty_lines fp /\
  List.length (users t) = non_empty_lines fp /\
  List.length (items t) = non_empty_lines fp /\
  filter is_to_csv effs =
  [ToCsv (join (join (output_base_dir args) (dataset_name args)) "data.csv") (data t);
   ToCsv (join (join (output_base_dir args) (dataset_name args)) "users.csv") (users t);
   ToCsv (join (join (output_base_dir args) (dataset_name args)) "items.csv") (items t)].
Proof.
  intros H. pose proof (process_dataset_aligned _ _ _ _ _ H) as A.
  apply process_dataset_ok in H as [L ->].
  apply aligned_length in A as (D & U & I).
  rewrite <- (loop_counts _ _ _ _ _ L). auto.
Qed.

Lemma row_counts_witness :
  non_empty_lines example_file = 2%nat /\
  List.length (data example_tables) = 2%nat /\
  List.length (users example_tables) = 2%nat /\
  List.length (items example_tables) = 2%nat.
Proof.
  assert (H : process_dataset repr_none default_args example_file
              = (fst example_run, Ok example_tables)) by (vm_compute; reflexivity).
  destruct (row_counts _ _ _ _ _ H) as (D & U & I & _).
  split; [reflexivity|]. rewrite D, U, I. repeat split; reflexivity.
Defined.

Lemma built_from_columns repr args row u i s k :
  built_from repr args row u i s -> In k (map snd columns) ->
  exists v, getitem row k = Ok v.
Proof.
  intros (uid & un & iid & nm & st & ab & ts & rv & r & a1 & a2 & a3 & a4 & B) K.
  destruct B as (G1 & G2 & G3 & G4 & G5 & G6 & G7 & G8 & R & A1 & A2 & A3 & A4 & _).
  apply rescaled_ok_inv in R, A1, A2, A3, A4.
  simpl in K.
  repeat (destruct K as [<- | K]; [eauto; fail|]).
  contradiction.
Qed.

Lemma fatal_line_raises repr args line t :
  parse_error line \/ missing_field line \/ format_error line ->
  raises (process_line repr args line t).
Proof.
  intros F. destruct (ok_or_raises (process_line repr args line t)) as [[t' P] | R];
    [exfalso | exact R].
  apply process_line_inv in P as (row & J & C).
  destruct F as [[e E] | [(d & k & J' & Hd & K & M) | (row' & k & s & J' & K & G & W)]].
  - congruence.
  - rewrite J in J'. injection J' as ->.
    destruct C as [[F _] | (_ & u & i & s & B & _)].
    + destruct d; [congruence | discriminate].
    + destruct (built_from_columns _ _ _ _ _ _ _ B K) as [v Gv].
      simpl in Gv. rewrite M in Gv. discriminate.
  - rewrite J in J'. injection J' as <-.
    destruct C as [[F _] | (_ & u & i & s' & B & _)].
    + rewrite (getitem_truthy _ _ _ G) in F. discriminate.
    + destruct (built_from_rating _ _ _ _ _ _ _ B K) as (r & R & _).
      eapply raises_not_ok; [|exact R]. now apply rescaled_rejects with (s := s).
Qed.

(** C7 (as amended). A line that does not decode, lacks a required field or
    holds a malformed rating string ends the run at that line, whatever follows
    it, and no table file is touched.  Tables are written only by a run whose
    every line has passed, in the order data, users, items; the first that
    cannot be written is left incomplete and ends the run, with those before
    it written and those after it untouched; a run that passes has written all
    three. *)
Theorem errors_are_fatal repr args pre line post t0 :
  loop repr args pre init = Ok t0 ->
  parse_error line \/ missing_field line \/ format_error line ->
  let out := join (output_base_dir args) (dataset_name args) in
  let run := process_dataset repr args (pre ++ line :: post) in
  (exists e,
     process_line repr args line t0 = Raise e /\
     loop repr args (pre ++ line :: post) init = Raise e /\
     (out <> "" -> run = ([Makedirs out], Raise e))) /\
  no_table_written (fst run) /\ raises (snd run) /\
  (forall fp,
     match loop repr args fp init with
     | Raise _ =>
         no_table_written (fst (process_dataset repr args fp)) /\
         raises (snd (process_dataset repr args fp))
     | Ok t =>
         out <> "" ->
         exists n,
           fst (process_dataset repr args fp)
           = (Makedirs out
              :: firstn n [ToCsv (join out "data.csv") (data t);
                           ToCsv (join out "users.csv") (users t);
                           ToCsv (join out "items.csv") (items t)]
              ++ firstn 1 (skipn n [Partial (join out "data.csv");
                                    Partial (join out "users.csv");
                                    Partial (join out "items.csv")]))%list /\
           (snd (process_dataset repr args fp) = Ok t <-> n = 3%nat)
     end).
Proof.
  intros L F out run.
  destruct (fatal_line_raises repr args line t0 F) as [e E].
  assert (R : loop repr args (pre ++ line :: post) init = Raise e).
  { rewrite loop_app, L. simpl. now rewrite E. }
  destruct (process_dataset_raise repr args _ _ R) as (N & X & P).
  split; [exists e; auto|]. split; [exact N|]. split; [exact X|].
  intros fp. destruct (loop repr args fp init) as [t|e'] eqn:Lf.
  - now apply process_dataset_writes.
  - destruct (process_dataset_raise repr args _ _ Lf) as (N' & X' & _). auto.
Qed.

Lemma errors_are_fatal_witness :
  process_dataset repr_none default_args
    ([review_line "4/5"] ++ "{not json" :: [review_line "3/5"])
  = ([Makedirs "out/RateBeer"], Raise JSONDecodeError).
Proof.
  destruct (errors_are_fatal repr_none default_args [review_line "4/5"] "{not json"
              [review_line "3/5"]
              {| data := [hd [] (data example_tables)];
                 users := [hd [] (users example_tables)];
                 items := [hd [] (items example_tables)] |})
    as [(e & E & _ & R) _].
  - vm_compute. reflexivity.
  - left. exists JSONDecodeError. vm_compute. reflexivity.
  - assert (X : e = JSONDecodeError) by (vm_compute in E; congruence).
    rewrite X in R. apply R. discriminate.
Defined.

(** C7 as stated fails: every line of this file passes, and the run writes
    the first table, leaves the second incomplete and does not come to the
    third, because the name of the user is a lone surrogate, which UTF-8
    cannot encode. *)
Lemma tables_partly_written :
  exists t,
    loop repr_none default_args [surrogate_line] init = Ok t /\
    process_dataset repr_none default_args [surrogate_line]
    = ([Makedirs "out/RateBeer"; ToCsv "out/RateBeer/data.csv" (data t);
        Partial "out/RateBeer/users.csv"],
       Raise UnicodeEncodeError).
Proof. eexists. split; vm_compute; reflexivity. Qed.

(** C9. The description of every item row is the beer's name, [" ; Style: "],
    its style, [" ABV: "] and its ABV, in that order and with nothing else. *)
Theorem description_format repr args fp effs t n row :
  process_dataset repr args fp = (effs, Ok t) ->
  nth_error (rows_of fp) n = Some row ->
  exists item name style abv,
    nth_error (items t) n = Some item /\
    getitem row "beer/name" = Ok name /\
    getitem row "beer/style" = Ok style /\
    getitem row "beer/ABV" = Ok abv /\
    dict_get "description" item
    = Some (VStr (format repr name ++ " ; Style: " ++ format repr style
                  ++ " ABV: " ++ format repr abv)).
Proof.
  intros H N. pose proof (process_dataset_aligned _ _ _ _ _ H) as A.
  destruct (aligned_nth _ _ _ _ _ _ A _ _ N) as (s & u & i & _ & _ & I & B).
  destruct B as (uid & un & iid & nm & st & ab & ts & rv & r & a1 & a2 & a3 & a4 & B).
  destruct B as (_ & _ & _ & G4 & G5 & G6 & _ & _ & _ & _ & _ & _ & _ & _ & -> & _).
  eexists _, nm, st, ab. repeat split; try eassumption. reflexivity.
Qed.

Lemma description_format_witness :
  exists item,
    nth_error (items example_tables) 0 = Some item /\
    dict_get "description" item = Some (VStr "Lager X ; Style: Pale ABV: 5.0").
Proof.
  assert (H : process_dataset repr_none default_args example_file
              = (fst example_run, Ok example_tables)) by (vm_compute; reflexivity).
  assert (N : exists row, nth_error (rows_of example_file) 0 = Some row /\
                getitem row "beer/name" = Ok (VStr "Lager X") /\
                getitem row "beer/style" = Ok (VStr "Pale") /\
                getitem row "beer/ABV" = Ok (VStr "5.0")).
  { eexists. split; [vm_compute; reflexivity|]. repeat split. }
  destruct N as (row & N & G1 & G2 & G3).
  destruct (description_format _ _ _ _ _ _ _ H N)
    as (item & name & style & abv & I & E1 & E2 & E3 & D).
  exists item. split; [exact I|].
  rewrite G1 in E1. rewrite G2 in E2. rewrite G3 in E3.
  injection E1 as <-. injection E2 as <-. injection E3 as <-. exact D.
Defined.

(** C10. On a run that completes the three tables are row-aligned: they have
    the same number of rows, and the rows at one index are built from the same
    line, so that they agree on [user_id] and on [item_id]. *)
Theorem tables_aligned repr args fp effs t :
  process_dataset repr args fp = (effs, Ok t) ->
  List.length (users t) = List.length (data t) /\
  List.length (items t) = List.length (data t) /\
  forall n u i s,
    nth_error (users t) n = Some u ->
    nth_error (items t) n = Some i ->
    nth_error (data t) n = Some s ->
    (exists row, nth_error (rows_of fp) n = Some row /\ built_from repr args row u i s) /\
    dict_get "user_id" u = dict_get "user_id" s /\
    dict_get "item_id" i = dict_get "item_id" s.
Proof.
  intros H. pose proof (process_dataset_aligned _ _ _ _ _ H) as A.
  destruct (aligned_length _ _ _ _ _ _ A) as (D & U & I).
  split; [congruence|]. split; [congruence|].
  intros n u i s Nu Ni Ns.
  destruct (nth_error (rows_of fp) n) as [row|] eqn:N.
  2:{ apply nth_error_None in N. assert (n < List.length (data t))%nat
        by (apply nth_error_Some; congruence). lia. }
  destruct (aligned_nth _ _ _ _ _ _ A _ _ N) as (s' & u' & i' & Ns' & Nu' & Ni' & B).
  assert (s' = s) by congruence. assert (u' = u) by congruence.
  assert (i' = i) by congruence. subst.
  split; [eauto|].
  destruct B as (uid & un & iid & nm & st & ab & ts & rv & r & a1 & a2 & a3 & a4 & B).
  destruct B as (_ & _ & _ & _ & _ & _ & _ & _ & _ & _ & _ & _ & _ & -> & -> & ->).
  split; reflexivity.
Qed.

Lemma tables_aligned_witness :
  List.length (users example_tables) = List.length (data example_tables) /\
  List.length (items example_tables) = List.length (data example_tables).
Proof.
  assert (H : process_dataset repr_none default_args example_file
              = (fst example_run, Ok example_tables)) by (vm_compute; reflexivity).
  destruct (tables_aligned _ _ _ _ _ H) as (U & I & _). split; assumption.
Defined.

(** ** The rescaled value between its bounds *)

Section Bounds.

Local Open Scope float_scope.

Lemma pos_nonzero d : (0 <? d) = true -> (d =? 0) = false.
Proof.
  rewrite ltb_spec, FloatAxioms.eqb_spec. change (Prim2SF 0) with (S754_zero false).
  destruct (Prim2SF d) as [s|s| |s m e]; try discriminate; destruct s; try discriminate;
    reflexivity.
Qed.

Lemma rescale_value n d lo hi :
  (d =? 0) = false -> rescale n 0 d lo hi = Ok (lo + (hi - lo) * (n / d)).
Proof.
  intros NZ. rewrite (rescale_ok _ _ _ _ NZ). unfold formula.
  now rewrite !sub_zero_r.
Qed.

Lemma formula_value n d lo hi : formula n 0 d lo hi = lo + (hi - lo) * (n / d).
Proof. unfold formula. now rewrite !sub_zero_r. Qed.

Lemma numerators_finite n1 n2 d :
  is_finite d = true ->
  (0 <=? n1) = true -> (n1 <=? n2) = true -> (n2 <=? d) = true ->
  is_finite n1 = true /\ is_finite n2 = true.
Proof.
  rewrite !is_finite_SF, !leb_spec. change (Prim2SF 0) with (S754_zero false).
  destruct (Prim2SF d) as [sd|sd| |sd md ed]; try discriminate;
    destruct (Prim2SF n2) as [[]|[]| |s2 m2 e2]; try discriminate;
    destruct (Prim2SF n1) as [[]|[]| |s1 m1 e1]; try discriminate; auto.
Qed.

(** The chain of the four operations, for numerators [0 <= n1 <= n2 <= d]. *)
Lemma formula_chain n1 n2 d lo hi :
  is_finite d = true ->
  (0 <=? n1) = true -> (n1 <=? n2) = true -> (n2 <=? d) = true -> (0 <? d) = true ->
  is_finite lo = true -> is_finite hi = true -> (lo <=? hi) = true ->
  is_finite (hi - lo) = true ->
  (lo <=? formula n1 0 d lo hi) = true /\
  (formula n1 0 d lo hi <=? formula n2 0 d lo hi) = true /\
  (formula n2 0 d lo hi <=? lo + (hi - lo)) = true.
Proof.
  intros Fd N0 N12 N2d D Fl Fh L Fw. rewrite !formula_value.
  destruct (numerators_finite n1 n2 d Fd N0 N12 N2d) as [F1 F2].
  assert (N1d : (n1 <=? d) = true).
  { apply (leb_le _ _ F1 Fd). apply (leb_le _ _ F1 F2) in N12.
    apply (leb_le _ _ F2 Fd) in N2d. lra. }
  assert (N02 : (0 <=? n2) = true).
  { apply (leb_le _ _ finite_0 F2). apply (leb_le _ _ F1 F2) in N12.
    apply (leb_le _ _ finite_0 F1) in N0. lra. }
  destruct (div_unit n1 d F1 Fd N0 N1d D) as [Q1a Q1b].
  destruct (div_unit n2 d F2 Fd N02 N2d D) as [Q2a Q2b].
  pose proof (between_finite _ _ _ finite_0 finite_1 Q1a Q1b) as Fq1.
  pose proof (between_finite _ _ _ finite_0 finite_1 Q2a Q2b) as Fq2.
  pose proof (div_mono n1 n2 d F1 F2 Fd D N12) as Q12.
  pose proof (sub_nonneg lo hi Fl Fh L) as W0.
  destruct (mul_unit (hi - lo) (n1 / d) Fw W0 Q1a Q1b) as [P1a P1b].
  destruct (mul_unit (hi - lo) (n2 / d) Fw W0 Q2a Q2b) as [P2a P2b].
  pose proof (between_finite _ _ _ finite_0 Fw P1a P1b) as Fp1.
  pose proof (between_finite _ _ _ finite_0 Fw P2a P2b) as Fp2.
  pose proof (mul_mono (hi - lo) _ _ Fw Fq1 Fq2 W0 Q12) as P12.
  split; [|split].
  - now apply add_nonneg.
  - now apply add_mono.
  - now apply add_mono.
Qed.

(** C2 (as amended). For a rating "n/d" with [0 <= n <= d], [d > 0] finite and
    finite target bounds [lo <= hi] whose difference is finite, the rescaled
    value lies between [lo] and [lo + (hi - lo)], the value binary64 gives at
    [n = d]; and it is monotone non-decreasing in [n]. *)
Theorem rescale_range_monotone n1 n2 d lo hi :
  is_finite d = true ->
  (0 <=? n1) = true -> (n1 <=? n2) = true -> (n2 <=? d) = true -> (0 <? d) = true ->
  is_finite lo = true -> is_finite hi = true -> (lo <=? hi) = true ->
  is_finite (hi - lo) = true ->
  exists r1 r2,
    rescale n1 0 d lo hi = Ok r1 /\ rescale n2 0 d lo hi = Ok r2 /\
    (lo <=? r1) = true /\ (r1 <=? r2) = true /\ (r2 <=? lo + (hi - lo)) = true.
Proof.
  intros Fd N0 N12 N2d D Fl Fh L Fw.
  exists (formula n1 0 d lo hi), (formula n2 0 d lo hi).
  rewrite !rescale_ok by now apply pos_nonzero.
  split; [reflexivity|]. split; [reflexivity|]. now apply formula_chain.
Qed.

Lemma rescale_range_monotone_witness :
  exists r1 r2,
    rescale 3 0 5 1 5 = Ok r1 /\ rescale 4 0 5 1 5 = Ok r2 /\
    (1 <=? r1) = true /\ (r1 <=? r2) = true /\ (r2 <=? 5) = true.
Proof.
  exact (rescale_range_monotone 3 4 5 1 5 eq_refl eq_refl eq_refl eq_refl eq_refl
           eq_refl eq_refl eq_refl eq_refl).
Defined.

(** C2 as stated fails: with the bounds 0.3 and 0.9 the rating "5/5" is
    rescaled above 0.9. *)
Lemma upper_bound_exceeded :
  exists t s r,
    snd (process_dataset repr_none (with_bounds 0.3 0.9) [review_line "5/5"]) = Ok t /\
    data t = [s] /\ dict_get "rating" s = Some (VFloat r) /\
    (r <=? 0.9) = false.
Proof.
  do 3 eexists. split; [vm_compute; reflexivity|].
  split; [reflexivity|]. split; reflexivity.
Qed.

(** C8 (as amended). For a finite non-zero denominator, a finite lower bound
    and bounds whose difference is finite: a zero numerator gives the lower
    bound (as a number), and the numerator [d] gives [lo + (hi - lo)]. *)
Theorem rescale_endpoints z d lo hi :
  is_finite d = true -> (d =? 0) = false -> (z =? 0) = true ->
  is_finite lo = true -> is_finite (hi - lo) = true ->
  (exists r, rescale z 0 d lo hi = Ok r /\ (r =? lo) = true) /\
  rescale d 0 d lo hi = Ok (lo + (hi - lo)).
Proof.
  intros Fd NZ Z Fl Fw. rewrite !rescale_value by exact NZ. split.
  - eexists. split; [reflexivity|]. now apply zero_numerator.
  - now rewrite div_same, mul_one.
Qed.

Lemma rescale_endpoints_witness :
  (exists r, rescale 0 0 5 1 5 = Ok r /\ (r =? 1) = true) /\
  rescale 5 0 5 1 5 = Ok 5.
Proof.
  exact (rescale_endpoints 0 5 1 5 eq_refl eq_refl eq_refl eq_refl eq_refl).
Defined.

(** C8 as stated fails: with the bounds 0.2 and 0.9 the rating "5/5" is not
    rescaled to 0.9. *)
Lemma upper_end_missed :
  exists t s r,
    snd (process_dataset repr_none (with_bounds 0.2 0.9) [review_line "5/5"]) = Ok t /\
    data t = [s] /\ dict_get "rating" s = Some (VFloat r) /\
    (r =? 0.9) = false.
Proof.
  do 3 eexists. split; [vm_compute; reflexivity|].
  split; [reflexivity|]. split; reflexivity.
Qed.

(** C3 (as amended). In every interaction row, a rating field whose string
    "n/d" has [0 <= n <= d], [d > 0] finite lies between the lower target bound
    and [lo + (hi - lo)], for finite target bounds [lo <= hi] whose difference
    is finite. *)
Theorem fields_in_range repr args fp effs t i row k num den x d :
  process_dataset repr args fp = (effs, Ok t) ->
  nth_error (rows_of fp) i = Some row ->
  In k rating_columns ->
  getitem row (col k) = Ok (VStr (num ++ "/" ++ den)) ->
  contains "/" num = false -> contains "/" den = false ->
  float_of_string num = Some x -> float_of_string den = Some d ->
  is_finite d = true ->
  (0 <=? x) = true -> (x <=? d) = true -> (0 <? d) = true ->
  is_finite (fst (target args k)) = true ->
  is_finite (snd (target args k)) = true ->
  (fst (target args k) <=? snd (target args k)) = true ->
  is_finite (snd (target args k) - fst (target args k)) = true ->
  exists s r,
    nth_error (data t) i = Some s /\ dict_get k s = Some (VFloat r) /\
    (fst (target args k) <=? r) = true /\
    (r <=? fst (target args k) + (snd (target args k) - fst (target args k))) = true.
Proof.
  intros H N K G Hn Hd X D Fd X0 Xd D0 Fl Fh L Fw.
  pose proof (process_dataset_aligned _ _ _ _ _ H) as A.
  destruct (aligned_nth _ _ _ _ _ _ A _ _ N) as (s & u & it & Ns & _ & _ & B).
  destruct (built_from_rating _ _ _ _ _ _ _ B K) as (r & R & Dk).
  assert (X00 : (x <=? x) = true).
  { destruct (numerators_finite x x d Fd X0) as [Fx _]; try assumption.
    - rewrite leb_spec in *. change (Prim2SF 0) with (S754_zero false) in X0.
      destruct (Prim2SF x) as [[]|[]| |sx mx ex] eqn:E; try discriminate; try reflexivity.
      apply SFleb_refl; [rewrite <- E; apply Prim2SF_valid | discriminate].
    - apply (leb_le _ _ Fx Fx). lra. }
  rewrite (rescaled_accepts _ _ _ _ _ _ _ _ _ _ G (split_one_slash _ _ Hn Hd) X D
             (pos_nonzero _ D0)) in R.
  injection R as <-.
  destruct (formula_chain x x d _ _ Fd X0 X00 Xd D0 Fl Fh L Fw) as (A1 & _ & A3).
  exists s, (formula x 0 d (fst (target args k)) (snd (target args k))). auto.
Qed.

Lemma fields_in_range_witness :
  exists s r,
    nth_error (data example_tables) 0 = Some s /\
    dict_get "rating" s = Some (VFloat r) /\
    (1 <=? r) = true /\ (r <=? 5) = true.
Proof.
  assert (H : process_dataset repr_none default_args example_file
              = (fst example_run, Ok example_tables)) by (vm_compute; reflexivity).
  assert (N : exists row, nth_error (rows_of example_file) 0 = Some row /\
                getitem row (col "rating") = Ok (VStr ("4" ++ "/" ++ "5"))).
  { eexists. split; vm_compute; reflexivity. }
  destruct N as (row & N & G).
  exact (fields_in_range repr_none default_args example_file _ _ 0 row "rating"
           "4" "5" 4 5 H N (or_introl eq_refl) G eq_refl eq_refl eq_refl eq_refl
           eq_refl eq_refl eq_refl eq_refl eq_refl eq_refl eq_refl eq_refl).
Defined.

(** C3 as stated fails: the rating "7/5" is rescaled to 6.6, above the upper
    bound 5. *)
Lemma rating_out_of_range :
  exists t s r,
    snd (process_dataset repr_none default_args [review_line "7/5"]) = Ok t /\
    data t = [s] /\ dict_get "rating" s = Some (VFloat r) /\
    (r <=? max_rating default_args) = false.
Proof.
  do 3 eexists. split; [vm_compute; reflexivity|].
  split; [reflexivity|]. split; reflexivity.
Qed.

End Bounds.

(** ** [rescale] on an arbitrary source interval *)

Section Grid.

Local Open Scope R_scope.

(** Every finite binary64 is a multiple of [2^-1074]. *)
Lemma float_grid f :
  valid_binary f = true -> finite_SF f = true ->
  exists k : Z, SF2R f = F2R k (-1074).
Proof.
  intros V Ff. destruct f as [s|s| |s m e]; try discriminate.
  - exists 0%Z. simpl. now rewrite F2R_0.
  - simpl in V. destruct (bounded_inv _ _ V) as (E & _ & _).
    exists (cond_Zopp s (Z.pos m) * 2 ^ (e + 1074))%Z. simpl.
    rewrite (F2R_shift _ e (e + 1074)) by lia. f_equal. lia.
Qed.

Lemma grid_step k : (k <> 0)%Z -> bpow (-1074) <= Rabs (F2R k (-1074)).
Proof.
  intros K. assert (B : bpow (-1074) = F2R 1 (-1074)) by (unfold F2R; lra).
  destruct (Z_lt_le_dec k 0) as [N|P].
  - pose proof (F2R_le k (-1) (-1074) ltac:(lia)) as L.
    replace (F2R (-1) (-1074)) with (- F2R 1 (-1074)) in L by (unfold F2R; lra).
    pose proof (bpow_gt_0 (-1074)). rewrite Rabs_left by lra. lra.
  - pose proof (F2R_le 1 k (-1074) ltac:(lia)) as L.
    pose proof (bpow_gt_0 (-1074)). rewrite Rabs_right by lra. lra.
Qed.

(** A real that is at least [2^-1074] away from zero does not round to zero. *)
Lemma rounds_to_nonzero x f :
  rounds_to x f -> bpow (-1074) <= Rabs x -> forall s, f <> S754_zero s.
Proof.
  intros [_ R] L s ->. destruct R as [_ N].
  change (SF2R (S754_zero s)) with 0 in N.
  pose proof (bpow_gt_0 (-1074)) as P.
  assert (G : forall b, SF2R (S754_finite b 1 (-1074)) = sgn b (bpow (-1074))).
  { intros b. rewrite SF2R_finite. unfold F2R. f_equal. lra. }
  destruct (Rcase_abs x) as [Neg|Pos].
  - specialize (N (S754_finite true 1 (-1074)) eq_refl eq_refl).
    rewrite G in N. unfold sgn in N. rewrite Rabs_left in L by lra.
    rewrite Rminus_0_r, (Rabs_left x) in N by lra.
    rewrite Rabs_left1 in N by lra. lra.
  - specialize (N (S754_finite false 1 (-1074)) eq_refl eq_refl).
    rewrite G in N. unfold sgn in N. rewrite Rabs_right in L by lra.
    rewrite Rminus_0_r, (Rabs_right x) in N by lra.
    rewrite Rabs_right in N by lra. lra.
Qed.

(** A float that zero rounds to is a zero. *)
Lemma rounds_zero_inv f : rounds_to 0 f -> exists s, f = S754_zero s.
Proof.
  intros [V R]. pose proof omega_gt_0 as O.
  destruct f as [s|s| |s m e]; try contradiction; eauto.
  - destruct s; lra.
  - destruct R as [_ N]. specialize (N (S754_zero false) eq_refl eq_refl).
    simpl SF2R in N at 2. rewrite Rminus_0_r, Rabs_R0 in N.
    rewrite SF2R_finite in N. pose proof (F2R_pos_gt_0 m e) as P.
    pose proof (Rabs_pos (0 - sgn s (F2R (Z.pos m) e))) as Q.
    assert (Z : Rabs (0 - sgn s (F2R (Z.pos m) e)) = 0) by lra.
    revert Z. unfold Rabs. destruct (Rcase_abs _); destruct s; simpl in *; lra.
Qed.

End Grid.

Section Affine.

Local Open Scope float_scope.

Lemma eqb_value a b :
  is_finite a = true -> is_finite b = true ->
  ((a =? b) = true <-> B2R a = B2R b).
Proof.
  intros Fa Fb. rewrite is_finite_SF in Fa, Fb.
  rewrite FloatAxioms.eqb_spec. unfold SFeqb, B2R.
  destruct (SFcompare_ok _ _ (Prim2SF_valid a) (Prim2SF_valid b) Fa Fb) as (c & -> & R).
  destruct c; simpl in R; split; intros H; try discriminate; try reflexivity; lra.
Qed.

(** Gradual underflow: the difference of two finite floats is zero only when
    they are equal. *)
Lemma sub_zero_iff a b :
  is_finite a = true -> is_finite b = true -> (b - a =? 0) = (a =? b).
Proof.
  intros Fa Fb. pose proof (sub_rounds b a Fb Fa) as R.
  destruct (a =? b) eqn:E.
  - apply (eqb_value a b Fa Fb) in E. rewrite E, Rminus_diag in R.
    destruct (rounds_zero_inv _ R) as [s Z].
    rewrite FloatAxioms.eqb_spec, Z. now destruct s.
  - assert (NE : B2R a <> B2R b).
    { intros H. apply (eqb_value a b Fa Fb) in H. congruence. }
    rewrite is_finite_SF in Fa, Fb.
    destruct (float_grid _ (Prim2SF_valid a) Fa) as [ka Ka].
    destruct (float_grid _ (Prim2SF_valid b) Fb) as [kb Kb].
    unfold B2R in R, NE. rewrite Ka, Kb in R, NE. rewrite <- F2R_minus in R.
    assert (K : (kb - ka <> 0)%Z) by (intros H; apply NE; f_equal; lia).
    pose proof (rounds_to_nonzero _ _ R (grid_step _ K)) as NZ.
    rewrite FloatAxioms.eqb_spec. change (Prim2SF 0) with (S754_zero false).
    destruct (Prim2SF (b - a)) as [s|s| |s m e]; try reflexivity;
      try (now destruct s).
    now destruct (NZ s).
Qed.

Lemma sub_mono a x1 x2 :
  is_finite a = true -> is_finite x1 = true -> is_finite x2 = true ->
  (x1 <=? x2) = true -> (x1 - a <=? x2 - a) = true.
Proof.
  intros Fa F1 F2 L. apply (leb_le _ _ F1 F2) in L.
  pose proof (sub_rounds x1 a F1 Fa) as R1.
  pose proof (sub_rounds x2 a F2 Fa) as R2.
  rewrite leb_spec. destruct L as [Lt|E].
  - apply (rounds_to_lt _ _ _ _ R1 R2). lra.
  - rewrite is_finite_SF in Fa, F1, F2. rewrite !sub_spec.
    destruct (SF2R_inj _ _ (Prim2SF_valid x1) (Prim2SF_valid x2) F1 F2 E)
      as [H | (s1 & s2 & H1 & H2)].
    + rewrite H. rewrite sub_spec in R2.
      apply SFleb_refl; [eapply rounds_to_valid | eapply rounds_to_not_nan]; eauto.
    + rewrite H1, H2. pose proof (Prim2SF_valid a) as Va.
      destruct (Prim2SF a) as [sa|sa| |sa ma ea]; try discriminate.
      * destruct sa, s1, s2; reflexivity.
      * simpl. apply SFleb_refl; [exact Va | discriminate].
Qed.

Lemma rescale_formula x a b c d :
  (b - a =? 0) = false -> rescale x a b c d = Ok (formula x a b c d).
Proof. intros H. unfold rescale, truediv, formula. now rewrite H. Qed.

Lemma interval_finite a x1 x2 b :
  is_finite a = true -> is_finite b = true ->
  (a <=? x1) = true -> (x1 <=? x2) = true -> (x2 <=? b) = true ->
  is_finite x1 = true /\ is_finite x2 = true.
Proof.
  rewrite !is_finite_SF, !leb_spec.
  destruct (Prim2SF a) as [sa|sa| |sa ma ea]; try discriminate;
    destruct (Prim2SF b) as [sb|sb| |sb mb eb]; try discriminate;
    destruct (Prim2SF x2) as [[]|[]| |s2 m2 e2]; try discriminate;
    destruct (Prim2SF x1) as [[]|[]| |s1 m1 e1]; try discriminate; auto;
    destruct sa; discriminate.
Qed.

Lemma lt_sub_pos a b :
  is_finite a = true -> is_finite b = true -> is_finite (b - a) = true ->
  (a <? b) = true -> (b - a =? 0) = false /\ (0 <? b - a) = true.
Proof.
  intros Fa Fb Fw L. apply (ltb_lt _ _ Fa Fb) in L.
  assert (NZ : (b - a =? 0) = false).
  { rewrite (sub_zero_iff a b Fa Fb). destruct (a =? b) eqn:E; [|reflexivity].
    apply (eqb_value a b Fa Fb) in E. lra. }
  split; [exact NZ|].
  pose proof (nonzero_value _ Fw NZ) as V.
  assert (P : (0 <=? b - a) = true)
    by (apply sub_nonneg; auto; apply (leb_le _ _ Fa Fb); lra).
  apply (leb_le _ _ finite_0 Fw) in P. rewrite B2R_0 in P.
  apply (ltb_lt _ _ finite_0 Fw). rewrite B2R_0. lra.
Qed.

(** X1. [rescale] raises exactly when the two source bounds are equal. *)
Theorem rescale_division_by_zero x a b c d :
  is_finite a = true -> is_finite b = true ->
  rescale x a b c d
  = if a =? b then Raise ZeroDivisionError else Ok (formula x a b c d).
Proof.
  intros Fa Fb. unfold rescale, truediv, formula.
  now rewrite (sub_zero_iff a b Fa Fb); destruct (a =? b).
Qed.

Lemma rescale_division_by_zero_witness :
  rescale 3 2 2 1 5 = Raise ZeroDivisionError /\ rescale 3 2 4 1 5 = Ok 3.
Proof.
  split.
  - exact (rescale_division_by_zero 3 2 2 1 5 eq_refl eq_refl).
  - exact (rescale_division_by_zero 3 2 4 1 5 eq_refl eq_refl).
Defined.

(** X2. On any finite source interval [a < b] whose width is finite, [rescale]
    maps [[a, b]] into [[c, c + (d - c)]] and is monotone. *)
Theorem rescale_interval x1 x2 a b c d :
  is_finite a = true -> is_finite b = true -> is_finite (b - a) = true ->
  (a <=? x1) = true -> (x1 <=? x2) = true -> (x2 <=? b) = true -> (a <? b) = true ->
  is_finite c = true -> is_finite d = true -> (c <=? d) = true ->
  is_finite (d - c) = true ->
  exists r1 r2,
    rescale x1 a b c d = Ok r1 /\ rescale x2 a b c d = Ok r2 /\
    (c <=? r1) = true /\ (r1 <=? r2) = true /\ (r2 <=? c + (d - c)) = true.
Proof.
  intros Fa Fb Fw A1 L12 L2b Lab Fc Fd Lcd Fcd.
  destruct (interval_finite a x1 x2 b Fa Fb A1 L12 L2b) as [F1 F2].
  destruct (lt_sub_pos a b Fa Fb Fw Lab) as [NZ P].
  exists (formula x1 a b c d), (formula x2 a b c d).
  rewrite !rescale_formula by exact NZ.
  split; [reflexivity|]. split; [reflexivity|].
  pose proof (formula_chain (x1 - a) (x2 - a) (b - a) c d Fw) as C.
  rewrite !formula_value in C. apply C; auto.
  - now apply sub_nonneg.
  - now apply sub_mono.
  - now apply sub_mono.
Qed.

Lemma rescale_interval_witness :
  exists r1 r2,
    rescale 2 1 10 0 100 = Ok r1 /\ rescale 7 1 10 0 100 = Ok r2 /\
    (0 <=? r1) = true /\ (r1 <=? r2) = true /\ (r2 <=? 100) = true.
Proof.
  exact (rescale_interval 2 7 1 10 0 100 eq_refl eq_refl eq_refl eq_refl eq_refl
           eq_refl eq_refl eq_refl eq_refl eq_refl eq_refl).
Defined.

(** X3. At the ends of a finite source interval: the lower end gives [c] (as a
    number), the upper end [c + (d - c)]. *)
Theorem rescale_interval_ends a b c d :
  is_finite a = true -> is_finite b = true -> (a =? b) = false ->
  is_finite (b - a) = true -> is_finite c = true -> is_finite (d - c) = true ->
  (exists r, rescale a a b c d = Ok r /\ (r =? c) = true) /\
  rescale b a b c d = Ok (c + (d - c)).
Proof.
  intros Fa Fb NE Fw Fc Fcd.
  assert (NZ : (b - a =? 0) = false) by now rewrite (sub_zero_iff a b Fa Fb).
  rewrite !rescale_formula by exact NZ. unfold formula. split.
  - eexists. split; [reflexivity|]. apply zero_numerator; auto.
    rewrite (sub_zero_iff a a Fa Fa). now apply (eqb_value a a Fa Fa).
  - now rewrite div_same, mul_one.
Qed.

Lemma rescale_interval_ends_witness :
  (exists r, rescale 1 1 10 0 100 = Ok r /\ (r =? 0) = true) /\
  rescale 10 1 10 0 100 = Ok 100.
Proof.
  exact (rescale_interval_ends 1 10 0 100 eq_refl eq_refl eq_refl eq_refl eq_refl
           eq_refl).
Defined.

End Affine.

(** ** Which exception the rescaling step raises *)

(** X4. The exception tells the defect of a rating field: [AttributeError] for a
    value that is not a string, [ValueError] for a numerator or a denominator
    that [float] does not read (the numerator is read first, slash or no
    slash), [IndexError] for a number without a slash, [ZeroDivisionError] for
    a zero denominator. *)
Theorem rescaled_exception row key lo hi v :
  getitem row key = Ok v ->
  ((forall s, v <> VStr s) -> rescaled row key lo hi = Raise AttributeError) /\
  (forall s p0 rest, v = VStr s -> split s "/" = p0 :: rest ->
     float_of_string p0 = None -> rescaled row key lo hi = Raise ValueError) /\
  (forall s x, v = VStr s -> contains "/" s = false -> float_of_string s = Some x ->
     rescaled row key lo hi = Raise IndexError) /\
  (forall s p0 p1 rest x, v = VStr s -> split s "/" = p0 :: p1 :: rest ->
     float_of_string p0 = Some x -> float_of_string p1 = None ->
     rescaled row key lo hi = Raise ValueError) /\
  (forall s p0 p1 rest x b, v = VStr s -> split s "/" = p0 :: p1 :: rest ->
     float_of_string p0 = Some x -> float_of_string p1 = Some b ->
     PrimFloat.eqb b 0 = true ->
     rescaled row key lo hi = Raise ZeroDivisionError).
Proof.
  intros G. unfold rescaled. rewrite G. cbn [bind]. repeat split.
  - intros N. destruct v; try reflexivity. now destruct (N s).
  - intros s p0 rest -> S X. cbn [str_split bind]. rewrite S. cbn [index nth_error bind].
    unfold float_ at 1. now rewrite X.
  - intros s x -> C X. cbn [str_split bind]. rewrite (split_no_sep _ _ C).
    cbn [index nth_error bind]. now rewrite (float_ok _ _ X).
  - intros s p0 p1 rest x -> S X B. cbn [str_split bind]. rewrite S.
    cbn [index nth_error bind]. rewrite (float_ok _ _ X). cbn [bind].
    unfold float_. now rewrite B.
  - intros s p0 p1 rest x b -> S X B Z. cbn [str_split bind]. rewrite S.
    cbn [index nth_error bind]. rewrite (float_ok _ _ X), (float_ok _ _ B). cbn [bind].
    now apply rescale_zero.
Qed.

Lemma rescaled_exception_witness :
  rescaled (VDict [("review/overall", VStr "abc")]) "review/overall" 1 5 = Raise ValueError /\
  rescaled (VDict [("review/overall", VStr "4")]) "review/overall" 1 5 = Raise IndexError /\
  rescaled (VDict [("review/overall", VStr "4/0")]) "review/overall" 1 5
  = Raise ZeroDivisionError /\
  rescaled (VDict [("review/overall", VInt 4)]) "review/overall" 1 5 = Raise AttributeError.
Proof.
  split; [|split; [|split]].
  - destruct (rescaled_exception (VDict [("review/overall", VStr "abc")]) "review/overall"
                1 5 (VStr "abc") eq_refl) as (_ & H & _).
    exact (H "abc" "abc" [] eq_refl eq_refl eq_refl).
  - destruct (rescaled_exception (VDict [("review/overall", VStr "4")]) "review/overall"
                1 5 (VStr "4") eq_refl) as (_ & _ & H & _).
    exact (H "4" 4%float eq_refl eq_refl eq_refl).
  - destruct (rescaled_exception (VDict [("review/overall", VStr "4/0")]) "review/overall"
                1 5 (VStr "4/0") eq_refl) as (_ & _ & _ & _ & H).
    exact (H "4/0" "4" "0" [] 4%float 0%float eq_refl eq_refl eq_refl eq_refl eq_refl).
  - destruct (rescaled_exception (VDict [("review/overall", VInt 4)]) "review/overall"
                1 5 (VInt 4) eq_refl) as (H & _).
    apply H. discriminate.
Defined.

(** ** Rows that are not objects, objects that lack a field *)

Section MoreLines.

Variable repr : value -> string.

Lemma getitem_dict_cases d k :
  (exists v, getitem (VDict d) k = Ok v /\ dict_get k d = Some v) \/
  (getitem (VDict d) k = Raise KeyError /\ dict_get k d = None).
Proof. simpl. destruct (dict_get k d); eauto. Qed.

(** X5. A line that decodes to a truthy value other than an object ends the
    run with [TypeError]; an object that lacks one of the eight fields copied
    as they are ends it with [KeyError], whatever its rating fields hold. *)
Theorem unusable_row args line t row :
  json_loads (strip line) = Ok row -> truthy row = true ->
  ((forall d, row <> VDict d) -> process_line repr args line t = Raise TypeError) /\
  (forall d k, row = VDict d -> In k plain_fields -> dict_get k d = None ->
     process_line repr args line t = Raise KeyError).
Proof.
  intros J T. unfold process_line. rewrite J. cbn [bind]. rewrite T. cbn [negb].
  split.
  - intros N. destruct row; try reflexivity. now destruct (N d).
  - intros d k -> K M. simpl in K.
    repeat match goal with
    | |- context [getitem (VDict d) ?c] =>
        let v := fresh "v" in
        let G := fresh "G" in
        let D := fresh "D" in
        destruct (getitem_dict_cases d c) as [(v & G & D) | [G D]];
        rewrite G; cbn [bind]; [|reflexivity]
    end.
    exfalso.
    repeat (destruct K as [<- | K]; [simpl in M; congruence|]).
    contradiction.
Qed.

End MoreLines.

Lemma unusable_row_witness :
  process_line repr_none default_args "[1, 2]" init = Raise TypeError /\
  process_line repr_none default_args
    (json_line [("beer/brewerId", "b1"); ("review/overall", "x")]) init
  = Raise KeyError.
Proof.
  split.
  - destruct (unusable_row repr_none default_args "[1, 2]" init (VList [VInt 1; VInt 2])) as [H _].
    + vm_compute. reflexivity.
    + reflexivity.
    + apply H. discriminate.
  - destruct (unusable_row repr_none default_args
                (json_line [("beer/brewerId", "b1"); ("review/overall", "x")]) init
                (VDict [("beer/brewerId", VStr "b1"); ("review/overall", VStr "x")]))
      as [_ H].
    + vm_compute. reflexivity.
    + reflexivity.
    + apply (H _ "beer/name" eq_refl); [|reflexivity]. simpl. auto 10.
Defined.

(** ** Files put end to end *)

Section Concat.

Variable repr : value -> string.
Variable args : Args.

Lemma tables_app_init_r t : tables_app t init = t.
Proof. destruct t. unfold tables_app. simpl. now rewrite !app_nil_r. Qed.

Lemma tables_app_init_l t : tables_app init t = t.
Proof. now destruct t. Qed.

Lemma tables_app_assoc t1 t2 t3 :
  tables_app (tables_app t1 t2) t3 = tables_app t1 (tables_app t2 t3).
Proof. unfold tables_app. simpl. now rewrite !app_assoc. Qed.

(** A turn of the loop only appends: what it adds does not depend on the
    tables so far. *)
Lemma process_line_shift line t :
  process_line repr args line t
  = (t' <- process_line repr args line init ;; Ok (tables_app t t')).
Proof.
  unfold process_line.
  destruct (json_loads (strip line)) as [row|e]; cbn [bind]; [|reflexivity].
  destruct (truthy row); cbn [negb]; [|cbn [bind]; now rewrite tables_app_init_r].
  repeat match goal with
  | |- context [bind ?r _] =>
      match r with
      | bind _ _ => fail 1
      | _ => destruct r; cbn [bind]; [|reflexivity]
      end
  end.
  reflexivity.
Qed.

Lemma loop_shift fp : forall t,
  loop repr args fp t = (t' <- loop repr args fp init ;; Ok (tables_app t t')).
Proof.
  induction fp as [|line fp IH]; intros t; cbn [loop].
  - cbn [bind]. now rewrite tables_app_init_r.
  - rewrite (process_line_shift line t).
    destruct (process_line repr args line init) as [t1|e]; cbn [bind]; [|reflexivity].
    rewrite (IH (tables_app t t1)), (IH t1).
    destruct (loop repr args fp init) as [t2|e]; cbn [bind]; [|reflexivity].
    now rewrite tables_app_assoc.
Qed.

Lemma table_ok_app a b : table_ok (a ++ b) = table_ok a && table_ok b.
Proof. apply forallb_app. Qed.

Lemma writable_app t1 t2 : writable (tables_app t1 t2) = writable t1 && writable t2.
Proof.
  unfold writable, tables_app. cbn [data users items]. rewrite !table_ok_app.
  destruct (table_ok (data t1)), (table_ok (data t2)), (table_ok (users t1)),
    (table_ok (users t2)), (table_ok (items t1)), (table_ok (items t2)); reflexivity.
Qed.

Lemma loop_concat fp1 fp2 :
  loop repr args (fp1 ++ fp2) init
  = (t1 <- loop repr args fp1 init ;;
     t2 <- loop repr args fp2 init ;;
     Ok (tables_app t1 t2)).
Proof.
  rewrite loop_app.
  destruct (loop repr args fp1 init) as [t1|e]; cbn [bind]; [|reflexivity].
  apply loop_shift.
Qed.

(** X6. The loop over two files put end to end: the tables of the first
    followed by those of the second; the first failure, if there is one.  The
    run over the whole passes exactly when the runs over the two parts do. *)
Theorem dataset_concat fp1 fp2 :
  loop repr args (fp1 ++ fp2) init
  = (t1 <- loop repr args fp1 init ;;
     t2 <- loop repr args fp2 init ;;
     Ok (tables_app t1 t2)) /\
  (forall t,
     snd (process_dataset repr args (fp1 ++ fp2)) = Ok t <->
     exists t1 t2,
       snd (process_dataset repr args fp1) = Ok t1 /\
       snd (process_dataset repr args fp2) = Ok t2 /\
       t = tables_app t1 t2).
Proof.
  split; [apply loop_concat|].
  intros t. rewrite process_dataset_ok_iff, loop_concat. split.
  - intros (N & L & W).
    destruct (loop repr args fp1 init) as [t1|e] eqn:L1; cbn [bind] in L; [|discriminate].
    destruct (loop repr args fp2 init) as [t2|e] eqn:L2; cbn [bind] in L; [|discriminate].
    injection L as <-. rewrite writable_app in W. apply andb_true_iff in W as [W1 W2].
    exists t1, t2. rewrite !process_dataset_ok_iff. auto 10.
  - intros (t1 & t2 & P1 & P2 & ->).
    apply process_dataset_ok_iff in P1 as (N & L1 & W1).
    apply process_dataset_ok_iff in P2 as (_ & L2 & W2).
    rewrite L1, L2, writable_app, W1, W2. auto.
Qed.

(** X7. The columns of the three tables, in the order they are written. *)
Theorem table_columns fp effs t :
  process_dataset repr args fp = (effs, Ok t) ->
  Forall (fun s => map fst s = ["user_id"; "item_id"; "timestamp"; "review"; "rating";
                                "appearance"; "aroma"; "palate"; "taste"]) (data t) /\
  Forall (fun u => map fst u = ["user_id"; "user_name"]) (users t) /\
  Forall (fun i => map fst i = ["item_id"; "name"; "style"; "abv"; "description"])
    (items t).
Proof.
  intros H. pose proof (process_dataset_aligned _ _ _ _ _ H) as A.
  induction A as [|row rows s ds u us i is_ B A IH].
  - repeat split; constructor.
  - destruct IH as (D & U & I).
    destruct B as (uid & un & iid & nm & st & ab & ts & rv & r & a1 & a2 & a3 & a4 & B).
    destruct B as (_ & _ & _ & _ & _ & _ & _ & _ & _ & _ & _ & _ & _ & -> & -> & ->).
    repeat split; constructor; auto.
Qed.

End Concat.

Lemma table_columns_witness :
  Forall (fun u => map fst u = ["user_id"; "user_name"]) (users example_tables).
Proof.
  assert (H : process_dataset repr_none default_args example_file
              = (fst example_run, Ok example_tables)) by (vm_compute; reflexivity).
  exact (proj1 (proj2 (table_columns repr_none default_args _ _ _ H))).
Defined.

(** ** White space around a line *)

Lemma string_rev_onto_app s : forall acc, string_rev_onto s acc = string_rev s ++ acc.
Proof.
  unfold string_rev. induction s as [|c s IH]; intros acc; simpl; [reflexivity|].
  rewrite (IH (String c acc)), (IH (String c EmptyString)), append_assoc. reflexivity.
Qed.

Lemma append_empty_r (s : string) : s ++ "" = s.
Proof. induction s as [|c s IH]; simpl; [reflexivity | now rewrite IH]. Qed.

Lemma string_rev_app a b : string_rev (a ++ b) = string_rev b ++ string_rev a.
Proof.
  induction a as [|c a IH]; simpl.
  - now rewrite append_empty_r.
  - unfold string_rev in *. simpl.
    rewrite (string_rev_onto_app (a ++ b)), (string_rev_onto_app a).
    fold (string_rev (a ++ b)). fold (string_rev a).
    unfold string_rev in *. rewrite IH, append_assoc. reflexivity.
Qed.

Ltac split_bytes :=
  repeat match goal with
         | |- context [(?x =? ?y)%N] => destruct (N.eqb_spec x y); try lia
         | |- context [(?x <=? ?y)%N] => destruct (N.leb_spec x y); try lia
         end;
  cbn; intros; try discriminate; try lia; auto.

Lemma starter_space2 a c : starter c = true -> space2 a c = false.
Proof. unfold starter, space2, isspace, in_range. split_bytes. Qed.

Lemma starter_space3_mid a b c : starter b = true -> space3 a b c = false.
Proof. unfold starter, space3, isspace, in_range. split_bytes. Qed.

Lemma starter_space3_last a b c : starter c = true -> space3 a b c = false.
Proof. unfold starter, space3, isspace, in_range. split_bytes. Qed.

Lemma space2_starter a b : space2 a b = true -> starter a = true.
Proof. unfold starter, space2, isspace, in_range. split_bytes. Qed.

Lemma space3_starter a b c : space3 a b c = true -> starter a = true.
Proof. unfold starter, space3, isspace, in_range. split_bytes. Qed.

Lemma space2_not_isspace a b : space2 a b = true -> isspace a = false /\ isspace b = false.
Proof. unfold space2, isspace, in_range. split_bytes. Qed.

Lemma space3_bytes a b c :
  space3 a b c = true ->
  (225 <= code a <= 227 /\ 128 <= code b <= 154 /\ 128 <= code c <= 175)%N.
Proof. unfold space3, in_range. split_bytes. Qed.

Lemma high_not_isspace a : (128 <= code a)%N -> isspace a = false.
Proof. unfold isspace, in_range. split_bytes. Qed.

Lemma not_lead_space2 a b : (code a <> 194)%N -> space2 a b = false.
Proof. unfold space2. split_bytes. Qed.

(** Induction on a blank text, character by character. *)
Lemma blank_induction (P : string -> Prop) :
  P "" ->
  (forall a r, isspace a = true -> blank r = true -> P r -> P (String a r)) ->
  (forall a b r, space2 a b = true -> blank r = true -> P r ->
     P (String a (String b r))) ->
  (forall a b c r, space3 a b c = true -> blank r = true -> P r ->
     P (String a (String b (String c r)))) ->
  forall w, blank w = true -> P w.
Proof.
  intros P0 P1 P2 P3 w.
  assert (H : forall n w, (String.length w <= n)%nat -> blank w = true -> P w).
  { clear w. induction n as [|n IH]; intros w L B.
    - destruct w; [exact P0 | simpl in L; lia].
    - destruct w as [|a [|b [|c r]]]; [exact P0 | | |]; cbn [blank String.length] in B, L.
      + destruct (isspace a) eqn:A; [|discriminate]. apply P1; auto.
      + destruct (isspace a) eqn:A.
        * apply P1; auto. apply IH; [simpl; lia | exact B].
        * destruct (space2 a b) eqn:S2; [|discriminate]. apply P2; auto.
      + destruct (isspace a) eqn:A.
        * apply P1; auto. apply IH; [simpl; lia | exact B].
        * destruct (space2 a b) eqn:S2.
          -- apply P2; auto. apply IH; [simpl; lia | exact B].
          -- apply andb_true_iff in B as [S3 B]. apply P3; auto.
             apply IH; [lia | exact B]. }
  intros B. exact (H _ w (Nat.le_refl _) B).
Qed.

Lemma lstrip_blank w : blank w = true -> forall s, lstrip (w ++ s) = lstrip s.
Proof.
  intros B. pattern w. revert w B. apply blank_induction.
  - reflexivity.
  - intros a r A _ IH s. cbn [append lstrip]. now rewrite A.
  - intros a b r S2 _ IH s. destruct (space2_not_isspace _ _ S2) as [A _].
    cbn [append lstrip]. now rewrite A, S2.
  - intros a b c r S3 _ IH s. destruct (space3_bytes _ _ _ S3) as (A & B & C).
    cbn [append lstrip].
    rewrite (high_not_isspace a), (not_lead_space2 a b), S3 by lia. apply IH.
Qed.

Lemma lstrip_rev_blank w :
  blank w = true -> forall s, lstrip_rev (string_rev w ++ s) = lstrip_rev s.
Proof.
  intros B. pattern w. revert w B. apply blank_induction.
  - reflexivity.
  - intros a r A _ IH s.
    change (String a r) with (String a "" ++ r).
    rewrite string_rev_app, append_assoc, IH. cbn [string_rev string_rev_onto append].
    cbn [lstrip_rev]. now rewrite A.
  - intros a b r S2 _ IH s. destruct (space2_not_isspace _ _ S2) as [_ Bs].
    change (String a (String b r)) with (String a (String b "") ++ r).
    rewrite string_rev_app, append_assoc, IH.
    change (string_rev (String a (String b ""))) with (String b (String a "")).
    cbn [append lstrip_rev]. now rewrite Bs, S2.
  - intros a b c r S3 _ IH s. destruct (space3_bytes _ _ _ S3) as (A & Bb & C).
    change (String a (String b (String c r))) with (String a (String b (String c "")) ++ r).
    rewrite string_rev_app, append_assoc, IH.
    change (string_rev (String a (String b (String c ""))))
      with (String c (String b (String a ""))).
    cbn [append lstrip_rev].
    now rewrite (high_not_isspace c), (not_lead_space2 b c), S3 by lia.
Qed.

Lemma blank_starter c w : blank (String c w) = true -> starter c = true.
Proof.
  cbn [blank]. destruct (isspace c) eqn:A.
  - intros _. unfold starter. now rewrite A.
  - destruct w as [|b [|d r]]; [discriminate | |].
    + destruct (space2 c b) eqn:S2; [|discriminate]. intros _. eapply space2_starter; eauto.
    + destruct (space2 c b) eqn:S2; [intros _; eapply space2_starter; eauto|].
      intros H. apply andb_true_iff in H as [S3 _]. eapply space3_starter; eauto.
Qed.

Lemma lstrip_app_blank w :
  blank w = true ->
  forall s,
    lstrip (s ++ w)
    = match lstrip s with
      | EmptyString => EmptyString
      | u => u ++ w
      end.
Proof.
  intros B.
  assert (E : lstrip w = "").
  { pose proof (lstrip_blank w B "") as L. now rewrite append_empty_r in L. }
  assert (H : forall n s, (String.length s <= n)%nat ->
                lstrip (s ++ w) = match lstrip s with
                                  | EmptyString => EmptyString
                                  | u => u ++ w
                                  end).
  { induction n as [|n IH]; intros s L.
    - destruct s; [exact E | simpl in L; lia].
    - destruct s as [|a r1]; [exact E|]. cbn [String.length] in L.
      cbn [append lstrip]. destruct (isspace a) eqn:A; [apply IH; lia|].
      destruct r1 as [|b r2].
      + cbn [append]. destruct w as [|c w']; [reflexivity|].
        pose proof (blank_starter _ _ B) as St.
        rewrite (starter_space2 a c St).
        destruct w' as [|d w'']; [reflexivity|].
        now rewrite (starter_space3_mid a c d St).
      + cbn [String.length] in L. cbn [append].
        destruct (space2 a b) eqn:S2; [apply IH; lia|].
        destruct r2 as [|c r3].
        * cbn [append]. destruct w as [|d w']; [reflexivity|].
          pose proof (blank_starter _ _ B) as St.
          now rewrite (starter_space3_last a b d St).
        * cbn [String.length] in L. cbn [append].
          destruct (space3 a b c) eqn:S3; [apply IH; lia | reflexivity]. }
  intros s. exact (H _ s (Nat.le_refl _)).
Qed.

Lemma strip_blank w1 s w2 :
  blank w1 = true -> blank w2 = true -> strip (w1 ++ s ++ w2) = strip s.
Proof.
  intros B1 B2. unfold strip, rstrip.
  rewrite (lstrip_blank _ B1), (lstrip_app_blank _ B2).
  destruct (lstrip s) as [|c u]; [reflexivity|].
  now rewrite string_rev_app, (lstrip_rev_blank _ B2).
Qed.

(** X8. White space before and after a line, whatever characters of Unicode
    it is made of, changes nothing. *)
Theorem surrounding_space_ignored repr args w1 line w2 t :
  blank w1 = true -> blank w2 = true ->
  process_line repr args (w1 ++ line ++ w2) t = process_line repr args line t.
Proof. intros B1 B2. unfold process_line. now rewrite strip_blank. Qed.

Lemma surrounding_space_ignored_witness :
  process_line repr_none default_args
    ((" " ++ nbsp) ++ "{}" ++ ideographic_space ++ chr 13 ++ chr 10) init
  = process_line repr_none default_args "{}" init.
Proof.
  exact (surrounding_space_ignored repr_none default_args (" " ++ nbsp) "{}"
           (ideographic_space ++ chr 13 ++ chr 10) init eq_refl eq_refl).
Defined.

(** ** The target bounds do not decide how a run ends *)

Section TargetBounds.

Variable repr : value -> string.
Variables args1 args2 : Args.

Lemma rescaled_same row key lo1 hi1 lo2 hi2 :
  same_outcome (fun _ _ => True) (rescaled row key lo1 hi1) (rescaled row key lo2 hi2).
Proof.
  unfold rescaled.
  repeat match goal with
  | |- context [bind ?r _] =>
      match r with
      | bind _ _ => fail 1
      | rescale _ _ _ _ _ => fail 1
      | _ => destruct r; cbn [bind]; [|reflexivity]
      end
  end.
  unfold rescale, truediv. destruct (PrimFloat.eqb _ _); simpl; auto.
Qed.

Lemma process_line_same line t1 t2 :
  same_but_ratings t1 t2 ->
  same_outcome same_but_ratings
    (process_line repr args1 line t1) (process_line repr args2 line t2).
Proof.
  intros (U & I & D). unfold process_line.
  destruct (json_loads (strip line)) as [row|e]; cbn [bind]; [|reflexivity].
  destruct (truthy row); cbn [negb]; [|simpl; repeat split; assumption].
  repeat match goal with
  | |- context [bind (getitem ?a ?b) _] =>
      destruct (getitem a b); cbn [bind]; [|reflexivity]
  end.
  unfold aspects. cbn [set_aspects].
  repeat match goal with
  | |- context [bind (rescaled ?row ?k (?f args1) (?g args1)) _] =>
      let R := fresh "R" in
      pose proof (rescaled_same row k (f args1) (g args1) (f args2) (g args2)) as R;
      destruct (rescaled row k (f args1) (g args1));
      destruct (rescaled row k (f args2) (g args2));
      cbn [bind]; simpl in R; try contradiction; try exact R; clear R
  end.
  split; [|split]; cbn [data users items]; [now rewrite U | now rewrite I |].
  apply Forall2_app; [assumption|]. constructor; [|constructor].
  unfold agree_off_ratings.
  repeat (constructor;
          [cbn [fst snd]; split; [reflexivity|]; split;
           [intros K;
            first [now (do 2 eexists; split; reflexivity)
                  | exfalso; simpl in K; intuition discriminate]
           | intros N; first [reflexivity | exfalso; apply N; simpl; tauto]]|]).
  constructor.
Qed.

Lemma loop_same fp : forall t1 t2,
  same_but_ratings t1 t2 ->
  same_outcome same_but_ratings (loop repr args1 fp t1) (loop repr args2 fp t2).
Proof.
  induction fp as [|line fp IH]; intros t1 t2 S; cbn [loop]; [exact S|].
  pose proof (process_line_same line t1 t2 S) as P.
  destruct (process_line repr args1 line t1), (process_line repr args2 line t2);
    simpl in P; try contradiction; cbn [bind]; auto.
Qed.

Lemma agree_row_ok s1 s2 :
  agree_off_ratings s1 s2 ->
  forallb (fun kv : string * value => cell_ok (snd kv)) s1
  = forallb (fun kv : string * value => cell_ok (snd kv)) s2.
Proof.
  induction 1 as [|kv1 kv2 r1 r2 (_ & R & N) _ IH]; [reflexivity|].
  cbn [forallb]. rewrite IH. f_equal.
  destruct (in_dec string_dec (fst kv1) rating_columns) as [i|n].
  - destruct (R i) as (x1 & x2 & -> & ->). reflexivity.
  - now rewrite (N n).
Qed.

Lemma same_but_ratings_ok t1 t2 :
  same_but_ratings t1 t2 ->
  table_ok (data t1) = table_ok (data t2) /\
  table_ok (users t1) = table_ok (users t2) /\
  table_ok (items t1) = table_ok (items t2).
Proof.
  intros (U & I & D). rewrite U, I. split; [|auto].
  unfold table_ok. induction D as [|s1 s2 d1 d2 A _ IH]; [reflexivity|].
  cbn [forallb]. now rewrite IH, (agree_row_ok _ _ A).
Qed.

(** X9. Whatever the target bounds, the loop over the lines ends the same
    way: with the same exception, or with tables that differ only in the five
    rating columns.  Two runs into the same directory then end the same way
    too, up to the writing of the tables, and act on the same files. *)
Theorem bounds_change_ratings_only fp :
  same_outcome same_but_ratings (loop repr args1 fp init) (loop repr args2 fp init) /\
  (output_base_dir args1 = output_base_dir args2 ->
   dataset_name args1 = dataset_name args2 ->
   same_outcome same_but_ratings
     (snd (process_dataset repr args1 fp)) (snd (process_dataset repr args2 fp)) /\
   map effect_path (fst (process_dataset repr args1 fp))
   = map effect_path (fst (process_dataset repr args2 fp))).
Proof.
  assert (L : same_outcome same_but_ratings
                (loop repr args1 fp init) (loop repr args2 fp init)).
  { apply loop_same. repeat split. constructor. }
  split; [exact L|]. intros E1 E2.
  unfold process_dataset, to_csv. fold init. rewrite E1, E2.
  destruct (makedirs _); [|split; reflexivity].
  destruct (loop repr args1 fp init) as [t1|e1], (loop repr args2 fp init) as [t2|e2];
    cbn [same_outcome] in L; try contradiction; [|split; [exact L | reflexivity]].
  destruct (same_but_ratings_ok _ _ L) as (D & U & I). rewrite D, U, I.
  destruct (table_ok (data t2)); [|split; reflexivity].
  destruct (table_ok (users t2)); [|split; reflexivity].
  destruct (table_ok (items t2)); split; try reflexivity. exact L.
Qed.

End TargetBounds.

(** ** The lines a run accepts *)

Section Accepted.

Variable repr : value -> string.
Variable args : Args.

Lemma rescaled_ok_wf row key lo hi r :
  rescaled row key lo hi = Ok r ->
  exists s, getitem row key = Ok (VStr s) /\ well_formed s.
Proof.
  intros R. destruct (rescaled_ok_inv _ _ _ _ _ R) as [v G].
  destruct v as [| | | |s| |];
    try (unfold rescaled in R; rewrite G in R; discriminate).
  exists s. split; [exact G|].
  destruct (float_of_string (hd "" (split s "/"))) eqn:X0.
  - unfold rescaled in R. rewrite G in R. cbn [bind str_split] in R.
    destruct (split_cases s "/") as [[p0 S] | (p0 & p1 & rest & S)]; rewrite S in *.
    + cbn [index nth_error bind] in R. destruct (float_ p0); discriminate.
    + cbn [index nth_error bind] in R.
      destruct (float_ p0) as [x|] eqn:X; [|discriminate]. cbn [bind] in R.
      destruct (float_ p1) as [b|] eqn:B; [|discriminate]. cbn [bind] in R.
      destruct (PrimFloat.eqb b 0) eqn:Z.
      * rewrite (rescale_zero _ _ _ _ Z) in R. discriminate.
      * exists p0, p1, rest, x, b. auto using float_ok_inv.
  - exfalso. unfold rescaled in R. rewrite G in R. cbn [bind str_split] in R.
    destruct (split_cases s "/") as [[p0 S] | (p0 & p1 & rest & S)]; rewrite S in *;
      cbn [index nth_error bind hd] in *; unfold float_ in R at 1; rewrite X0 in R;
      discriminate.
Qed.

Lemma rescaled_wf row key lo hi s :
  getitem row key = Ok (VStr s) -> well_formed s ->
  exists r, rescaled row key lo hi = Ok r.
Proof.
  intros G (p0 & p1 & rest & x & b & S & X & B & Z).
  eexists. eapply rescaled_accepts; eauto.
Qed.

Lemma getitem_present d k : dict_get k d <> None -> exists v, getitem (VDict d) k = Ok v.
Proof. simpl. destruct (dict_get k d); [eauto | congruence]. Qed.

Lemma getitem_ok_dict row k v :
  getitem row k = Ok v -> exists d, row = VDict d /\ dict_get k d = Some v.
Proof.
  destruct row; simpl; try discriminate.
  destruct (dict_get k d) eqn:E; [|discriminate]. intros [= ->]. eauto.
Qed.

Lemma built_from_acceptable row u i s : built_from repr args row u i s -> acceptable row.
Proof.
  intros (uid & un & iid & nm & st & ab & ts & rv & r & a1 & a2 & a3 & a4 & B).
  destruct B as (G1 & G2 & G3 & G4 & G5 & G6 & G7 & G8 & R & A1 & A2 & A3 & A4 & _).
  destruct (getitem_ok_dict _ _ _ G1) as (d & -> & _). exists d.
  split; [reflexivity|]. split.
  - intros k K. simpl in K.
    repeat (destruct K as [<- | K];
            [match goal with
             | G : getitem (VDict d) ?c = Ok _ |- dict_get ?c d <> None =>
                 simpl in G; destruct (dict_get c d); [discriminate | discriminate G]
             end|]).
    contradiction.
  - intros k K.
    assert (H : exists lo hi r', rescaled (VDict d) (col k) lo hi = Ok r').
    { apply col_cases in K as [-> | [-> | [-> | [-> | ->]]]]; eauto. }
    destruct H as (lo & hi & r' & H).
    destruct (rescaled_ok_wf _ _ _ _ _ H) as (s0 & G & W).
    exists s0. split; [|exact W].
    destruct (getitem_ok_dict _ _ _ G) as (d' & [= <-] & D). exact D.
Qed.

Lemma acceptable_truthy row : acceptable row -> truthy row = true.
Proof.
  intros (d & -> & P & _).
  destruct (getitem_present d (col "user_id") (P _ (or_introl eq_refl))) as [v G].
  exact (getitem_truthy _ _ _ G).
Qed.

Lemma acceptable_processed line t row :
  json_loads (strip line) = Ok row -> acceptable row ->
  exists t', process_line repr args line t = Ok t'.
Proof.
  intros J A. pose proof (acceptable_truthy _ A) as T.
  destruct A as (d & -> & P & Rt).
  unfold process_line. rewrite J. cbn [bind]. rewrite T. cbn [negb].
  repeat match goal with
  | |- context [bind (getitem (VDict d) ?c) _] =>
      let v := fresh "v" in
      let G := fresh "G" in
      destruct (getitem_present d c) as [v G];
      [apply P; simpl; auto 10 | rewrite G; cbn [bind]]
  end.
  unfold aspects. cbn [set_aspects].
  repeat match goal with
  | |- context [bind (rescaled (VDict d) (col ?k) ?lo ?hi) _] =>
      let s := fresh "s" in
      let D := fresh "D" in
      let W := fresh "W" in
      let r := fresh "r" in
      let R := fresh "R" in
      destruct (Rt k) as (s & D & W); [simpl; auto 10|];
      destruct (rescaled_wf (VDict d) (col k) lo hi s) as [r R];
      [simpl; simpl in D; rewrite D; reflexivity | exact W |];
      rewrite R; cbn [bind]; clear s D W R
  end.
  eauto.
Qed.

Lemma processed_acceptable line t t' row :
  json_loads (strip line) = Ok row -> truthy row = true ->
  process_line repr args line t = Ok t' -> acceptable row.
Proof.
  intros J T P. apply process_line_inv in P as (row' & J' & C).
  rewrite J in J'. injection J' as <-.
  destruct C as [[F _] | (_ & u & i & s & B & _)]; [congruence|].
  eapply built_from_acceptable; eauto.
Qed.

(** X19. A line that decodes to a truthy value is made into rows, one at
    the end of each table, exactly when it is an object with the eight fields
    copied as they are and five rating strings the rescaling step accepts;
    every other such line ends the run. *)
Theorem line_accepted_iff line t row :
  json_loads (strip line) = Ok row -> truthy row = true ->
  ((exists u i s,
      built_from repr args row u i s /\
      process_line repr args line t
      = Ok {| data := (data t ++ [s])%list; users := (users t ++ [u])%list;
              items := (items t ++ [i])%list |})
   <-> acceptable row) /\
  ((exists t', process_line repr args line t = Ok t') <-> acceptable row) /\
  (~ acceptable row -> raises (process_line repr args line t)).
Proof.
  intros J T.
  assert (I : (exists t', process_line repr args line t = Ok t') <-> acceptable row).
  { split.
    - intros [t' P]. eapply processed_acceptable; eauto.
    - now apply acceptable_processed. }
  split; [|split; [exact I|]].
  - split.
    + intros (u & i & s & _ & P). apply I. eauto.
    + intros A. apply I in A as [t' P]. pose proof P as P'.
      apply process_line_inv in P' as (row' & J' & C).
      rewrite J in J'. injection J' as <-.
      destruct C as [[F _] | (_ & u & i & s & B & ->)]; [congruence|].
      exists u, i, s. auto.
  - intros N. destruct (ok_or_raises (process_line repr args line t)) as [O | R];
      [now apply I in O | exact R].
Qed.

Lemma loop_passable fp : forall t,
  (exists t', loop repr args fp t = Ok t') <-> Forall passable fp.
Proof.
  induction fp as [|line fp IH]; intros t; cbn [loop].
  - split; [constructor | eauto].
  - split.
    + intros [t' L]. apply bind_ok in L as (t1 & P & L).
      constructor; [|apply (IH t1); eauto].
      pose proof P as P'. apply process_line_inv in P' as (row & J & C).
      exists row. split; [exact J|].
      destruct C as [[F _] | (T & _)]; [now left | right].
      eapply processed_acceptable; eauto.
    + intros F. inversion F as [|? ? (row & J & C) F']; subst.
      assert (P : exists t1, process_line repr args line t = Ok t1).
      { destruct C as [Fa | A].
        - exists t. eapply process_line_skip; eauto.
        - now apply acceptable_processed with (row := row). }
      destruct P as [t1 P]. rewrite P. cbn [bind]. now apply IH.
Qed.

(** X20. The loop over the lines gets through the file, so that the script
    comes to write its tables, exactly when every line decodes, to a falsy
    value or to an acceptable row.  The three tables are then written exactly
    when the directory has a name and no text cell holds a lone surrogate. *)
Theorem run_completes_iff fp :
  ((exists t, loop repr args fp init = Ok t) <-> Forall passable fp) /\
  (forall t,
     snd (process_dataset repr args fp) = Ok t <->
     join (output_base_dir args) (dataset_name args) <> "" /\
     loop repr args fp init = Ok t /\ writable t = true) /\
  ((exists t, snd (process_dataset repr args fp) = Ok t) -> Forall passable fp).
Proof.
  split; [apply loop_passable|]. split; [apply process_dataset_ok_iff|].
  intros [t P]. apply process_dataset_ok_iff in P as (_ & L & _).
  apply (loop_passable fp init). eauto.
Qed.

End Accepted.

Lemma line_accepted_iff_witness :
  exists row,
    json_loads (strip (review_line "4/5")) = Ok row /\ acceptable row /\
    raises (process_line repr_none default_args "[1]" init).
Proof.
  destruct (json_loads (strip (review_line "4/5"))) as [row|e] eqn:J;
    [|vm_compute in J; discriminate].
  exists row. split; [reflexivity|].
  assert (T : truthy row = true) by (vm_compute in J; injection J as <-; reflexivity).
  split.
  - apply (proj1 (proj2 (line_accepted_iff repr_none default_args (review_line "4/5") init
                           row J T))).
    destruct (process_line repr_none default_args (review_line "4/5") init) as [t'|e] eqn:P;
      [eauto | vm_compute in P; discriminate].
  - apply (proj2 (proj2 (line_accepted_iff repr_none default_args "[1]" init
                           (VList [VInt 1]) eq_refl eq_refl))).
    intros (d & D & _). discriminate.
Defined.

(** ** The prompting script *)

Section Substrings.

Import Prompting.

Lemma startswith_spec p : forall s,
  startswith p s = true <-> exists post, s = p ++ post.
Proof.
  induction p as [|a p IH]; intros s; simpl.
  - split; [intros _; now exists s | reflexivity].
  - destruct s as [|b s]; [split; [discriminate | intros [post H]; discriminate]|].
    rewrite andb_true_iff, IH. split.
    + intros [E [post ->]]. apply Ascii.eqb_eq in E as ->. now exists post.
    + intros [post [= -> ->]]. split; [apply Ascii.eqb_refl | now exists post].
Qed.

Lemma str_in_spec p s : str_in p s = true <-> occurs_in p s.
Proof.
  unfold occurs_in. induction s as [|c s IH]; simpl.
  - rewrite orb_false_r, startswith_spec. split.
    + intros [post H]. now exists "", post.
    + intros (pre & post & H). destruct pre; [now exists post | discriminate].
  - rewrite orb_true_iff, startswith_spec, IH. split.
    + intros [[post H] | (pre & post & ->)].
      * now exists "", post.
      * now exists (String c pre), post.
    + intros (pre & post & H). destruct pre as [|a pre].
      * left. now exists post.
      * right. injection H as _ ->. now exists pre, post.
Qed.

(** X10. The class is chosen by what the model's name contains; ["gpt2"] comes
    first. *)
Theorem model_choice args :
  let name := model_name_or_path args in
  (occurs_in "gpt2" name ->
   option_map class (get_prompt_model args) = Some GPT2PromptModel) /\
  (~ occurs_in "gpt2" name -> occurs_in "t5" name ->
   option_map class (get_prompt_model args) = Some T5PromptModel) /\
  (~ occurs_in "gpt2" name -> ~ occurs_in "t5" name -> get_prompt_model args = None) /\
  (forall m, get_prompt_model args = Some m ->
     model_from m = name /\ tokenizer_from m = tokenizer_name_or_path args).
Proof.
  intros name. unfold get_prompt_model. fold name.
  destruct (str_in "gpt2" name) eqn:G; [|destruct (str_in "t5" name) eqn:T].
  - apply str_in_spec in G.
    split; [reflexivity|]. split; [tauto|]. split; [tauto|].
    intros m [= <-]. split; reflexivity.
  - apply str_in_spec in T.
    assert (~ occurs_in "gpt2" name) by (rewrite <- str_in_spec; congruence).
    split; [tauto|]. split; [reflexivity|]. split; [tauto|].
    intros m [= <-]. split; reflexivity.
  - assert (~ occurs_in "gpt2" name) by (rewrite <- str_in_spec; congruence).
    assert (~ occurs_in "t5" name) by (rewrite <- str_in_spec; congruence).
    split; [tauto|]. split; [tauto|]. split; [reflexivity | discriminate].
Qed.

End Substrings.

Section GPT2Facts.

Import Prompting.

Variable C : Type.
Variable ids : Type.
Variable generate : list (list C) -> Z -> Z -> list ids.
Variable decode : ids -> list C.

Lemma index_skipn {A : Type} (l : list A) i a rest :
  skipn i l = a :: rest -> index l i = Ok a /\ skipn (S i) l = rest.
Proof.
  revert l. induction i as [|i IH]; intros l H.
  - destruct l; [discriminate|]. injection H as -> ->. split; reflexivity.
  - destruct l as [|b l]; [discriminate|]. simpl in H. apply IH in H as [H1 H2].
    split; [exact H1 | exact H2].
Qed.

Lemma strip_prompts_echo source_text : forall output_ids i completions,
  map decode output_ids
  = map (fun '(source, completion) => (source ++ completion)%list)
      (combine (skipn i source_text) completions) ->
  List.length completions = List.length (skipn i source_text) ->
  strip_prompts C ids decode source_text i output_ids = Ok completions.
Proof.
  induction output_ids as [|out rest IH]; intros i completions M L; simpl.
  - destruct (skipn i source_text) as [|s ss]; destruct completions as [|c cs];
      try discriminate; reflexivity.
  - destruct (skipn i source_text) as [|s ss] eqn:K; destruct completions as [|c cs];
      try discriminate.
    simpl in M, L. injection M as D M. injection L as L.
    destruct (index_skipn _ _ _ _ K) as [-> K']. cbn [bind].
    rewrite (IH (S i) cs); [|now rewrite K' | now rewrite K']. cbn [bind].
    rewrite D, skipn_app, Nat.sub_diag, skipn_all. reflexivity.
Qed.

Lemma strip_prompts_excess source_text : forall output_ids i,
  (i <= List.length source_text)%nat ->
  (List.length source_text < i + List.length output_ids)%nat ->
  strip_prompts C ids decode source_text i output_ids = Raise IndexError.
Proof.
  induction output_ids as [|out rest IH]; intros i I L; simpl in *.
  - lia.
  - unfold index. destruct (nth_error source_text i) as [s|] eqn:N; [|reflexivity].
    assert (i < List.length source_text)%nat by (apply nth_error_Some; congruence).
    cbn [bind]. rewrite IH by lia. reflexivity.
Qed.

(** X11. When each generated sequence decodes to its prompt followed by a
    continuation, the wrapper returns the continuations; when the model returns
    more sequences than there are prompts, it raises [IndexError]. *)
Theorem gpt2_strips_prompts args b source_text :
  batch_get b "source_text" = Ok source_text ->
  let output_ids :=
    generate source_text (max_source_length args + max_target_length args)
      (max_target_length args) in
  (forall completions,
     List.length completions = List.length source_text ->
     map decode output_ids
     = map (fun '(source, completion) => (source ++ completion)%list)
         (combine source_text completions) ->
     GPT2_process_batch C ids generate decode args b = Ok completions) /\
  ((List.length source_text < List.length output_ids)%nat ->
   GPT2_process_batch C ids generate decode args b = Raise IndexError).
Proof.
  intros G output_ids. unfold GPT2_process_batch. rewrite G. cbn [bind].
  fold output_ids. split.
  - intros completions L M. now apply strip_prompts_echo.
  - intros L. apply strip_prompts_excess; simpl; lia.
Qed.

End GPT2Facts.

Lemma gpt2_strips_prompts_witness :
  Prompting.GPT2_process_batch nat (list nat) echo_model (fun x => x)
    Prompting.default_args [("source_text", [[1; 2]; [3]])%nat]
  = Ok [[7; 8]; [7; 8]]%nat.
Proof.
  apply (gpt2_strips_prompts nat (list nat) echo_model (fun x => x)
           Prompting.default_args [("source_text", [[1; 2]; [3]])%nat]
           [[1; 2]; [3]]%nat eq_refl);
    reflexivity.
Defined.

Section IO.

Import Prompting.

Lemma io_bind_lift {A B : Type} (r : result A) (k : A -> io_result B) :
  io_bind (lift r) k = match r with Ok a => k a | Raise e => ([], Raise e) end.
Proof. destruct r as [a|e]; simpl; [now destruct (k a) | reflexivity]. Qed.

Lemma io_bind_ret {A B : Type} (a : A) (k : A -> io_result B) :
  io_bind (io_ret a) k = k a.
Proof. unfold io_ret. simpl. now destruct (k a). Qed.

Lemma io_bind_emit {B : Type} (e : io) (k : unit -> io_result B) :
  io_bind (emit e) k = (e :: fst (k tt), snd (k tt)).
Proof. unfold emit. simpl. now destruct (k tt). Qed.

Lemma io_bind_ok {A B : Type} (m : io_result A) (k : A -> io_result B) out b :
  io_bind m k = (out, Ok b) ->
  exists o1 a o2, m = (o1, Ok a) /\ k a = (o2, Ok b) /\ out = (o1 ++ o2)%list.
Proof.
  destruct m as [o1 [a|e]]; simpl; [|discriminate].
  destruct (k a) as [o2 r] eqn:K. intros [= <- ->]. now exists o1, a, o2.
Qed.

Lemma fst_io_bind {A B : Type} (m : io_result A) (k : A -> io_result B) :
  fst m = [] -> (forall a, fst (k a) = []) -> fst (io_bind m k) = [].
Proof.
  destruct m as [o1 [a|e]]; simpl; intros -> H; [|reflexivity].
  specialize (H a). destruct (k a). simpl in *. exact H.
Qed.

Lemma snd_io_bind_raise {A B : Type} (m : io_result A) (k : A -> io_result B) :
  (forall a, exists e, snd (k a) = Raise e) -> exists e, snd (io_bind m k) = Raise e.
Proof.
  intros H. destruct m as [o1 [a|e]]; simpl; [|eauto].
  destruct (H a) as [e E]. destruct (k a). simpl in *. eauto.
Qed.

End IO.

Section LoopFacts.

Import Prompting.

Variable V : Type.
Variable Scores : Type.
Variable str_ : V -> string.
Variable str_scores : Scores -> string.
Variable get_review_rating : V -> result (V * V).
Variable evaluate_fn : list V -> list V -> list V -> list V -> Args -> result Scores.
Variable process_batch : batch V -> result (list V).

Abbreviation turn := (turn V Scores str_ str_scores get_review_rating evaluate_fn).
Abbreviation turns := (turns V Scores str_ str_scores get_review_rating evaluate_fn).
Abbreviation prompting := (prompting V Scores str_ str_scores get_review_rating evaluate_fn).
Abbreviation periodic := (periodic V Scores str_scores evaluate_fn).
Abbreviation log_examples := (log_examples V str_).
Abbreviation accumulate := (accumulate V get_review_rating).
Abbreviation lists := (lists V).

(** *** A quiet run *)

Lemma turn_quiet args i b st : verbose args = false -> fst (turn process_batch args i b st) = [].
Proof.
  intros Q. unfold Prompting.turn, Prompting.log_examples, Prompting.periodic.
  rewrite Q. cbn [andb].
  rewrite io_bind_lift. destruct (process_batch b) as [outputs|e]; [|reflexivity].
  rewrite io_bind_ret, io_bind_lift.
  destruct (accumulate args b outputs st); [|reflexivity].
  rewrite io_bind_ret. reflexivity.
Qed.

Lemma turns_quiet args dataloader : forall i st,
  verbose args = false -> fst (turns process_batch args i dataloader st) = [].
Proof.
  induction dataloader as [|b rest IH]; intros i st Q; cbn [Prompting.turns].
  - reflexivity.
  - apply fst_io_bind; [now apply turn_quiet | intros; now apply IH].
Qed.

(** X12. With [verbose] off, [prompting] prints nothing and writes nothing. *)
Theorem quiet_run args dataloader :
  verbose args = false -> fst (prompting process_batch dataloader args) = [].
Proof.
  intros Q. unfold Prompting.prompting.
  apply fst_io_bind; [now apply turns_quiet|]. intros st.
  rewrite io_bind_lift. destruct (evaluate_fn _ _ _ _ args); [|reflexivity].
  rewrite Q, !io_bind_ret. reflexivity.
Qed.

(** *** [evaluate_every = 0] *)

Lemma turn_zero_period args i b st :
  verbose args = true -> evaluate_every args = 0 ->
  exists e, snd (turn process_batch args i b st) = Raise e.
Proof.
  intros Vb Z. unfold Prompting.turn.
  apply snd_io_bind_raise. intros outputs.
  apply snd_io_bind_raise. intros i'.
  apply snd_io_bind_raise. intros st'.
  unfold Prompting.periodic. rewrite Vb, Z. cbn [Z.eqb].
  rewrite io_bind_lift. eexists. reflexivity.
Qed.

(** X13. With [verbose] on and [evaluate_every = 0], no run over a loader that has
    a batch completes. *)
Theorem zero_period_never_completes args dataloader :
  verbose args = true -> evaluate_every args = 0 -> dataloader <> [] ->
  exists e, snd (prompting process_batch dataloader args) = Raise e.
Proof.
  intros Vb Z N. destruct dataloader as [|b rest]; [congruence|].
  unfold Prompting.prompting. cbn [Prompting.turns].
  destruct (turn_zero_period args 0 b
              {| reviews_predictions := []; reviews_references := [];
                 ratings_predictions := []; ratings_references := [] |} Vb Z) as [e E].
  destruct (turn process_batch args 0 b _) as [o [st|e']]; simpl in E; [discriminate|].
  simpl. eauto.
Qed.

(** *** The index of the periodic evaluation *)

Lemma log_examples_first args b outputs out i' :
  verbose args = true ->
  log_examples args 0 b outputs = (out, Ok i') ->
  i' = after_range V 0 outputs /\
  exists log, out = [Print log; Append (log_file_path args) log].
Proof.
  intros Vb. unfold Prompting.log_examples. rewrite Vb. cbn [andb Z.eqb].
  rewrite io_bind_lift. destruct (examples V str_ b outputs _ _) as [log|e]; [|discriminate].
  cbn. intros [= <- <-]. eauto.
Qed.

Lemma log_examples_later args i b outputs :
  i <> 0 -> log_examples args i b outputs = ([], Ok i).
Proof.
  intros N. unfold Prompting.log_examples.
  destruct (Z.eqb_spec i 0); [contradiction|]. now rewrite andb_false_r.
Qed.

Lemma periodic_cases args i st out :
  verbose args = true -> evaluate_every args <> 0 ->
  periodic args i st = (out, Ok tt) ->
  (i mod evaluate_every args <> 0 /\ out = []) \/
  (i mod evaluate_every args = 0 /\
   exists scores,
     evaluate_fn (reviews_predictions V st) (reviews_references V st)
       (ratings_predictions V st) (ratings_references V st) args = Ok scores /\
     out = [Append (log_file_path args)
              (nl ++ nl ++ decimal (batch_size args * i) ++ " samples:" ++ nl
               ++ str_scores scores)]).
Proof.
  intros Vb NZ. unfold Prompting.periodic. rewrite Vb.
  destruct (Z.eqb_spec (evaluate_every args) 0); [contradiction|].
  destruct (Z.eqb_spec (i mod evaluate_every args) 0) as [E|E].
  - rewrite io_bind_lift. destruct (evaluate_fn _ _ _ _ args) as [scores|e]; [|discriminate].
    unfold emit. intros [= <-]. right. split; [exact E|]. eauto.
  - unfold io_ret. intros [= <-]. left; auto.
Qed.

(** X14. In a verbose run the periodic evaluation of the first turn is decided by
    the number of outputs of the first batch, which the loop over the examples
    leaves in [i]; in the later turns by the index of the batch. *)
Theorem periodic_index args i b st outputs out st' :
  verbose args = true -> evaluate_every args <> 0 ->
  process_batch b = Ok outputs ->
  turn process_batch args i b st = (out, Ok st') ->
  let j := if i =? 0 then after_range V 0 outputs else i in
  exists log_out tail,
    out = (log_out ++ tail)%list /\
    (if i =? 0 then exists log, log_out = [Print log; Append (log_file_path args) log]
     else log_out = []) /\
    ((j mod evaluate_every args <> 0 /\ tail = []) \/
     (j mod evaluate_every args = 0 /\
      exists scores,
        evaluate_fn (reviews_predictions V st') (reviews_references V st')
          (ratings_predictions V st') (ratings_references V st') args = Ok scores /\
        tail = [Append (log_file_path args)
                  (nl ++ nl ++ decimal (batch_size args * j) ++ " samples:" ++ nl
                   ++ str_scores scores)])).
Proof.
  intros Vb NZ P T j. unfold Prompting.turn in T. rewrite P, io_bind_lift in T.
  apply io_bind_ok in T as (o1 & i' & o2 & L & T & ->).
  rewrite io_bind_lift in T.
  destruct (accumulate args b outputs st) as [st1|e]; [|discriminate].
  apply io_bind_ok in T as (o3 & [] & o4 & Pd & T & ->).
  unfold io_ret in T. injection T as <- <-. rewrite app_nil_r.
  exists o1, o3. split; [reflexivity|].
  assert (J : i' = j /\
              if i =? 0 then exists log, o1 = [Print log; Append (log_file_path args) log]
              else o1 = []).
  { unfold j. destruct (Z.eqb_spec i 0) as [->|N].
    - now apply log_examples_first in L.
    - rewrite (log_examples_later args i b outputs N) in L. injection L as <- <-. auto. }
  destruct J as [-> J]. split; [exact J|].
  now apply periodic_cases.
Qed.

(** *** What the final evaluation sees *)

Lemma review_ratings_inv outputs rs ts :
  review_ratings V get_review_rating outputs = Ok (rs, ts) ->
  exists pairs,
    Forall2 (fun o p => get_review_rating o = Ok p) outputs pairs /\
    rs = map fst pairs /\ ts = map snd pairs.
Proof.
  revert rs ts. induction outputs as [|o rest IH]; intros rs ts; simpl.
  - intros [= <- <-]. exists []. repeat split. constructor.
  - destruct (get_review_rating o) as [[r t]|e] eqn:G; [|discriminate]. cbn [bind].
    destruct (review_ratings V get_review_rating rest) as [[rs' ts']|e]; [|discriminate].
    cbn [bind]. intros [= <- <-].
    destruct (IH rs' ts' eq_refl) as (pairs & F & -> & ->).
    exists ((r, t) :: pairs). repeat split. now constructor.
Qed.

Lemma batch_get_column (b : batch V) k l :
  batch_get b k = Ok l -> column k [b] = l.
Proof.
  unfold batch_get, column. simpl. destruct (dict_get k b); [|discriminate].
  intros [= ->]. apply app_nil_r.
Qed.

Lemma accumulate_inv args b outputs st st' :
  accumulate args b outputs st = Ok st' ->
  exists rp rr tp tr,
    collected V get_review_rating args [b] [outputs] rp rr tp tr /\
    reviews_predictions V st' = (reviews_predictions V st ++ rp)%list /\
    reviews_references V st' = (reviews_references V st ++ rr)%list /\
    ratings_predictions V st' = (ratings_predictions V st ++ tp)%list /\
    ratings_references V st' = (ratings_references V st ++ tr)%list.
Proof.
  unfold Prompting.accumulate, collected. simpl List.concat. rewrite app_nil_r.
  destruct (target_review_flag args), (target_rating_flag args); cbn [andb].
  - destruct (review_ratings V get_review_rating outputs) as [[rs ts]|e] eqn:R;
      [|discriminate]. cbn [bind].
    destruct (batch_get b "review") as [reviews|e] eqn:G1; [|discriminate]. cbn [bind].
    destruct (batch_get b "rating") as [ratings|e] eqn:G2; [|discriminate]. cbn [bind].
    intros [= <-]. destruct (review_ratings_inv _ _ _ R) as (pairs & F & -> & ->).
    exists (map fst pairs), reviews, (map snd pairs), ratings.
    rewrite (batch_get_column _ _ _ G1), (batch_get_column _ _ _ G2). simpl.
    repeat split. exists pairs. auto.
  - destruct (batch_get b "review") as [reviews|e] eqn:G1; [|discriminate]. cbn [bind].
    intros [= <-]. exists outputs, reviews, [], [].
    rewrite (batch_get_column _ _ _ G1). simpl. rewrite !app_nil_r. auto 10.
  - destruct (batch_get b "rating") as [ratings|e] eqn:G2; [|discriminate]. cbn [bind].
    intros [= <-]. exists [], [], outputs, ratings.
    rewrite (batch_get_column _ _ _ G2). simpl. rewrite !app_nil_r. auto 10.
  - intros [= <-]. exists [], [], [], []. rewrite !app_nil_r. auto 10.
Qed.

Lemma column_cons k (b : batch V) rest : column k (b :: rest) = (column k [b] ++ column k rest)%list.
Proof. unfold column. simpl. now rewrite app_nil_r. Qed.

Lemma collected_cons args b rest o outs rp1 rr1 tp1 tr1 rp2 rr2 tp2 tr2 :
  collected V get_review_rating args [b] [o] rp1 rr1 tp1 tr1 ->
  collected V get_review_rating args rest outs rp2 rr2 tp2 tr2 ->
  collected V get_review_rating args (b :: rest) (o :: outs)
    (rp1 ++ rp2) (rr1 ++ rr2) (tp1 ++ tp2) (tr1 ++ tr2).
Proof.
  unfold collected. rewrite !(column_cons _ b rest).
  simpl List.concat. rewrite app_nil_r.
  destruct (target_review_flag args), (target_rating_flag args); cbn [andb].
  - intros (p1 & F1 & -> & -> & -> & ->) (p2 & F2 & -> & -> & -> & ->).
    exists (p1 ++ p2)%list. rewrite !map_app. repeat split. now apply Forall2_app.
  - intros (-> & -> & -> & ->) (-> & -> & -> & ->). auto.
  - intros (-> & -> & -> & ->) (-> & -> & -> & ->). auto.
  - intros (-> & -> & -> & ->) (-> & -> & -> & ->). auto.
Qed.

Lemma collected_nil args : collected V get_review_rating args [] [] [] [] [] [].
Proof.
  unfold collected.
  destruct (target_review_flag args), (target_rating_flag args); cbn [andb]; auto.
  exists []. repeat split. constructor.
Qed.

Lemma turn_inv args i b st out st' :
  turn process_batch args i b st = (out, Ok st') ->
  exists outputs, process_batch b = Ok outputs /\ accumulate args b outputs st = Ok st'.
Proof.
  unfold Prompting.turn. rewrite io_bind_lift.
  destruct (process_batch b) as [outputs|e]; [|discriminate]. intros T.
  apply io_bind_ok in T as (o1 & i' & o2 & _ & T & _). rewrite io_bind_lift in T.
  destruct (accumulate args b outputs st) as [st1|e] eqn:A; [|discriminate].
  apply io_bind_ok in T as (o3 & [] & o4 & _ & T & _). injection T as _ <-.
  exists outputs. split; [reflexivity | exact A].
Qed.

Lemma turns_collected args dataloader : forall i st out st',
  turns process_batch args i dataloader st = (out, Ok st') ->
  exists outs rp rr tp tr,
    Forall2 (fun b o => process_batch b = Ok o) dataloader outs /\
    collected V get_review_rating args dataloader outs rp rr tp tr /\
    reviews_predictions V st' = (reviews_predictions V st ++ rp)%list /\
    reviews_references V st' = (reviews_references V st ++ rr)%list /\
    ratings_predictions V st' = (ratings_predictions V st ++ tp)%list /\
    ratings_references V st' = (ratings_references V st ++ tr)%list.
Proof.
  induction dataloader as [|b rest IH]; intros i st out st' T; cbn [Prompting.turns] in T.
  - injection T as _ <-. exists [], [], [], [], []. rewrite !app_nil_r.
    repeat split; auto using collected_nil.
  - apply io_bind_ok in T as (o1 & st1 & o2 & T1 & T2 & _).
    apply turn_inv in T1 as (o & P & A).
    apply accumulate_inv in A as (rp1 & rr1 & tp1 & tr1 & C1 & E1 & E2 & E3 & E4).
    apply IH in T2 as (outs & rp2 & rr2 & tp2 & tr2 & F & C2 & G1 & G2 & G3 & G4).
    exists (o :: outs), (rp1 ++ rp2)%list, (rr1 ++ rr2)%list, (tp1 ++ tp2)%list,
      (tr1 ++ tr2)%list.
    rewrite G1, G2, G3, G4, E1, E2, E3, E4, <- !app_assoc.
    repeat split; auto using collected_cons.
Qed.

(** X15. A run that completes returns the evaluation of what the model gave for
    all the batches, in order, against the reference columns of all the
    batches; which lists are filled is decided by the two target flags. *)
Theorem prompting_collects args dataloader out scores :
  prompting process_batch dataloader args = (out, Ok scores) ->
  exists outs rp rr tp tr,
    Forall2 (fun b o => process_batch b = Ok o) dataloader outs /\
    collected V get_review_rating args dataloader outs rp rr tp tr /\
    evaluate_fn rp rr tp tr args = Ok scores.
Proof.
  unfold Prompting.prompting. intros T.
  apply io_bind_ok in T as (o1 & st & o2 & T1 & T2 & _).
  apply turns_collected in T1 as (outs & rp & rr & tp & tr & F & C & E1 & E2 & E3 & E4).
  simpl in E1, E2, E3, E4. rewrite E1, E2, E3, E4, io_bind_lift in T2.
  destruct (evaluate_fn rp rr tp tr args) as [s|e] eqn:E; [|discriminate].
  apply io_bind_ok in T2 as (o3 & [] & o4 & _ & T2 & _). injection T2 as _ <-.
  exists outs, rp, rr, tp, tr. auto.
Qed.

End LoopFacts.

(** *** The log file *)

Section LogFile.

Import Prompting.

Variable V : Type.
Variable Scores : Type.
Variable str_ : V -> string.
Variable str_scores : Scores -> string.
Variable get_review_rating : V -> result (V * V).
Variable evaluate_fn : list V -> list V -> list V -> list V -> Args -> result Scores.
Variable process_batch : batch V -> result (list V).

Abbreviation turn := (turn V Scores str_ str_scores get_review_rating evaluate_fn).
Abbreviation turns := (turns V Scores str_ str_scores get_review_rating evaluate_fn).
Abbreviation prompting := (prompting V Scores str_ str_scores get_review_rating evaluate_fn).

Lemma io_bind_all {A B : Type} (P : io -> Prop) (m : io_result A) (k : A -> io_result B) :
  Forall P (fst m) -> (forall a, Forall P (fst (k a))) -> Forall P (fst (io_bind m k)).
Proof.
  destruct m as [o1 [a|e]]; simpl; intros H1 H2; [|exact H1].
  specialize (H2 a). destruct (k a). simpl in *. apply Forall_app. auto.
Qed.

Lemma lift_all {A : Type} (P : io -> Prop) (r : result A) : Forall P (fst (lift r)).
Proof. constructor. Qed.

Lemma ret_all {A : Type} (P : io -> Prop) (a : A) : Forall P (fst (io_ret a)).
Proof. constructor. Qed.

Lemma turn_log_only args i b st :
  Forall (touches_only (log_file_path args)) (fst (turn process_batch args i b st)).
Proof.
  unfold Prompting.turn.
  apply io_bind_all; [apply lift_all|]. intros outputs.
  apply io_bind_all.
  { unfold Prompting.log_examples. destruct (verbose args && (i =? 0)); [|apply ret_all].
    apply io_bind_all; [apply lift_all|]. intros log.
    apply io_bind_all; [repeat constructor|]. intros _.
    apply io_bind_all; [repeat constructor|]. intros _. apply ret_all. }
  intros i'. apply io_bind_all; [apply lift_all|]. intros st'.
  apply io_bind_all; [|intros; apply ret_all].
  unfold Prompting.periodic. destruct (verbose args); [|apply ret_all].
  destruct (evaluate_every args =? 0); [apply lift_all|].
  destruct (i' mod evaluate_every args =? 0); [|apply ret_all].
  apply io_bind_all; [apply lift_all|]. intros scores. repeat constructor.
Qed.

Lemma turns_log_only args dataloader : forall i st,
  Forall (touches_only (log_file_path args)) (fst (turns process_batch args i dataloader st)).
Proof.
  induction dataloader as [|b rest IH]; intros i st; cbn [Prompting.turns].
  - apply ret_all.
  - apply io_bind_all; [apply turn_log_only | intros; apply IH].
Qed.

(** X18. Whether it completes or not, [prompting] writes to no file but the
    log, and only by appending; a verbose run that completes ends with the line
    of the results. *)
Theorem log_file_only args dataloader :
  Forall (touches_only (log_file_path args)) (fst (prompting process_batch dataloader args)) /\
  (forall out scores,
     verbose args = true ->
     prompting process_batch dataloader args = (out, Ok scores) ->
     exists before,
       out = (before ++ [Append (log_file_path args)
                           (nl ++ nl ++ "Results: " ++ str_scores scores)])%list).
Proof.
  split.
  - unfold Prompting.prompting.
    apply io_bind_all; [apply turns_log_only|]. intros st.
    apply io_bind_all; [apply lift_all|]. intros scores.
    apply io_bind_all; [|intros; apply ret_all].
    destruct (verbose args); [repeat constructor | apply ret_all].
  - intros out scores Vb. unfold Prompting.prompting. rewrite Vb. intros T.
    apply io_bind_ok in T as (o1 & st & o2 & _ & T & ->).
    rewrite io_bind_lift in T.
    destruct (evaluate_fn _ _ _ _ args) as [s|e]; [|discriminate].
    cbn in T. injection T as <- <-. now exists o1.
Qed.

End LogFile.

(** *** Examples of runs *)

Lemma quiet_run_witness :
  fst (example_prompting [example_batch; example_batch] (with_options false 10 true false))
  = [].
Proof.
  apply (quiet_run string nat (fun s => s) (fun n => decimal (Z.of_nat n))
           example_split example_evaluate example_process_batch).
  reflexivity.
Defined.

Lemma zero_period_never_completes_witness :
  exists e,
    snd (example_prompting [example_batch] (with_options true 0 true false)) = Raise e.
Proof.
  apply (zero_period_never_completes string nat (fun s => s)
           (fun n => decimal (Z.of_nat n)) example_split example_evaluate
           example_process_batch (with_options true 0 true false) [example_batch]).
  - reflexivity.
  - reflexivity.
  - discriminate.
Defined.

Lemma prompting_collects_witness :
  exists out outs rp rr,
    example_prompting [example_batch; example_batch] (with_options false 10 true false)
    = (out, Ok 4%nat) /\
    Forall2 (fun b o => example_process_batch b = Ok o) [example_batch; example_batch] outs /\
    rp = List.concat outs /\ rr = ["r1"; "r2"; "r1"; "r2"] /\
    example_evaluate rp rr [] [] (with_options false 10 true false) = Ok 4%nat.
Proof.
  assert (P : example_prompting [example_batch; example_batch]
                (with_options false 10 true false) = ([], Ok 4%nat)) by reflexivity.
  destruct (prompting_collects string nat (fun s => s) (fun n => decimal (Z.of_nat n))
              example_split example_evaluate example_process_batch _ _ _ _ P)
    as (outs & rp & rr & tp & tr & F & C & E).
  unfold collected in C. simpl in C. destruct C as (-> & -> & -> & ->).
  exists [], outs, (List.concat outs), ["r1"; "r2"; "r1"; "r2"]. auto.
Defined.

Lemma periodic_index_witness :
  exists log st',
    Prompting.turn string nat (fun s => s) (fun n => decimal (Z.of_nat n))
      example_split example_evaluate example_process_batch
      (with_options true 2 true false) 0 example_batch
      {| Prompting.reviews_predictions := []; Prompting.reviews_references := [];
         Prompting.ratings_predictions := []; Prompting.ratings_references := [] |}
    = ([Prompting.Print log; Prompting.Append "log.txt" log], Ok st').
Proof.
  destruct (Prompting.turn string nat (fun s => s) (fun n => decimal (Z.of_nat n))
              example_split example_evaluate example_process_batch
              (with_options true 2 true false) 0 example_batch
              {| Prompting.reviews_predictions := []; Prompting.reviews_references := [];
                 Prompting.ratings_predictions := []; Prompting.ratings_references := [] |})
    as [out [st'|e]] eqn:T; [|vm_compute in T; discriminate].
  destruct (periodic_index string nat (fun s => s) (fun n => decimal (Z.of_nat n))
              example_split example_evaluate example_process_batch
              (with_options true 2 true false) 0 example_batch _ ["good"; "good"] out st'
              eq_refl ltac:(discriminate) eq_refl T)
    as (log_out & tail & -> & [log ->] & [[_ ->] | [M _]]).
  - exists log, st'. reflexivity.
  - discriminate M.
Defined.

(** *** A failure of the model *)

Section ModelFailure.

Import Prompting.

Variable V : Type.
Variable Scores : Type.
Variable str_ : V -> string.
Variable str_scores : Scores -> string.
Variable get_review_rating : V -> result (V * V).
Variable evaluate_fn : list V -> list V -> list V -> list V -> Args -> result Scores.
Variable process_batch : batch V -> result (list V).

Abbreviation turn := (turn V Scores str_ str_scores get_review_rating evaluate_fn).
Abbreviation turns := (turns V Scores str_ str_scores get_review_rating evaluate_fn).
Abbreviation prompting := (prompting V Scores str_ str_scores get_review_rating evaluate_fn).

Lemma io_bind_assoc {A B D : Type} (m : io_result A) (f : A -> io_result B)
    (g : B -> io_result D) :
  io_bind (io_bind m f) g = io_bind m (fun a => io_bind (f a) g).
Proof.
  destruct m as [o1 [a|e]]; [|reflexivity]. simpl.
  destruct (f a) as [o2 [b|e]]; simpl; [|reflexivity].
  destruct (g b) as [o3 r]. now rewrite app_assoc.
Qed.

Lemma io_bind_ext {A B : Type} (m : io_result A) (f g : A -> io_result B) :
  (forall a, f a = g a) -> io_bind m f = io_bind m g.
Proof. intros H. destruct m as [o1 [a|e]]; [|reflexivity]. simpl. now rewrite H. Qed.

Lemma turns_app args pre : forall post i st,
  turns process_batch args i (pre ++ post) st
  = (st' <~ turns process_batch args i pre st ;;
     turns process_batch args (i + Z.of_nat (List.length pre)) post st').
Proof.
  induction pre as [|b pre IH]; intros post i st; cbn [Prompting.turns app List.length].
  - rewrite io_bind_ret. f_equal. lia.
  - rewrite io_bind_assoc. apply io_bind_ext. intros st1. rewrite IH.
    replace (i + 1 + Z.of_nat (List.length pre))
      with (i + Z.of_nat (S (List.length pre))) by lia.
    reflexivity.
Qed.

(** X21. When the model fails on a batch, [prompting] ends with the model's
    exception, having emitted what the batches before it emitted and nothing
    more: no evaluation is logged for the failing batch and no results line
    follows. *)
Theorem model_failure_ends_run args pre b post out st e :
  turns process_batch args 0 pre
    {| reviews_predictions := []; reviews_references := [];
       ratings_predictions := []; ratings_references := [] |} = (out, Ok st) ->
  process_batch b = Raise e ->
  prompting process_batch (pre ++ b :: post) args = (out, Raise e).
Proof.
  intros T P. unfold Prompting.prompting. rewrite turns_app, T.
  cbn [io_bind Prompting.turns]. unfold Prompting.turn. rewrite P.
  cbn. now rewrite app_nil_r.
Qed.

End ModelFailure.

Lemma model_failure_ends_run_witness :
  example_prompting [example_batch; []; example_batch] (with_options false 10 true false)
  = ([], Raise KeyError).
Proof.
  apply (model_failure_ends_run string nat (fun s => s) (fun n => decimal (Z.of_nat n))
           example_split example_evaluate example_process_batch
           (with_options false 10 true false) [example_batch] [] [example_batch] []
           {| Prompting.reviews_predictions := ["good"; "good"];
              Prompting.reviews_references := ["r1"; "r2"];
              Prompting.ratings_predictions := [];
              Prompting.ratings_references := [] |} KeyError);
    reflexivity.
Defined.

(** *** The paths of [main] *)

Section Paths.

Import Prompting.

Lemma replace_removes old new s : new <> old -> contains old (replace old new s) = false.
Proof.
  intros N. induction s as [|c s IH]; simpl; [reflexivity|]. rewrite IH, orb_false_r.
  destruct (Ascii.eqb_spec c old) as [->|C].
  - now apply Ascii.eqb_neq.
  - now apply Ascii.eqb_neq.
Qed.

Lemma replace_keeps c old new s :
  new <> c -> contains c s = false -> contains c (replace old new s) = false.
Proof.
  intros N. induction s as [|a s IH]; simpl; [reflexivity|].
  intros H. apply orb_false_iff in H as [A S]. rewrite (IH S), orb_false_r.
  destruct (Ascii.eqb a old); [now apply Ascii.eqb_neq | exact A].
Qed.

Lemma replace_empty old new s : replace old new s = "" -> s = "".
Proof. destruct s; [reflexivity | discriminate]. Qed.

Lemma default_exp_name_not_empty args now : default_exp_name args now <> "".
Proof. unfold default_exp_name. now destruct (model_name_or_path args). Qed.

Lemma contains_app c a b : contains c (a ++ b) = contains c a || contains c b.
Proof. induction a as [|x a IH]; simpl; [reflexivity | now rewrite IH, orb_assoc]. Qed.

Lemma contains_rev c s : contains c (string_rev s) = contains c s.
Proof.
  induction s as [|a s IH]; [reflexivity|].
  change (String a s) with (String a "" ++ s).
  rewrite string_rev_app, !contains_app, IH. apply orb_comm.
Qed.

(** [join] appends with one separator when its first argument does not end
    with a slash and its second does not begin with one. *)
Lemma join_plain a b c r :
  (forall b', b <> String "/" b') -> string_rev a = String c r -> c <> "/"%char ->
  join a b = a ++ "/" ++ b.
Proof.
  intros B A C. unfold join.
  assert (I : match string_rev a with
              | EmptyString => b
              | String "/" _ => a ++ b
              | String _ _ => a ++ "/" ++ b
              end = a ++ "/" ++ b).
  { rewrite A. destruct c as [[] [] [] [] [] [] [] []]; try reflexivity. now destruct C. }
  destruct b as [|x b']; [exact I|].
  destruct x as [[] [] [] [] [] [] [] []]; try exact I. now destruct (B b').
Qed.

Lemma no_slash_head s : contains "/" s = false -> forall s', s <> String "/" s'.
Proof. intros H s' ->. discriminate. Qed.

Lemma no_slash_last s :
  s <> "" -> contains "/" s = false ->
  exists c r, string_rev s = String c r /\ c <> "/"%char.
Proof.
  intros N H. rewrite <- contains_rev in H.
  destruct (string_rev s) as [|c r] eqn:E.
  - destruct s as [|a s]; [contradiction|].
    change (String a s) with (String a "" ++ s) in E. rewrite string_rev_app in E.
    destruct (string_rev s); discriminate.
  - exists c, r. split; [reflexivity|]. simpl in H. apply orb_false_iff in H as [H _].
    now apply Ascii.eqb_neq.
Qed.

Lemma join_exps d : exists x, join d "exps" = x ++ "exps".
Proof.
  unfold join. destruct (string_rev d) as [|c r].
  - now exists "".
  - destruct c as [[] [] [] [] [] [] [] []];
      first [now exists d | exists (d ++ "/"); now rewrite append_assoc].
Qed.

(** X16. The name [main] uses for the experiment is not empty and has no
    slash and no space, and the paths of the log and of the results are, as
    texts, [<dataset_dir>/exps/<name>/log.txt] and
    [<dataset_dir>/exps/<name>/res.json].  The name can still be [.] or [..],
    which the file system does not read as a directory of its own under
    [exps]. *)
Theorem experiment_paths now args :
  let a := main_args now args in
  let exps := join (dataset_dir a) "exps" in
  exp_name a <> "" /\
  contains "/" (exp_name a) = false /\ contains " " (exp_name a) = false /\
  log_file_path a = exps ++ "/" ++ exp_name a ++ "/log.txt" /\
  res_file_path a = exps ++ "/" ++ exp_name a ++ "/res.json".
Proof.
  intros a exps. unfold a, main_args. cbn [exp_name log_file_path res_file_path dataset_dir].
  fold (dataset_dir a). fold exps.
  set (name0 := if String.eqb (exp_name args) "" then default_exp_name args now
                else exp_name args).
  set (name := replace "/" "_" (replace " " "_" name0)).
  assert (N0 : name0 <> "").
  { unfold name0. destruct (String.eqb_spec (exp_name args) "");
      [apply default_exp_name_not_empty | assumption]. }
  assert (N : name <> "").
  { intros E. apply replace_empty, replace_empty in E. contradiction. }
  assert (S1 : contains "/" name = false) by now apply replace_removes.
  assert (S2 : contains " " name = false).
  { apply replace_keeps; [discriminate|]. now apply replace_removes. }
  assert (D : join exps name = exps ++ "/" ++ name).
  { destruct (join_exps (dataset_dir a)) as [x X]. fold exps in X.
    apply (join_plain exps name "s" (string_rev ("exp") ++ string_rev x));
      [now apply no_slash_head | | discriminate].
    rewrite X, string_rev_app. reflexivity. }
  assert (L : forall f, contains "/" f = false -> f <> "" ->
                join (join exps name) f = exps ++ "/" ++ name ++ "/" ++ f).
  { intros f F NF. rewrite D.
    destruct (no_slash_last name N S1) as (c & r & R & C).
    rewrite (join_plain _ f c (r ++ string_rev (exps ++ "/")));
      [now rewrite !append_assoc | now apply no_slash_head | | exact C].
    rewrite <- append_assoc, string_rev_app, R. reflexivity. }
  repeat split; try assumption; apply L; try reflexivity; discriminate.
Qed.

End Paths.

(** X17. With its defaults, the prompting script reads the tables where the data
    script wrote them. *)
Theorem default_inputs repr pargs fp effs t now args :
  process_dataset repr pargs fp = (effs, Ok t) ->
  Prompting.base_dir args = output_base_dir pargs ->
  Prompting.dataset_name args = dataset_name pargs ->
  Prompting.dataset_dir args = "" -> Prompting.dataset_path args = "" ->
  let a := Prompting.main_args now args in
  In (ToCsv (Prompting.dataset_path a) (data t)) effs /\
  (Prompting.user_description_flag args = true -> Prompting.users_path args = "" ->
   In (ToCsv (Prompting.users_path a) (users t)) effs) /\
  (Prompting.item_description_flag args = true -> Prompting.items_path args = "" ->
   In (ToCsv (Prompting.items_path a) (items t)) effs).
Proof.
  intros H B N D P a. apply process_dataset_ok in H as [_ ->].
  unfold a, Prompting.main_args. simpl. rewrite B, N, D, P. simpl.
  split; [auto|]. split; intros -> ->; simpl; auto.
Qed.

Lemma default_inputs_witness :
  let a := Prompting.main_args 0 (with_dataset "out" "RateBeer") in
  In (ToCsv (Prompting.dataset_path a) (data example_tables)) (fst example_run) /\
  In (ToCsv (Prompting.items_path a) (items example_tables)) (fst example_run).
Proof.
  intros a.
  assert (H : process_dataset repr_none default_args example_file
              = (fst example_run, Ok example_tables)) by (vm_compute; reflexivity).
  destruct (default_inputs repr_none default_args example_file _ _ 0
              (with_dataset "out" "RateBeer") H eq_refl eq_refl eq_refl eq_refl)
    as (D & _ & I).
  split; [exact D | exact (I eq_refl eq_refl)].
Defined.
